(** * screenshot-api: pool, admission queue, cache and page-readiness model

    A shallow embedding of [index.js]: the [BrowserPool], [RequestQueue] and
    [SimpleCache] classes, the page-load waiting functions and the cache key of
    the [/screenshot] route.  JavaScript runs one callback at a time, so every
    asynchronous function is cut at its [await]s into synchronous segments; an
    event of the environment (a caller arrives, a launch settles, a timer
    fires) runs exactly one segment. *)

From Stdlib Require Import PrimFloat QArith Lqa.
From stdpp Require Import gmap strings list.

Open Scope Z_scope.

(** ** JavaScript array primitives used by the classes *)

Module JsArray.

(** [Array.prototype.indexOf]: first index holding a strictly equal element;
    [None] stands for [-1]. *)
Fixpoint indexOf {A} `{EqDecision A} (x : A) (l : list A) : option nat :=
  match l with
  | [] => None
  | y :: l' => if decide (y = x) then Some 0%nat else S <$> indexOf x l'
  end.

(** [arr.splice(i, 1)]. *)
Definition splice1 {A} (i : nat) (l : list A) : list A :=
  take i l ++ drop (S i) l.

(** The idiom [i = arr.indexOf(x); if (i > -1) arr.splice(i, 1)]. *)
Definition removeFirst {A} `{EqDecision A} (x : A) (l : list A) : list A :=
  match indexOf x l with
  | Some i => splice1 i l
  | None => l
  end.

(** [arr.pop()]: the last element and the array without it. *)
Definition pop {A} (l : list A) : option (A * list A) :=
  match last l with
  | Some x => Some (x, take (length l - 1)%nat l)
  | None => None
  end.

(** [arr.push(x)]. *)
Definition push {A} (x : A) (l : list A) : list A := l ++ [x].

(** [String.prototype.includes]. *)
Fixpoint includes (needle hay : string) : bool :=
  String.prefix needle hay ||
  match hay with
  | EmptyString => false
  | String _ hay' => includes needle hay'
  end.

End JsArray.

(** ** class BrowserPool *)

Module BrowserPool.
Import JsArray.

(** A browser is an opaque handle. *)
Definition Browser := nat.

(** What [browser.isConnected()] does when called. *)
Inductive Probe := Connected | Disconnected | ProbeThrows.

(** How a promise is settled; also the argument handed to a resolver, which
    is a browser or an already rejected promise. *)
Inductive Settled :=
  | Fulfilled (b : Browser)
  | Rejected (message : string).

(** The function objects that can sit in [waitingQueue] or be searched there.
    For the promise [p] built in [acquireBrowser], [Resolve p] is the
    executor's [resolve] and [Notify p] is the arrow function
    [(browser) => { clearTimeout(timeout); resolve(browser); }].  They are
    different objects. *)
Inductive Callback :=
  | Resolve (p : nat)
  | Notify (p : nat).

#[global] Instance Callback_eq_dec : EqDecision Callback.
Proof. solve_decision. Defined.

(** Where a call of [acquireBrowser] is suspended. *)
Inductive Await :=
  | AwaitCreate (retryCount : Z)
  | AwaitDelay (ms : Z) (retryCount : Z).

(** The fields set by the constructor. *)
Record Pool := mkPool {
  poolSize : Z;
  browsers : list Browser;
  availableBrowsers : list Browser;
  waitingQueue : list Callback;
  isShuttingDown : bool
}.

(** The pool together with the part of the JavaScript heap its methods touch. *)
Record World := mkWorld {
  pool : Pool;
  promises : gmap nat Settled;     (* settled acquire promises; absent = pending *)
  timers : gset nat;               (* armed 60 s timers, keyed by their promise *)
  awaiting : gmap nat Await;       (* acquire calls suspended at an await *)
  probes : gmap Browser Probe;     (* absent = Connected *)
  closeCalls : list Browser;       (* browsers on which close() was called *)
  closing : nat;                   (* shutdown() calls waiting on Promise.all *)
  nextPromise : nat
}.

Definition with_pool (f : Pool -> Pool) (w : World) : World :=
  mkWorld (f (pool w)) (promises w) (timers w) (awaiting w) (probes w)
          (closeCalls w) (closing w) (nextPromise w).
Definition set_browsers (l : list Browser) (q : Pool) : Pool :=
  mkPool (poolSize q) l (availableBrowsers q) (waitingQueue q) (isShuttingDown q).
Definition set_available (l : list Browser) (q : Pool) : Pool :=
  mkPool (poolSize q) (browsers q) l (waitingQueue q) (isShuttingDown q).
Definition set_waiting (l : list Callback) (q : Pool) : Pool :=
  mkPool (poolSize q) (browsers q) (availableBrowsers q) l (isShuttingDown q).
Definition set_shutting (f : bool) (q : Pool) : Pool :=
  mkPool (poolSize q) (browsers q) (availableBrowsers q) (waitingQueue q) f.
Definition with_promises (f : gmap nat Settled -> gmap nat Settled) (w : World) : World :=
  mkWorld (pool w) (f (promises w)) (timers w) (awaiting w) (probes w)
          (closeCalls w) (closing w) (nextPromise w).
Definition with_timers (f : gset nat -> gset nat) (w : World) : World :=
  mkWorld (pool w) (promises w) (f (timers w)) (awaiting w) (probes w)
          (closeCalls w) (closing w) (nextPromise w).
Definition with_awaiting (f : gmap nat Await -> gmap nat Await) (w : World) : World :=
  mkWorld (pool w) (promises w) (timers w) (f (awaiting w)) (probes w)
          (closeCalls w) (closing w) (nextPromise w).
Definition with_probes (f : gmap Browser Probe -> gmap Browser Probe) (w : World) : World :=
  mkWorld (pool w) (promises w) (timers w) (awaiting w) (f (probes w))
          (closeCalls w) (closing w) (nextPromise w).
Definition with_closeCalls (f : list Browser -> list Browser) (w : World) : World :=
  mkWorld (pool w) (promises w) (timers w) (awaiting w) (probes w)
          (f (closeCalls w)) (closing w) (nextPromise w).
Definition with_closing (f : nat -> nat) (w : World) : World :=
  mkWorld (pool w) (promises w) (timers w) (awaiting w) (probes w)
          (closeCalls w) (f (closing w)) (nextPromise w).
Definition fresh_promise (w : World) : World :=
  mkWorld (pool w) (promises w) (timers w) (awaiting w) (probes w)
          (closeCalls w) (closing w) (S (nextPromise w)).

(** [constructor(poolSize)], in an otherwise empty heap. *)
Definition new (size : Z) : World :=
  mkWorld (mkPool size [] [] [] false) ∅ ∅ ∅ ∅ [] 0%nat 0%nat.

Definition shuttingDownMessage : string := "Browser pool is shutting down".
Definition timeoutMessage : string :=
  "Browser acquisition timeout - no browser available within 60 seconds".
Definition acquireFailedPrefix : string := "Browser creation failed after 3 attempts: ".
Definition createFailedPrefix : string := "Browser creation failed after 4 attempts: ".

Definition probe (w : World) (b : Browser) : Probe :=
  default Connected (probes w !! b).

(** [isBrowserHealthy]: [browser && !browser.isConnected() === false] parses
    as [browser && ((!browser.isConnected()) === false)]; an exception gives
    [false]. *)
Definition isBrowserHealthy (w : World) (b : Browser) : bool :=
  match probe w b with
  | Connected => Bool.eqb (negb true) false
  | Disconnected => Bool.eqb (negb false) false
  | ProbeThrows => false
  end.

(** [removeBrowser]: first occurrence out of both arrays, then [close()] if
    the browser still reports connected (its result is raced against a 5 s
    timer and only logged). *)
Definition removeBrowser (b : Browser) (w : World) : World :=
  let w1 := with_pool (fun q => set_browsers (removeFirst b (browsers q)) q) w in
  let w2 := with_pool (fun q => set_available (removeFirst b (availableBrowsers q)) q) w1 in
  match probe w2 b with
  | Connected => with_closeCalls (push b) w2
  | Disconnected => w2
  | ProbeThrows => w2
  end.

(** Settling a promise: only the first settlement counts. *)
Definition settle (p : nat) (x : Settled) (w : World) : World :=
  match promises w !! p with
  | Some _ => w
  | None => with_promises (insert p x) w
  end.

(** Calling a function object of the queue with argument [x]. *)
Definition invoke (cb : Callback) (x : Settled) (w : World) : World :=
  match cb with
  | Resolve p => settle p x w
  | Notify p => settle p x (with_timers (fun t => t ∖ {[p]}) w)
  end.

(** What a synchronous segment of [acquireBrowser] ends with. *)
Inductive Outcome :=
  | Returned (b : Browser)
  | Threw (message : string)
  | Suspended (a : Await)
  | Parked.

(** [acquireBrowser(retryCount)] from its entry to its first [await] or to
    its return.  The call for an unhealthy browser is the recursive call of
    the source; [fuel] bounds it. *)
Fixpoint acquireBrowser_from (fuel : nat) (p : nat) (retryCount : Z) (w : World)
  : option (World * Outcome) :=
  match fuel with
  | O => None
  | S fuel' =>
    if isShuttingDown (pool w) then Some (w, Threw shuttingDownMessage)
    else
      match pop (availableBrowsers (pool w)) with
      | Some (browser, rest) =>
        let w1 := with_pool (set_available rest) w in
        if isBrowserHealthy w1 browser then Some (w1, Returned browser)
        else acquireBrowser_from fuel' p retryCount (removeBrowser browser w1)
      | None =>
        if Z.of_nat (length (browsers (pool w))) <? poolSize (pool w) then
          Some (w, Suspended (AwaitCreate retryCount))
        else
          let w1 := with_timers (fun t => t ∪ {[p]}) w in
          Some (with_pool (fun q => set_waiting (push (Notify p) (waitingQueue q)) q) w1,
                Parked)
      end
  end.

Definition acquireBrowser (p : nat) (retryCount : Z) (w : World) : World * Outcome :=
  default (w, Parked)
    (acquireBrowser_from (S (length (availableBrowsers (pool w)))) p retryCount w).

Definition maxRetries : Z := 2.

(** The outer [catch] of [acquireBrowser]. *)
Definition acquire_catch (retryCount : Z) (message : string) : Outcome :=
  if (retryCount <? maxRetries) && negb (includes "shutting down" message)
  then Suspended (AwaitDelay 2000 (retryCount + 1))
  else Threw message.

(** After [await this.createBrowser()]: the continuation on success and the
    inner [catch] on failure. *)
Definition after_create (retryCount : Z) (result : Browser + string) (w : World)
  : World * Outcome :=
  match result with
  | inl browser =>
    (with_pool (fun q => set_browsers (push browser (browsers q)) q) w, Returned browser)
  | inr message =>
    if retryCount <? maxRetries then (w, Suspended (AwaitDelay 3000 (retryCount + 1)))
    else (w, acquire_catch retryCount (acquireFailedPrefix +:+ message))
  end.

(** After one of the two delays: [return this.acquireBrowser(retryCount + 1)]. *)
Definition after_delay (p : nat) (retryCount : Z) (w : World) : World * Outcome :=
  acquireBrowser p retryCount w.

(** The 60 s timer callback of a parked call. *)
Definition acquire_timeout (p : nat) (w : World) : World :=
  let w1 :=
    match indexOf (Resolve p) (waitingQueue (pool w)) with
    | Some index => with_pool (fun q => set_waiting (splice1 index (waitingQueue q)) q) w
    | None => w
    end in
  settle p (Rejected timeoutMessage) w1.

(** [releaseBrowser]. *)
Definition releaseBrowser (b : Browser) (w : World) : World :=
  if isShuttingDown (pool w) then removeBrowser b w
  else if isBrowserHealthy w b then
    match waitingQueue (pool w) with
    | resolve :: rest => invoke resolve (Fulfilled b) (with_pool (set_waiting rest) w)
    | [] => with_pool (fun q => set_available (push b (availableBrowsers q)) q) w
    end
  else removeBrowser b w.

(** [this.waitingQueue.forEach((resolve) => resolve(Promise.reject(...)))]. *)
Definition rejectWaiting (w : World) : World :=
  foldl (fun acc resolve => invoke resolve (Rejected shuttingDownMessage) acc)
        w (waitingQueue (pool w)).

(** [this.browsers.map(async (browser) => ...)] up to the [await] inside:
    [close()] is called on every browser that reports connected. *)
Definition closeBrowsers (w : World) : World :=
  foldl (fun acc b =>
           match probe acc b with
           | Connected => with_closeCalls (push b) acc
           | Disconnected => acc
           | ProbeThrows => acc
           end) w (browsers (pool w)).

(** [shutdown] up to [await Promise.all(closePromises)]. *)
Definition shutdown (w : World) : World :=
  let w1 := with_pool (set_shutting true) w in
  let w2 := rejectWaiting w1 in
  let w3 := with_pool (set_waiting []) w2 in
  with_closing S (closeBrowsers w3).

(** [shutdown] after the [await]. *)
Definition shutdown_finish (w : World) : World :=
  with_closing Nat.pred
    (with_pool (fun q => set_available [] (set_browsers [] q)) w).

(** The timer callback installed by [scheduleCleanup], up to its [await];
    [cache.clear()] follows once [shutdown] has finished. *)
Definition cleanupFired (IDLE_TIMEOUT now lastActivity : Z) (w : World) : World :=
  if now - lastActivity >=? IDLE_TIMEOUT then shutdown w else w.

(** [initialize]: [poolSize] sequential [createBrowser] calls at start-up;
    [created i] is the browser of the [i]-th call, or [None] when it threw. *)
Fixpoint initialize_from (n : nat) (created : nat -> option Browser) (i : nat)
    (w : World) : World :=
  match n with
  | O => w
  | S n' =>
    let w' :=
      match created i with
      | Some browser =>
        with_pool (fun q => set_available (push browser (availableBrowsers q))
                              (set_browsers (push browser (browsers q)) q)) w
      | None => w
      end in
    initialize_from n' created (S i) w'
  end.

Definition initialize (created : nat -> option Browser) (w : World) : World :=
  initialize_from (Z.to_nat (poolSize (pool w))) created 0 w.

(** *** The pool under interleaving

    One event runs one synchronous segment.  An event that cannot occur in
    the current heap (no such suspended call, timer not armed) changes nothing. *)
Inductive Event :=
  | Acquire                                 (* a caller invokes acquireBrowser() *)
  | Created (p : nat) (b : Browser)         (* the createBrowser() awaited by p resolves *)
  | CreateFailed (p : nat) (message : string) (* ... or rejects *)
  | DelayElapsed (p : nat)                  (* the retry delay awaited by p is over *)
  | TimerFired (p : nat)                    (* the 60 s timer of the parked call p *)
  | Release (b : Browser)
  | Shutdown
  | ShutdownClosed                          (* Promise.all(closePromises) settles *)
  | SetProbe (b : Browser) (s : Probe).     (* the browser process changes state *)

(** Recording how a segment of the call with promise [p] ended. *)
Definition finish (p : nat) (r : World * Outcome) : World :=
  match r.2 with
  | Returned b => settle p (Fulfilled b) r.1
  | Threw message => settle p (Rejected message) r.1
  | Suspended a => with_awaiting (insert p a) r.1
  | Parked => r.1
  end.

Definition step (w : World) (e : Event) : World :=
  match e with
  | Acquire =>
    let p := nextPromise w in
    finish p (acquireBrowser p 0 (fresh_promise w))
  | Created p b =>
    match awaiting w !! p with
    | Some (AwaitCreate retryCount) =>
      finish p (after_create retryCount (inl b) (with_awaiting (delete p) w))
    | _ => w
    end
  | CreateFailed p message =>
    match awaiting w !! p with
    | Some (AwaitCreate retryCount) =>
      finish p (after_create retryCount (inr message) (with_awaiting (delete p) w))
    | _ => w
    end
  | DelayElapsed p =>
    match awaiting w !! p with
    | Some (AwaitDelay _ retryCount) =>
      finish p (after_delay p retryCount (with_awaiting (delete p) w))
    | _ => w
    end
  | TimerFired p =>
    if decide (p ∈ timers w)
    then acquire_timeout p (with_timers (fun t => t ∖ {[p]}) w)
    else w
  | Release b => releaseBrowser b w
  | Shutdown => shutdown w
  | ShutdownClosed =>
    match closing w with
    | O => w
    | S _ => shutdown_finish w
    end
  | SetProbe b s => with_probes (insert b s) w
  end.

Definition run (events : list Event) (w : World) : World := foldl step w events.

(** A call is parked or suspended, never both, and its promise number has
    been handed out. *)
Definition parked_apart (w : World) : Prop :=
  (forall p, Notify p ∈ waitingQueue (pool w) ->
             awaiting w !! p = None /\ (p < nextPromise w)%nat)
  /\ (forall p, is_Some (awaiting w !! p) -> (p < nextPromise w)%nat).

(** *** [createBrowser] and a caller alone with the pool

    [launch k] is what the [k]-th execution of the [try] block of
    [createBrowser] does: it yields a browser or throws with a message. *)
Definition createMaxRetries : Z := 3.
Definition baseDelay : Z := 2000.

Fixpoint createBrowser_from (fuel : nat) (launch : nat -> Browser + string)
    (k : nat) (retryCount : Z) : option ((Browser + string) * list Z * nat) :=
  match fuel with
  | O => None
  | S fuel' =>
    match launch k with
    | inl browser => Some (inl browser, [], S k)
    | inr message =>
      if retryCount <? createMaxRetries then
        let delay := baseDelay * 2 ^ retryCount in
        match createBrowser_from fuel' launch (S k) (retryCount + 1) with
        | Some (r, slept, k') => Some (r, delay :: slept, k')
        | None => None
        end
      else Some (inr (createFailedPrefix +:+ message), [], S k)
    end
  end.

(** [createBrowser()]: result, delays slept between attempts, and the index
    of the next launch. *)
Definition createBrowser (launch : nat -> Browser + string) (k : nat)
  : option ((Browser + string) * list Z * nat) :=
  createBrowser_from 4 launch k 0.

(** What one caller observes. *)
Record Observed := mkObserved {
  final : World;
  outcome : Outcome;
  slept : list Z;       (* every delay, in order *)
  launched : nat        (* launches performed *)
}.

(** A call of [acquireBrowser()] with promise [p] driven to its end while
    nothing else happens: each suspended segment is resumed in turn. *)
Fixpoint acquire_alone_from (fuel : nat) (launch : nat -> Browser + string)
    (p : nat) (k : nat) (zs : list Z) (st : World * Outcome) : option Observed :=
  match fuel with
  | O => None
  | S fuel' =>
    match st.2 with
    | Suspended (AwaitCreate retryCount) =>
      match createBrowser launch k with
      | Some (r, ds, k') =>
        acquire_alone_from fuel' launch p k' (zs ++ ds) (after_create retryCount r st.1)
      | None => None
      end
    | Suspended (AwaitDelay ms retryCount) =>
      acquire_alone_from fuel' launch p k (zs ++ [ms]) (after_delay p retryCount st.1)
    | out => Some (mkObserved st.1 out zs k)
    end
  end.

Definition acquire_alone (fuel : nat) (launch : nat -> Browser + string)
    (p : nat) (w : World) : option Observed :=
  acquire_alone_from fuel launch p 0 [] (acquireBrowser p 0 w).

End BrowserPool.

(** ** class RequestQueue *)

Module RequestQueue.
Import JsArray.

(** How the promise of a handler, or the promise returned by [addRequest],
    is settled. *)
Inductive Result :=
  | Value (v : nat)
  | Error (message : string).

(** The fields set by the constructor.  A queued object
    [{ handler, resolve, reject }] is named by the number of the
    [addRequest] call that built it. *)
Record Queue := mkQueue {
  maxConcurrent : Z;
  running : Z;
  queue : list nat
}.

Record World := mkWorld {
  rq : Queue;
  dispatched : list nat;        (* handlers called, in call order *)
  inFlight : list nat;          (* handlers called whose promise is pending *)
  settled : gmap nat Result;    (* settled addRequest promises *)
  nextRequest : nat
}.

Definition new (limit : Z) : World :=
  mkWorld (mkQueue limit 0 []) [] [] ∅ 0%nat.

(** [processQueue] up to [await handler()]. *)
Definition processQueue (w : World) : World :=
  if (running (rq w) >=? maxConcurrent (rq w))
     || bool_decide (length (queue (rq w)) = 0%nat)
  then w
  else
    match queue (rq w) with
    | [] => w
    | t :: rest =>
      mkWorld (mkQueue (maxConcurrent (rq w)) (running (rq w) + 1) rest)
              (push t (dispatched w)) (push t (inFlight w))
              (settled w) (nextRequest w)
    end.

(** [addRequest(handler)]. *)
Definition addRequest (w : World) : World :=
  let t := nextRequest w in
  processQueue
    (mkWorld (mkQueue (maxConcurrent (rq w)) (running (rq w)) (push t (queue (rq w))))
             (dispatched w) (inFlight w) (settled w) (S t)).

(** [processQueue] after [await handler()]: [resolve] or [reject], then the
    [finally] block. *)
Definition handlerSettled (t : nat) (r : Result) (w : World) : World :=
  let promises :=
    match settled w !! t with
    | Some _ => settled w
    | None => <[t := r]> (settled w)
    end in
  processQueue
    (mkWorld (mkQueue (maxConcurrent (rq w)) (running (rq w) - 1) (queue (rq w)))
             (dispatched w) (removeFirst t (inFlight w)) promises (nextRequest w)).

Inductive Event :=
  | AddRequest
  | HandlerSettled (t : nat) (r : Result).

(** A handler can only settle while it is in flight. *)
Definition step (w : World) (e : Event) : World :=
  match e with
  | AddRequest => addRequest w
  | HandlerSettled t r =>
    if bool_decide (t ∈ inFlight w) then handlerSettled t r w else w
  end.

Definition run (events : list Event) (w : World) : World := foldl step w events.

(** The bookkeeping that every run keeps. *)
Definition consistent (w : World) : Prop :=
  running (rq w) = Z.of_nat (length (inFlight w))
  /\ running (rq w) <= maxConcurrent (rq w)
  /\ dispatched w ++ queue (rq w) = seq 0 (nextRequest w)
  /\ NoDup (inFlight w)
  /\ (forall t, t ∈ inFlight w -> t ∈ dispatched w /\ settled w !! t = None)
  /\ (forall t, is_Some (settled w !! t) -> t ∈ dispatched w).

End RequestQueue.

(** ** class SimpleCache *)

Module SimpleCache.
Section Cache.
Context {V : Type}.

(** The object [{ value, expiresAt }]. *)
Record Item := mkItem {
  value : V;
  expiresAt : Z
}.

Record Cache := mkCache {
  cache : gmap string Item;
  ttl : Z
}.

Definition new (t : Z) : Cache := mkCache ∅ t.

(** [set(key, value)] when [Date.now()] is [now]. *)
Definition set (now : Z) (key : string) (v : V) (c : Cache) : Cache :=
  let expiresAt := now + ttl c in
  mkCache (<[key := mkItem v expiresAt]> (cache c)) (ttl c).

(** [get(key)] when [Date.now()] is [now]; [None] is [null]. *)
Definition get (now : Z) (key : string) (c : Cache) : option V * Cache :=
  match cache c !! key with
  | None => (None, c)
  | Some item =>
    if now >? expiresAt item
    then (None, mkCache (delete key (cache c)) (ttl c))
    else (Some (value item), c)
  end.

Definition clear (c : Cache) : Cache := mkCache ∅ (ttl c).

(** [size()]: drops every expired item, then counts. *)
Definition size (now : Z) (c : Cache) : nat * Cache :=
  let live := filter (fun kv => ¬ (now > expiresAt kv.2)) (cache c) in
  (base.size live, mkCache live (ttl c)).

End Cache.
Arguments Item : clear implicits.
Arguments Cache : clear implicits.
End SimpleCache.

(** ** The cache key of [GET /screenshot] *)

Module Screenshot.

(** The query parameters read for the key: each is a string or is absent. *)
Record Query := mkQuery {
  url : string;
  width : option string;
  height : option string;
  fullPage : option string;
  type : option string
}.

(** [x || d] for a parameter [x]: absent and the empty string are falsy. *)
Definition orElse (x : option string) (d : string) : string :=
  match x with
  | Some s => if bool_decide (s = "") then d else s
  | None => d
  end.

(** [req.query.fullPage !== "false"], as the template literal prints it. *)
Definition fullPageFlag (x : option string) : string :=
  if bool_decide (x = Some "false") then "false" else "true".

(** The template literal passed to [update]. *)
Definition fingerprint (q : Query) : string :=
  url q +:+ "_" +:+ orElse (width q) "1920" +:+ "_" +:+ orElse (height q) "1080"
        +:+ "_" +:+ fullPageFlag (fullPage q) +:+ "_" +:+ orElse (type q) "png".

Section Route.
(** [crypto.createHash("md5").update(s).digest("hex")]. *)
Variable md5 : string -> string.
Context {V : Type}.

Definition cacheKey (q : Query) : string := md5 (fingerprint q).

(** [cache.get(cacheKey)] at the top of the route: a hit is sent as it is. *)
Definition cachedResult (now : Z) (q : Query) (c : SimpleCache.Cache V)
  : option V * SimpleCache.Cache V :=
  SimpleCache.get now (cacheKey q) c.

(** [cache.set(cacheKey, { buffer, contentType })] after the capture. *)
Definition cacheRendered (now : Z) (q : Query) (rendered : V)
    (c : SimpleCache.Cache V) : SimpleCache.Cache V :=
  SimpleCache.set now (cacheKey q) rendered c.

End Route.
End Screenshot.

(** ** The page-load waiting functions *)

Module PageLoad.

(** What the functions do that can be seen from outside. *)
Inductive Action :=
  | Banner (step : nat)        (* console.log of the line that announces a step *)
  | Log (text : string)        (* any other console.log, without the pictograph
                                  that starts some of the texts *)
  | Sleep (ms : Z)             (* await new Promise(r => setTimeout(r, ms)), ms a literal *)
  | SleepFor (ms : Q)          (* the same with a computed delay, passed as it is *)
  | Click (selector : string)
  | ScrollBy (scrollStep : float) (* window.scrollBy(0, scrollStep) *)
  | ScrollTop.                 (* window.scrollTo(0, 0) *)

(** A computation has emitted some actions and then returned, thrown, or is
    still running when the fuel is spent. *)
Inductive Res (A : Type) :=
  | Val (a : A) (trace : list Action)
  | Exc (message : string) (trace : list Action)
  | Running (trace : list Action).
Arguments Val {A}.
Arguments Exc {A}.
Arguments Running {A}.

Definition after {A} (pre : list Action) (r : Res A) : Res A :=
  match r with
  | Val a tr => Val a (pre ++ tr)
  | Exc m tr => Exc m (pre ++ tr)
  | Running tr => Running (pre ++ tr)
  end.

Definition bind {A B} (m : Res A) (f : A -> Res B) : Res B :=
  match m with
  | Val a tr => after tr (f a)
  | Exc message tr => Exc message tr
  | Running tr => Running tr
  end.

Definition emit (a : Action) : Res unit := Val tt [a].
Definition throw {A} (message : string) : Res A := Exc message [].

(** [try { m } catch (error) { handler(error.message) }]. *)
Definition try_catch {A} (m : Res A) (handler : string -> Res A) : Res A :=
  match m with
  | Val a tr => Val a tr
  | Exc message tr => after tr (handler message)
  | Running tr => Running tr
  end.

Notation "x <- m ;; k" := (bind m (fun x => k))
  (at level 100, m at next level, right associativity).
Notation "m ;;; k" := (bind m (fun _ => k))
  (at level 100, right associativity).

(** An awaited call to the page: it resolves or it rejects. *)
Inductive Reply (A : Type) :=
  | Resolves (a : A)
  | Throws (message : string).
Arguments Resolves {A}.
Arguments Throws {A}.

Definition await {A} (r : Reply A) : Res A :=
  match r with
  | Resolves a => Val a []
  | Throws message => throw message
  end.

(** What the loop body of [dismissCookieConsent] meets for one selector. *)
Inductive CookieProbe :=
  | QueryThrows (message : string)     (* page.$ rejects *)
  | NoButton                           (* page.$ gives null *)
  | VisibilityThrows (message : string)
  | Hidden
  | ClickThrows (message : string)
  | Clickable.

(** The page as the functions see it. *)
Record Page := mkPage {
  domComplete : Reply unit;        (* waitForFunction(readyState === "complete") *)
  mainContent : Reply unit;        (* waitForFunction(innerText.length > 50) *)
  cookie : string -> CookieProbe;
  networkIdle : Reply unit;        (* page.waitForLoadState("networkidle") *)
  contentLength : nat -> Reply Z;  (* the i-th evaluate of innerHTML.length *)
  body : Reply unit;               (* document.body: an element, or null and then
                                      the evaluate that reads it rejects *)
  scrollHeight : float;            (* document.body.scrollHeight *)
  innerHeight : float;             (* window.innerHeight *)
  imagesLoaded : Reply unit;
  iframesLoaded : Reply unit;
  criticalContent : Reply unit
}.

(** The selectors, written without their inner quotation marks. *)
Definition cookieSelectors : list string :=
  [ "[data-testid=cookie-accept]"; "[data-testid=accept-cookies]";
    ".cookie-accept"; ".accept-cookies"; ".gdpr-accept"; ".consent-accept";
    "#accept-cookies"; ".cookie-consent-accept"; ".fc-consent-root";
    "#cookie-consent" ].

(** The [for] loop of [dismissCookieConsent]: the inner [catch] continues
    with the next selector, a click ends the loop. *)
Fixpoint dismiss_loop (page : Page) (selectors : list string) : Res unit :=
  match selectors with
  | [] => Val tt []
  | selector :: rest =>
    match cookie page selector with
    | Clickable => emit (Click selector) ;;; emit (Sleep 500)
    | QueryThrows _ | VisibilityThrows _ | ClickThrows _ => dismiss_loop page rest
    | NoButton | Hidden => dismiss_loop page rest
    end
  end.

Definition dismissCookieConsent (page : Page) : Res unit :=
  try_catch (dismiss_loop page cookieSelectors)
            (fun message => emit (Log ("Cookie handling failed: " +:+ message))).

Definition maxChecks : nat := 8.

(** The [for] loop of [waitForContentStability], [n] iterations from index
    [i].  [previousContent] starts as the empty string, which no sample
    equals: [None]. *)
Fixpoint stability_loop (page : Page) (checkInterval : Q) (n i : nat)
    (previousContent : option Z) (stableCount : Z) : Res unit :=
  match n with
  | O => Val tt []
  | S n' =>
    currentContent <- await (contentLength page i) ;;
    let continue stable :=
      emit (SleepFor checkInterval) ;;;
      stability_loop page checkInterval n' (S i) (Some currentContent) stable in
    if bool_decide (Some currentContent = previousContent) && (currentContent >? 0) then
      if stableCount + 1 >=? 3 then emit (Log "DOM content stabilized")
      else continue (stableCount + 1)
    else continue 0
  end.

(** [Math.min(timeout / maxChecks, 1000)] for a whole number of
    milliseconds: the quotient by 8 is exact, in doubles as it is here, and
    it is not rounded before it is passed to [setTimeout]. *)
Definition checkInterval (timeout : Z) : Q :=
  let quotient := (inject_Z timeout / inject_Z (Z.of_nat maxChecks))%Q in
  if Qle_bool quotient 1000 then quotient else 1000%Q.

Definition waitForContentStability (page : Page) (timeout : Z) : Res unit :=
  try_catch (stability_loop page (checkInterval timeout) maxChecks 0 None 0)
            (fun message => emit (Log ("Content stability check failed: " +:+ message))).

(** The [while] loop that [triggerLazyLoading] runs inside the page, on
    JavaScript numbers: binary64 doubles, with the literal [0.8] read as the
    nearest double, as JavaScript reads it. *)
#[local] Set Warnings "-inexact-float".
Fixpoint scroll_loop (fuel : nat) (scrollHeight viewportHeight currentPosition : float)
  : Res unit :=
  let scrollStep := (viewportHeight * 0.8)%float in
  if (currentPosition <? scrollHeight - viewportHeight)%float then
    match fuel with
    | O => Running []
    | S fuel' =>
      emit (ScrollBy scrollStep) ;;;
      emit (Sleep 800) ;;;
      scroll_loop fuel' scrollHeight viewportHeight (currentPosition + scrollStep)%float
    end
  else Val tt [].
#[local] Set Warnings "+inexact-float".

Definition triggerLazyLoading (fuel : nat) (page : Page) : Res unit :=
  try_catch
    (await (body page) ;;;
     scroll_loop fuel (scrollHeight page) (innerHeight page) 0 ;;;
     emit ScrollTop ;;;
     emit (Sleep 1000))
    (fun message => emit (Log ("Lazy loading trigger failed: " +:+ message))).

Definition waitForCriticalContent (page : Page) : Res unit :=
  try_catch (await (criticalContent page) ;;; emit (Log "Critical content detected"))
            (fun message => emit (Log ("Critical content check failed: " +:+ message))).

Definition CONTENT_STABILITY_TIMEOUT : Z := 15000.

(** [waitForPageLoad].  Steps 1 and 2 are awaited directly inside the outer
    [try]; the other steps catch their own failures. *)
Definition waitForPageLoad (fuel : nat) (page : Page) : Res unit :=
  try_catch
    (emit (Log "Waiting for complete page load...") ;;;
     emit (Banner 1) ;;; await (domComplete page) ;;;
     emit (Banner 2) ;;; await (mainContent page) ;;;
     emit (Banner 3) ;;; dismissCookieConsent page ;;;
     emit (Banner 4) ;;;
     try_catch (await (networkIdle page))
               (fun _ => emit (Log "Network not idle but proceeding...")) ;;;
     emit (Banner 5) ;;; waitForContentStability page CONTENT_STABILITY_TIMEOUT ;;;
     emit (Banner 6) ;;; triggerLazyLoading fuel page ;;;
     emit (Banner 7) ;;;
     try_catch (await (imagesLoaded page))
               (fun _ => emit (Log "Some images may not load but proceeding")) ;;;
     emit (Banner 8) ;;;
     try_catch (await (iframesLoaded page))
               (fun _ => emit (Log "Some iframes may not load but proceeding")) ;;;
     emit (Banner 9) ;;; emit (Sleep 2000) ;;;
     emit (Banner 10) ;;; waitForCriticalContent page ;;;
     emit (Log "Page loaded completely!"))
    (fun message =>
       emit (Log ("Page load timeout for some parts but proceeding: " +:+ message))).

(** The steps announced in a trace, in order. *)
Definition announced (tr : list Action) : list nat :=
  omap (fun a => match a with Banner n => Some n | _ => None end) tr.

Definition trace_of {A} (r : Res A) : list Action :=
  match r with
  | Val _ tr => tr
  | Exc _ tr => tr
  | Running tr => tr
  end.

(** The number of [window.scrollBy] calls in a trace. *)
Definition scrolls (tr : list Action) : nat :=
  length (omap (fun a => match a with ScrollBy z => Some z | _ => None end) tr).

End PageLoad.

(** ** Inputs used in the examples *)

Module Scenarios.

(** A request for the page [/a_800] at width 600 ... *)
Definition narrow_request : Screenshot.Query :=
  Screenshot.mkQuery "https://example.com/a_800" (Some "600") None None None.

(** ... and one for the page [/a] whose width parameter is "800_600", which
    [parseInt] reads as 800. *)
Definition wide_request : Screenshot.Query :=
  Screenshot.mkQuery "https://example.com/a" (Some "800_600") None None None.

(** A page on which every wait succeeds: 3000 px of content behind a
    1080 px viewport, the same content length at every sample. *)
Definition settled_page : PageLoad.Page :=
  PageLoad.mkPage (PageLoad.Resolves tt) (PageLoad.Resolves tt)
    (fun _ => PageLoad.NoButton) (PageLoad.Resolves tt)
    (fun _ => PageLoad.Resolves 500) (PageLoad.Resolves tt) 3000 1080
    (PageLoad.Resolves tt) (PageLoad.Resolves tt) (PageLoad.Resolves tt).

(** The same page, except that [readyState] does not reach "complete" within
    30% of the budget. *)
Definition slow_dom_page : PageLoad.Page :=
  PageLoad.mkPage (PageLoad.Throws "Waiting failed: 18000ms exceeded") (PageLoad.Resolves tt)
    (fun _ => PageLoad.NoButton) (PageLoad.Resolves tt)
    (fun _ => PageLoad.Resolves 500) (PageLoad.Resolves tt) 3000 1080
    (PageLoad.Resolves tt) (PageLoad.Resolves tt) (PageLoad.Resolves tt).

(** A page that reports [window.innerHeight] as 0 and a scroll height of
    100. *)
Definition zero_viewport_page : PageLoad.Page :=
  PageLoad.mkPage (PageLoad.Resolves tt) (PageLoad.Resolves tt)
    (fun _ => PageLoad.NoButton) (PageLoad.Resolves tt)
    (fun _ => PageLoad.Resolves 500) (PageLoad.Resolves tt) 100 0
    (PageLoad.Resolves tt) (PageLoad.Resolves tt) (PageLoad.Resolves tt).

End Scenarios.

(** ** The timers of Node *)

Module NodeTimers.

(** The longest delay a timer takes: [2^31 - 1] ms. *)
Definition TIMEOUT_MAX : Z := 2147483647.


(** The same for a whole number of milliseconds. *)
Definition appliedZ (after : Z) : Z :=
  if (1 <=? after) && (after <=? TIMEOUT_MAX) then after else 1.

End NodeTimers.

(** ** class MemoryMonitor *)

Module MemoryMonitor.

Record Monitor := mkMonitor {
  threshold : Z;
  lastGC : Z
}.

(** [constructor(threshold)] when [Date.now()] is [now]. *)
Definition new (limit now : Z) : Monitor := mkMonitor limit now.

(** [shouldGC()] when [process.memoryUsage().heapUsed] is [heapUsed] and
    [Date.now()] is [now]. *)
Definition shouldGC (heapUsed now : Z) (m : Monitor) : bool :=
  let shouldGC := heapUsed >? threshold m in
  let timeSinceLastGC := now - lastGC m in
  shouldGC && (timeSinceLastGC >? 30000).

(** [forceGC()]: [gc] tells whether [global.gc] is defined; the result says
    whether a collection was run. *)
Definition forceGC (gc : bool) (now : Z) (m : Monitor) : Monitor * bool :=
  if gc then (mkMonitor (threshold m) now, true) else (m, false).

(** The check at the top of the [/screenshot] route:
    [if (memoryMonitor.shouldGC()) memoryMonitor.forceGC()], the clock being
    read at [now] by the first call and at [now'] by the second. *)
Definition checkMemory (gc : bool) (heapUsed now now' : Z) (m : Monitor)
  : Monitor * bool :=
  if shouldGC heapUsed now m then forceGC gc now' m else (m, false).

End MemoryMonitor.

(** ** Statistics *)

Module Stats.

(** [RequestQueue.getStats()]. *)
Record QueueStats := mkQueueStats {
  running : Z;
  queued : nat;
  maxConcurrent : Z
}.

Definition queueStats (w : RequestQueue.World) : QueueStats :=
  mkQueueStats (RequestQueue.running (RequestQueue.rq w))
               (length (RequestQueue.queue (RequestQueue.rq w)))
               (RequestQueue.maxConcurrent (RequestQueue.rq w)).

(** [BrowserPool.getStats()]. *)
Record PoolStats := mkPoolStats {
  total : nat;
  available : nat;
  waiting : nat;
  poolSize : Z
}.

Definition poolStats (w : BrowserPool.World) : PoolStats :=
  mkPoolStats (length (BrowserPool.browsers (BrowserPool.pool w)))
              (length (BrowserPool.availableBrowsers (BrowserPool.pool w)))
              (length (BrowserPool.waitingQueue (BrowserPool.pool w)))
              (BrowserPool.poolSize (BrowserPool.pool w)).

End Stats.

(** ** Bookkeeping of the request queue *)

Module Ledger.
Import RequestQueue.

(** Every request added so far is queued, in flight or settled, and requests
    wait only while all slots are taken. *)
Definition accounted (w : World) : Prop :=
  dispatched w ++ queue (rq w) = seq 0 (nextRequest w)
  /\ NoDup (inFlight w)
  /\ (forall t, t ∈ inFlight w -> t ∈ dispatched w /\ settled w !! t = None)
  /\ (forall t, is_Some (settled w !! t) -> t ∈ dispatched w)
  /\ (forall t, t ∈ dispatched w -> t ∈ inFlight w \/ is_Some (settled w !! t))
  /\ (queue (rq w) <> [] -> maxConcurrent (rq w) <= running (rq w)).

End Ledger.

(** ** Reading traces and keys *)

Module Reading.

(** The milliseconds a trace asks for in [setTimeout] delays that are
    literals. *)
Fixpoint sleep_total (tr : list PageLoad.Action) : Z :=
  match tr with
  | [] => 0
  | PageLoad.Sleep ms :: tr' => ms + sleep_total tr'
  | _ :: tr' => sleep_total tr'
  end.



(** [scrollStep] and the bound of the loop of [triggerLazyLoading], and the
    value of [currentPosition] after [j] passes that started at
    [currentPosition]. *)
#[local] Set Warnings "-inexact-float".
Definition scrollStep (page : PageLoad.Page) : float :=
  (PageLoad.innerHeight page * 0.8)%float.
#[local] Set Warnings "+inexact-float".

Definition bottom (page : PageLoad.Page) : float :=
  (PageLoad.scrollHeight page - PageLoad.innerHeight page)%float.

Fixpoint position (scrollStep currentPosition : float) (j : nat) : float :=
  match j with
  | O => currentPosition
  | S j' => position scrollStep (currentPosition + scrollStep)%float j'
  end.

(** A page of 9984 px behind a viewport of 768 px, every wait succeeding. *)
Definition tall_page : PageLoad.Page :=
  PageLoad.mkPage (PageLoad.Resolves tt) (PageLoad.Resolves tt)
    (fun _ => PageLoad.NoButton) (PageLoad.Resolves tt)
    (fun _ => PageLoad.Resolves 500) (PageLoad.Resolves tt) 9984 768
    (PageLoad.Resolves tt) (PageLoad.Resolves tt) (PageLoad.Resolves tt).

(** The selectors clicked in a trace, in order. *)
Definition clicks (tr : list PageLoad.Action) : list string :=
  omap (fun a => match a with PageLoad.Click s => Some s | _ => None end) tr.

(** The character "_" (code 95). *)
Definition underscore : Ascii.ascii := Ascii.ascii_of_nat 95.

(** Whether a string contains the separator of the cache key. *)
Fixpoint has_underscore (s : string) : bool :=
  match s with
  | EmptyString => false
  | String c s' => Ascii.eqb c underscore || has_underscore s'
  end.

(** The separator of the template literal of the cache key. *)
Definition separator : string := String underscore EmptyString.

(** The width, height and type that go into the key hold no separator. *)
Definition plain_fields (q : Screenshot.Query) : bool :=
  negb (has_underscore (Screenshot.orElse (Screenshot.width q) "1920")
        || has_underscore (Screenshot.orElse (Screenshot.height q) "1080")
        || has_underscore (Screenshot.orElse (Screenshot.type q) "png")).

(** The total of a list of delays. *)
Definition total (zs : list Z) : Z := foldr Z.add 0 zs.

End Reading.


(** ** The idle timer: [scheduleCleanup], [cancelCleanup] *)

Module IdleTimer.

(** The globals [lastActivity] and [idleTimeout], the timers that are set and
    have neither fired nor been cleared (handle and earliest firing time),
    the clock read by [Date.now()], and the times at which the timer
    callback found the service idle and began the cleanup (shutdown of the
    pool, then [cache.clear()]). *)
Record State := mkState {
  now : Z;
  lastActivity : Z;
  idleTimeout : option nat;       (* None: undefined or null *)
  pending : gmap nat Z;
  nextTimer : nat;
  cleanups : list Z
}.

(** The module has just been loaded at time [t]. *)
Definition blank (t : Z) : State := mkState t t None ∅ 0 [].

(** [clearTimeout(h)]: nothing happens for a timer that has fired. *)
Definition clearTimeout (h : nat) (s : State) : State :=
  mkState (now s) (lastActivity s) (idleTimeout s) (delete h (pending s))
          (nextTimer s) (cleanups s).

Section Config.
Variable IDLE_TIMEOUT : Z.

(** [setTimeout(callback, CONFIG.IDLE_TIMEOUT)] arms the timer for the delay
    that Node applies. *)
Definition scheduleCleanup (s : State) : State :=
  let s1 := match idleTimeout s with
            | Some h => clearTimeout h s
            | None => s
            end in
  mkState (now s1) (lastActivity s1) (Some (nextTimer s1))
          (<[nextTimer s1 := now s1 + NodeTimers.appliedZ IDLE_TIMEOUT]> (pending s1))
          (S (nextTimer s1)) (cleanups s1).

Definition cancelCleanup (s : State) : State :=
  match idleTimeout s with
  | Some h =>
    let s1 := clearTimeout h s in
    mkState (now s1) (lastActivity s1) None (pending s1) (nextTimer s1) (cleanups s1)
  | None => s
  end.

(** The callback passed to [setTimeout], up to its [await]. *)
Definition cleanupCallback (s : State) : State :=
  if now s - lastActivity s >=? IDLE_TIMEOUT then
    mkState (now s) (lastActivity s) (idleTimeout s) (pending s) (nextTimer s)
            (now s :: cleanups s)
  else s.

(** The timer [h] fires: only a pending timer does, and not before its
    delay is over. *)
Definition timerFires (h : nat) (s : State) : State :=
  match pending s !! h with
  | Some due =>
    if due <=? now s then cleanupCallback (clearTimeout h s) else s
  | None => s
  end.

(** The first statements of the [/screenshot] route. *)
Definition requestBegins (s : State) : State :=
  mkState (now s) (now s) (idleTimeout s) (pending s) (nextTimer s) (cleanups s).

(** The end of the [finally] block of the queued handler. *)
Definition requestEnds (s : State) : State := scheduleCleanup (cancelCleanup s).

Inductive Event :=
  | Elapse (ms : N)        (* the clock advances *)
  | Begin                  (* a request enters the /screenshot route *)
  | Finish                 (* a queued handler reaches the end of its finally *)
  | Schedule               (* scheduleCleanup() alone, as after app.listen *)
  | Cancel                 (* cancelCleanup() alone, as in gracefulShutdown *)
  | Fire (h : nat).

Definition step (s : State) (e : Event) : State :=
  match e with
  | Elapse ms =>
    mkState (now s + Z.of_N ms) (lastActivity s) (idleTimeout s) (pending s)
            (nextTimer s) (cleanups s)
  | Begin => requestBegins s
  | Finish => requestEnds s
  | Schedule => scheduleCleanup s
  | Cancel => cancelCleanup s
  | Fire h => timerFires h s
  end.

Definition run (events : list Event) (s : State) : State := foldl step s events.

(** At most the timer held in [idleTimeout] is pending. *)
Definition single (s : State) : Prop :=
  pending s = ∅
  \/ exists h due, idleTimeout s = Some h /\ pending s = {[h := due]}.

(** The clock never runs backwards and [lastActivity] follows it. *)
Definition since (T : Z) (s : State) : Prop :=
  T <= lastActivity s /\ lastActivity s <= now s.

(** Every pending timer was set at [T] or later. *)
Definition armed_after (T : Z) (s : State) : Prop :=
  T <= now s
  /\ forall h due, pending s !! h = Some due ->
       T + NodeTimers.appliedZ IDLE_TIMEOUT <= due.

(** An event at which a request begins or the timer is set. *)
Definition marks (e : Event) : bool :=
  match e with
  | Begin | Finish | Schedule => true
  | _ => false
  end.

End Config.
End IdleTimer.
(** * Facts *)

(** ** Arrays *)

Module JsArrayFacts.
Import JsArray.

Lemma splice1_length {A} (i : nat) (l : list A) :
  (length (splice1 i l) <= length l)%nat.
Proof.
  unfold splice1. rewrite length_app, length_take, length_drop. lia.
Qed.

Lemma removeFirst_length {A} `{EqDecision A} (x : A) (l : list A) :
  (length (removeFirst x l) <= length l)%nat.
Proof.
  unfold removeFirst. destruct (indexOf x l); [apply splice1_length | lia].
Qed.

Lemma pop_length {A} (l : list A) x rest :
  pop l = Some (x, rest) -> (length rest < length l)%nat.
Proof.
  unfold pop. destruct (last l) eqn:E; [|done].
  intros [= <- <-]. rewrite length_take.
  destruct l; [done | simpl; lia].
Qed.

Lemma indexOf_None {A} `{EqDecision A} (x : A) (l : list A) :
  x ∉ l -> indexOf x l = None.
Proof.
  induction l as [|y l IH]; [done|].
  intros Hn. simpl. destruct (decide (y = x)) as [->|].
  - exfalso. apply Hn. left.
  - rewrite IH; [done|]. intros ?. apply Hn. by right.
Qed.

Lemma removeFirst_cons {A} `{EqDecision A} (x y : A) (l : list A) :
  removeFirst x (y :: l) = if decide (y = x) then l else y :: removeFirst x l.
Proof.
  unfold removeFirst. simpl. destruct (decide (y = x)); [done|].
  destruct (indexOf x l); done.
Qed.

Lemma removeFirst_subseteq {A} `{EqDecision A} (x : A) (l : list A) :
  removeFirst x l ⊆ l.
Proof.
  induction l as [|y l IH]; [done|].
  rewrite removeFirst_cons. destruct (decide (y = x)).
  - intros z Hz. by right.
  - intros z Hz. apply elem_of_cons in Hz as [->|Hz]; [left | right; by apply IH].
Qed.

Lemma removeFirst_NoDup {A} `{EqDecision A} (x : A) (l : list A) :
  NoDup l -> x ∉ removeFirst x l.
Proof.
  induction l as [|y l IH]; [intros _; unfold removeFirst; simpl; set_solver|].
  intros Hnd. apply NoDup_cons in Hnd as [Hy Hl].
  rewrite removeFirst_cons. destruct (decide (y = x)) as [->|Hne]; [done|].
  apply not_elem_of_cons. split; [congruence | by apply IH].
Qed.

Lemma removeFirst_elem {A} `{EqDecision A} (x y : A) (l : list A) :
  NoDup l -> y ∈ removeFirst x l <-> y ∈ l /\ y <> x.
Proof.
  induction l as [|z l IH]; intros Hnd.
  - unfold removeFirst. simpl. split; [by intros ?%elem_of_nil | by intros [?%elem_of_nil _]].
  - apply NoDup_cons in Hnd as [Hz Hl]. rewrite removeFirst_cons.
    destruct (decide (z = x)) as [->|Hne].
    + rewrite elem_of_cons. split.
      * intros Hy. split; [by right | congruence].
      * intros [[->|Hy] Hne]; done.
    + rewrite !elem_of_cons, (IH Hl). split.
      * intros [->|[Hy Hyx]]; [split; [by left | done] | split; [by right | done]].
      * intros [[->|Hy] Hyx]; [by left | by right].
Qed.

Lemma removeFirst_keeps_NoDup {A} `{EqDecision A} (x : A) (l : list A) :
  NoDup l -> NoDup (removeFirst x l).
Proof.
  induction l as [|z l IH]; intros Hnd; [done|].
  apply NoDup_cons in Hnd as [Hz Hl]. rewrite removeFirst_cons.
  destruct (decide (z = x)); [done|].
  apply NoDup_cons. split; [|by apply IH].
  intros Hin. apply Hz. by apply (removeFirst_subseteq x l).
Qed.

Lemma removeFirst_length_elem {A} `{EqDecision A} (x : A) (l : list A) :
  x ∈ l -> S (length (removeFirst x l)) = length l.
Proof.
  induction l as [|z l IH]; [by intros ?%elem_of_nil|].
  rewrite removeFirst_cons. intros Hin.
  destruct (decide (z = x)) as [->|Hne]; [done|].
  simpl. f_equal. apply IH. apply elem_of_cons in Hin as [?|?]; [congruence|done].
Qed.

End JsArrayFacts.

(** ** BrowserPool *)

Module PoolFacts.
Import JsArray JsArrayFacts BrowserPool.

(** *** What each segment leaves alone *)

Lemma isBrowserHealthy_probes w1 w2 b :
  probes w1 = probes w2 -> isBrowserHealthy w1 b = isBrowserHealthy w2 b.
Proof. unfold isBrowserHealthy, probe. by intros ->. Qed.

Lemma removeBrowser_frame b w :
  probes (removeBrowser b w) = probes w
  /\ promises (removeBrowser b w) = promises w
  /\ awaiting (removeBrowser b w) = awaiting w
  /\ timers (removeBrowser b w) = timers w
  /\ isShuttingDown (pool (removeBrowser b w)) = isShuttingDown (pool w)
  /\ waitingQueue (pool (removeBrowser b w)) = waitingQueue (pool w)
  /\ poolSize (pool (removeBrowser b w)) = poolSize (pool w)
  /\ browsers (pool (removeBrowser b w)) = removeFirst b (browsers (pool w))
  /\ availableBrowsers (pool (removeBrowser b w))
     = removeFirst b (availableBrowsers (pool w)).
Proof. unfold removeBrowser. by destruct (probe _ b). Qed.

Lemma settle_frame p x w :
  pool (settle p x w) = pool w
  /\ probes (settle p x w) = probes w
  /\ awaiting (settle p x w) = awaiting w
  /\ timers (settle p x w) = timers w.
Proof. unfold settle. by destruct (promises w !! p). Qed.

(** A settlement that shows up on a pending promise is the one just made. *)
Lemma settle_lookup p x w p0 y :
  promises w !! p0 = None ->
  promises (settle p x w) !! p0 = Some y ->
  p0 = p /\ y = x.
Proof.
  unfold settle. intros Hp0. destruct (promises w !! p) eqn:Hp; simpl.
  - congruence.
  - destruct (decide (p = p0)) as [->|Hne].
    + rewrite lookup_insert_eq. by intros [= ->].
    + rewrite lookup_insert_ne by done. congruence.
Qed.

Lemma settle_keeps p x w p0 y :
  promises w !! p0 = Some y -> promises (settle p x w) !! p0 = Some y.
Proof.
  unfold settle. intros Hp0. destruct (promises w !! p) eqn:Hp; simpl; [done|].
  rewrite lookup_insert_ne; [done|]. congruence.
Qed.

Lemma invoke_frame cb x w :
  pool (invoke cb x w) = pool w
  /\ probes (invoke cb x w) = probes w
  /\ awaiting (invoke cb x w) = awaiting w.
Proof.
  destruct cb as [p|p]; simpl.
  - destruct (settle_frame p x w) as (? & ? & ? & ?). done.
  - destruct (settle_frame p x (with_timers (fun t => t ∖ {[p]}) w))
      as (-> & -> & -> & _). done.
Qed.

Lemma invoke_lookup cb x w p0 y :
  promises w !! p0 = None ->
  promises (invoke cb x w) !! p0 = Some y ->
  y = x.
Proof.
  destruct cb as [p|p]; simpl; intros Hp0 H.
  - by apply settle_lookup in H as [_ ->].
  - by apply settle_lookup in H as [_ ->].
Qed.

Lemma invoke_keeps cb x w p0 y :
  promises w !! p0 = Some y -> promises (invoke cb x w) !! p0 = Some y.
Proof. destruct cb; simpl; intros; by apply settle_keeps. Qed.

(** *** The synchronous segment of [acquireBrowser] *)

Lemma acquireBrowser_from_total fuel p rc w :
  (length (availableBrowsers (pool w)) < fuel)%nat ->
  is_Some (acquireBrowser_from fuel p rc w).
Proof.
  revert w. induction fuel as [|fuel IH]; intros w Hlen; [lia|].
  simpl. destruct (isShuttingDown (pool w)); [by eexists|].
  destruct (pop (availableBrowsers (pool w))) as [[b rest]|] eqn:Hpop.
  - destruct (isBrowserHealthy _ b); [by eexists|].
    apply IH. apply pop_length in Hpop.
    destruct (removeBrowser_frame b (with_pool (set_available rest) w))
      as (_ & _ & _ & _ & _ & _ & _ & _ & ->).
    simpl. pose proof (removeFirst_length b rest). lia.
  - destruct (_ <? _); by eexists.
Qed.

Lemma acquireBrowser_eq p rc w :
  acquireBrowser_from (S (length (availableBrowsers (pool w)))) p rc w
  = Some (acquireBrowser p rc w).
Proof.
  unfold acquireBrowser.
  destruct (acquireBrowser_from_total
              (S (length (availableBrowsers (pool w)))) p rc w) as [r ->]; [lia|].
  done.
Qed.

Lemma acquireBrowser_from_frame fuel p rc w w' out :
  acquireBrowser_from fuel p rc w = Some (w', out) ->
  probes w' = probes w
  /\ promises w' = promises w
  /\ awaiting w' = awaiting w
  /\ isShuttingDown (pool w') = isShuttingDown (pool w)
  /\ poolSize (pool w') = poolSize (pool w)
  /\ (forall b, out = Returned b -> isBrowserHealthy w b = true)
  /\ (forall m, out = Threw m ->
        m = shuttingDownMessage /\ isShuttingDown (pool w) = true /\ w' = w).
Proof.
  revert w. induction fuel as [|fuel IH]; intros w; [done|].
  simpl. destruct (isShuttingDown (pool w)) eqn:Hs.
  { intros [= <- <-]. rewrite Hs. split_and!; try done. by intros ? [= <-]. }
  destruct (pop (availableBrowsers (pool w))) as [[b rest]|] eqn:Hpop.
  - destruct (isBrowserHealthy _ b) eqn:Hh.
    + intros [= <- <-]. simpl. rewrite Hs. split_and!; try done.
      intros ? [= <-]. by rewrite <- Hh.
    + intros H. apply IH in H as (H1 & H2 & H3 & H4 & H5 & H6 & H7).
      destruct (removeBrowser_frame b (with_pool (set_available rest) w))
        as (E1 & E2 & E3 & _ & E5 & _ & E7 & _).
      rewrite E1 in H1. rewrite E2 in H2. rewrite E3 in H3.
      rewrite E5 in H4. rewrite E7 in H5. simpl in *. rewrite Hs in H4.
      split_and!; try done.
      * intros b' Hb'. rewrite <- (H6 b' Hb').
        apply isBrowserHealthy_probes. by rewrite E1.
      * intros m Hm. apply H7 in Hm as (_ & Hm & _).
        rewrite E5 in Hm. simpl in Hm. congruence.
  - destruct (_ <? _); intros [= <- <-]; simpl; rewrite ?Hs; split_and!; done.
Qed.

Lemma acquireBrowser_frame p rc w w' out :
  acquireBrowser p rc w = (w', out) ->
  probes w' = probes w
  /\ promises w' = promises w
  /\ awaiting w' = awaiting w
  /\ isShuttingDown (pool w') = isShuttingDown (pool w)
  /\ poolSize (pool w') = poolSize (pool w)
  /\ (forall b, out = Returned b -> isBrowserHealthy w b = true)
  /\ (forall m, out = Threw m ->
        m = shuttingDownMessage /\ isShuttingDown (pool w) = true /\ w' = w).
Proof.
  intros H. eapply acquireBrowser_from_frame.
  rewrite acquireBrowser_eq, H. done.
Qed.

(** With the flag set the call throws before it looks at anything. *)
Lemma acquireBrowser_shutting p rc w :
  isShuttingDown (pool w) = true ->
  acquireBrowser p rc w = (w, Threw shuttingDownMessage).
Proof.
  intros Hs. unfold acquireBrowser. simpl. by rewrite Hs.
Qed.

(** No browser at hand and room for one more: the call starts a creation. *)
Lemma acquireBrowser_room p rc w :
  isShuttingDown (pool w) = false ->
  availableBrowsers (pool w) = [] ->
  Z.of_nat (length (browsers (pool w))) < poolSize (pool w) ->
  acquireBrowser p rc w = (w, Suspended (AwaitCreate rc)).
Proof.
  intros Hs Ha Hlt. unfold acquireBrowser. rewrite Ha. simpl.
  rewrite Hs, Ha. simpl.
  destruct (Z.ltb_spec (Z.of_nat (length (browsers (pool w)))) (poolSize (pool w)));
    [done | lia].
Qed.


Lemma finish_pool p r : pool (finish p r) = pool r.1.
Proof.
  unfold finish. destruct r as [w out]; simpl.
  destruct out as [b|m| |]; try done.
  - by destruct (settle_frame p (Fulfilled b) w) as (? & _).
  - by destruct (settle_frame p (Rejected m) w) as (? & _).
Qed.

(** *** [shutdown] *)

Lemma reject_all_frame (l : list Callback) x w :
  let w' := foldl (fun acc resolve => invoke resolve x acc) w l in
  pool w' = pool w /\ probes w' = probes w /\ awaiting w' = awaiting w.
Proof.
  revert w. induction l as [|cb l IH]; intros w; simpl; [done|].
  destruct (IH (invoke cb x w)) as (-> & -> & ->). apply invoke_frame.
Qed.

Lemma reject_all_lookup (l : list Callback) m w p0 b :
  promises (foldl (fun acc resolve => invoke resolve (Rejected m) acc) w l) !! p0
    = Some (Fulfilled b) ->
  promises w !! p0 = Some (Fulfilled b).
Proof.
  revert w. induction l as [|cb l IH]; intros w; simpl; [done|].
  intros H. apply IH in H.
  destruct (promises w !! p0) as [y|] eqn:Hp0.
  - by rewrite (invoke_keeps cb _ w p0 y Hp0) in H.
  - by apply (invoke_lookup cb _ w p0 _ Hp0) in H.
Qed.

Lemma close_all_frame (l : list Browser) w :
  let w' := foldl (fun acc b =>
                     match probe acc b with
                     | Connected => with_closeCalls (push b) acc
                     | Disconnected => acc
                     | ProbeThrows => acc
                     end) w l in
  pool w' = pool w /\ probes w' = probes w /\ awaiting w' = awaiting w
  /\ promises w' = promises w.
Proof.
  revert w. induction l as [|b l IH]; intros w; simpl; [done|].
  destruct (probe w b); [|apply IH..].
  destruct (IH (with_closeCalls (push b) w)) as (-> & -> & -> & ->). done.
Qed.

Lemma shutdown_pool w :
  pool (shutdown w)
  = mkPool (poolSize (pool w)) (browsers (pool w)) (availableBrowsers (pool w)) [] true.
Proof.
  unfold shutdown, closeBrowsers, rejectWaiting. cbv zeta.
  change (pool (with_closing S ?v)) with (pool v).
  match goal with |- pool (foldl ?f ?a ?l) = _ =>
    destruct (close_all_frame l a) as (-> & _) end.
  change (pool (with_pool ?f ?v)) with (f (pool v)).
  match goal with |- context [pool (foldl ?f ?a ?l)] =>
    destruct (reject_all_frame l (Rejected shuttingDownMessage) a) as (-> & _) end.
  done.
Qed.

Lemma shutdown_fulfils_nobody w p0 b :
  promises (shutdown w) !! p0 = Some (Fulfilled b) ->
  promises w !! p0 = Some (Fulfilled b).
Proof.
  unfold shutdown, closeBrowsers, rejectWaiting. cbv zeta.
  change (promises (with_closing S ?v)) with (promises v).
  match goal with |- promises (foldl ?f ?a ?l) !! _ = _ -> _ =>
    destruct (close_all_frame l a) as (_ & _ & _ & ->) end.
  change (promises (with_pool ?f ?v)) with (promises v).
  intros H. by apply reject_all_lookup in H.
Qed.

(** *** The flag is never cleared *)

Lemma step_keeps_flag w e :
  isShuttingDown (pool w) = true -> isShuttingDown (pool (step w e)) = true.
Proof.
  intros Hs. destruct e as [|p b|p m|p|p|b| | |b s]; cbn [step].
  - rewrite finish_pool, acquireBrowser_shutting by done. done.
  - destruct (awaiting w !! p) as [[rc|ms rc]|]; try done.
    by rewrite finish_pool.
  - destruct (awaiting w !! p) as [[rc|ms rc]|]; try done.
    rewrite finish_pool. unfold after_create.
    destruct (rc <? maxRetries); done.
  - destruct (awaiting w !! p) as [[rc|ms rc]|]; try done.
    unfold after_delay. rewrite finish_pool, acquireBrowser_shutting by done. done.
  - destruct (decide (p ∈ timers w)); [|done].
    unfold acquire_timeout.
    match goal with |- context [settle p ?x ?v] =>
      destruct (settle_frame p x v) as (-> & _) end.
    simpl. destruct (indexOf _ _); done.
  - unfold releaseBrowser. rewrite Hs.
    destruct (removeBrowser_frame b w) as (_ & _ & _ & _ & -> & _). done.
  - by rewrite shutdown_pool.
  - destruct (closing w); done.
  - done.
Qed.

Lemma run_keeps_flag events w :
  isShuttingDown (pool w) = true -> isShuttingDown (pool (run events w)) = true.
Proof.
  revert w. induction events as [|e events IH]; intros w Hs; [done|].
  simpl. apply IH. by apply step_keeps_flag.
Qed.

(** C9.  Once [shutdown] has run (called directly, or by the idle timer of
    [scheduleCleanup] when the service has been idle for [IDLE_TIMEOUT]),
    [isShuttingDown] stays set whatever happens afterwards, and every later
    [acquireBrowser] call throws "Browser pool is shutting down" at once,
    without touching the pool: the pool never serves a browser again. *)
Theorem shutdown_is_permanent (w : World) (events : list Event) :
  let w' := run events (shutdown w) in
  isShuttingDown (pool w') = true
  /\ (forall p retryCount,
        acquireBrowser p retryCount w' = (w', Threw shuttingDownMessage))
  /\ pool (step w' Acquire) = pool w'
  /\ (promises w' !! nextPromise w' = None ->
      promises (step w' Acquire) !! nextPromise w'
        = Some (Rejected shuttingDownMessage))
  /\ (forall idle now lastActivity,
        now - lastActivity >= idle ->
        cleanupFired idle now lastActivity w = shutdown w).
Proof.
  intros w'.
  assert (Hs : isShuttingDown (pool w') = true).
  { apply run_keeps_flag. by rewrite shutdown_pool. }
  split_and!.
  - done.
  - intros p rc. by apply acquireBrowser_shutting.
  - cbn [step]. rewrite finish_pool, acquireBrowser_shutting by done. done.
  - intros Hfresh. cbn [step]. rewrite acquireBrowser_shutting by done.
    unfold finish, settle. simpl. rewrite Hfresh. simpl.
    by rewrite lookup_insert_eq.
  - intros idle now lastActivity Hidle. unfold cleanupFired.
    destruct (Z.geb_spec (now - lastActivity) idle); [done | lia].
Qed.

(** A concrete run: a pool of three is shut down by the idle timer after
    five idle minutes, then a browser process changes state, a release and a
    new request arrive. *)
Lemma shutdown_is_permanent_witness :
  let w := initialize (fun i => Some i) (new 3) in
  300000 - 0 >= 300000
  /\ cleanupFired 300000 300000 0 w = shutdown w
  /\ isShuttingDown (pool (run [SetProbe 0%nat Disconnected; Release 1%nat; Acquire]
                                (shutdown w))) = true.
Proof.
  intros w.
  pose proof (shutdown_is_permanent w
                [SetProbe 0%nat Disconnected; Release 1%nat; Acquire]) as H.
  destruct H as (Hflag & _ & _ & _ & Hidle).
  split; [lia|]. split; [apply Hidle; lia | exact Hflag].
Defined.

(** *** Who can be handed a browser *)

Lemma finish_lookup p w out p0 b :
  promises w !! p0 = None ->
  promises (finish p (w, out)) !! p0 = Some (Fulfilled b) ->
  p0 = p /\ out = Returned b.
Proof.
  intros Hp0. unfold finish. simpl. destruct out as [b'|m|a|]; simpl.
  - intros H. apply settle_lookup in H as [-> [= ->]]; done.
  - intros H. by apply settle_lookup in H as [_ [=]].
  - congruence.
  - congruence.
Qed.

Lemma step_delivers_healthy w e p b :
  awaiting w !! p = None ->
  promises w !! p = None ->
  promises (step w e) !! p = Some (Fulfilled b) ->
  isBrowserHealthy w b = true.
Proof.
  intros Ha Hp. destruct e as [|q b'|q m|q|q|b'| | |b' s]; cbn [step].
  - destruct (acquireBrowser (nextPromise w) 0 (fresh_promise w)) as [w1 out] eqn:E.
    apply acquireBrowser_frame in E as (_ & E2 & _ & _ & _ & E6 & _).
    intros H. apply finish_lookup in H as [_ ->]; [|by rewrite E2].
    rewrite <- (E6 b eq_refl). by apply isBrowserHealthy_probes.
  - destruct (awaiting w !! q) as [[rc|ms rc]|] eqn:Hq; try congruence.
    destruct (after_create rc (inl b') (with_awaiting (delete q) w)) as [w1 out] eqn:E.
    injection E as <- <-.
    intros H. apply finish_lookup in H as [-> _]; [congruence | done].
  - destruct (awaiting w !! q) as [[rc|ms rc]|] eqn:Hq; try congruence.
    unfold after_create. destruct (rc <? maxRetries) eqn:Hrc.
    + unfold finish. simpl. congruence.
    + unfold acquire_catch. rewrite Hrc. simpl.
      intros H. by apply finish_lookup in H as [_ [=]].
  - destruct (awaiting w !! q) as [[rc|ms rc]|] eqn:Hq; try congruence.
    unfold after_delay.
    destruct (acquireBrowser q rc (with_awaiting (delete q) w)) as [w1 out] eqn:E.
    apply acquireBrowser_frame in E as (_ & E2 & _).
    intros H. apply finish_lookup in H as [-> _]; [congruence | by rewrite E2].
  - destruct (decide (q ∈ timers w)); [|congruence].
    unfold acquire_timeout. intros H.
    apply settle_lookup in H as [_ [=]].
    destruct (indexOf _ _); done.
  - unfold releaseBrowser. destruct (isShuttingDown (pool w)).
    { destruct (removeBrowser_frame b' w) as (_ & -> & _). congruence. }
    destruct (isBrowserHealthy w b') eqn:Hh.
    + destruct (waitingQueue (pool w)) as [|cb rest]; [simpl; congruence|].
      intros H. apply invoke_lookup in H; [|done]. by injection H as ->.
    + destruct (removeBrowser_frame b' w) as (_ & -> & _). congruence.
  - intros H. apply shutdown_fulfils_nobody in H. congruence.
  - destruct (closing w); simpl; congruence.
  - simpl. congruence.
Qed.


(** *** The capacity check and the creation it guards *)

(** C1.  [poolSize] is 1 and start-up created no browser.  Two callers enter
    [acquireBrowser] before either creation has finished: both pass
    [this.browsers.length < this.poolSize], both creations succeed, and
    [browsers] holds two browsers, both in use, in a pool of capacity one. *)
Theorem concurrent_acquires_exceed_poolSize :
  let w := run [Acquire; Acquire; Created 0%nat 7%nat; Created 1%nat 8%nat]
               (initialize (fun _ => None) (new 1)) in
  poolSize (pool w) = 1
  /\ browsers (pool w) = [7%nat; 8%nat]
  /\ availableBrowsers (pool w) = []
  /\ promises w !! 0%nat = Some (Fulfilled 7%nat)
  /\ promises w !! 1%nat = Some (Fulfilled 8%nat)
  /\ poolSize (pool w) < Z.of_nat (length (browsers (pool w))).
Proof. vm_compute. split_and!; reflexivity. Qed.

(** *** The waiting queue and the 60 s timer *)

Lemma acquireBrowser_from_queue fuel p rc w w' out :
  acquireBrowser_from fuel p rc w = Some (w', out) ->
  waitingQueue (pool w') = waitingQueue (pool w)
  \/ waitingQueue (pool w') = waitingQueue (pool w) ++ [Notify p].
Proof.
  revert w. induction fuel as [|fuel IH]; intros w; [done|].
  simpl. destruct (isShuttingDown (pool w)).
  { intros [= <- <-]. by left. }
  destruct (pop (availableBrowsers (pool w))) as [[b rest]|].
  - destruct (isBrowserHealthy _ b).
    + intros [= <- <-]. by left.
    + intros H. apply IH in H.
      destruct (removeBrowser_frame b (with_pool (set_available rest) w))
        as (_ & _ & _ & _ & _ & E & _).
      by rewrite E in H.
  - destruct (_ <? _); intros [= <- <-]; [by left | by right].
Qed.

Lemma initialize_from_queue n created i w :
  waitingQueue (pool (initialize_from n created i w)) = waitingQueue (pool w).
Proof.
  revert i w. induction n as [|n IH]; intros i w; [done|].
  simpl. rewrite IH. by destruct (created i).
Qed.

(** The timer callback looks for [resolve]; the queue holds the wrappers. *)
Lemma timer_leaves_queue w p :
  (forall q, Resolve q ∉ waitingQueue (pool w)) ->
  waitingQueue (pool (step w (TimerFired p))) = waitingQueue (pool w).
Proof.
  intros Hq. cbn [step]. destruct (decide (p ∈ timers w)); [|done].
  unfold acquire_timeout.
  match goal with |- context [settle p ?x ?v] =>
    destruct (settle_frame p x v) as (-> & _) end.
  simpl. by rewrite indexOf_None.
Qed.

Lemma step_no_resolver w e :
  (forall q, Resolve q ∉ waitingQueue (pool w)) ->
  forall q, Resolve q ∉ waitingQueue (pool (step w e)).
Proof.
  intros Hq q. destruct e as [|p b|p m|p|p|b| | |b s].
  - cbn [step]. rewrite finish_pool.
    pose proof (acquireBrowser_eq (nextPromise w) 0 (fresh_promise w)) as E.
    destruct (acquireBrowser _ _ _) as [w1 out].
    apply acquireBrowser_from_queue in E as [E|E]; simpl in *; rewrite E.
    + apply Hq.
    + rewrite elem_of_app, list_elem_of_singleton. intros [?|?]; [by eapply Hq | done].
  - cbn [step]. destruct (awaiting w !! p) as [[rc|ms rc]|]; try apply Hq.
    rewrite finish_pool. apply Hq.
  - cbn [step]. destruct (awaiting w !! p) as [[rc|ms rc]|]; try apply Hq.
    rewrite finish_pool. unfold after_create. destruct (_ <? _); apply Hq.
  - cbn [step]. destruct (awaiting w !! p) as [[rc|ms rc]|]; try apply Hq.
    rewrite finish_pool. unfold after_delay.
    pose proof (acquireBrowser_eq p rc (with_awaiting (delete p) w)) as E.
    destruct (acquireBrowser _ _ _) as [w1 out].
    apply acquireBrowser_from_queue in E as [E|E]; simpl in *; rewrite E.
    + apply Hq.
    + rewrite elem_of_app, list_elem_of_singleton. intros [?|?]; [by eapply Hq | done].
  - rewrite timer_leaves_queue by done. apply Hq.
  - cbn [step]. unfold releaseBrowser.
    destruct (removeBrowser_frame b w) as (_ & _ & _ & _ & _ & E & _).
    destruct (isShuttingDown (pool w)); [rewrite E; apply Hq|].
    destruct (isBrowserHealthy w b); [|rewrite E; apply Hq].
    destruct (waitingQueue (pool w)) as [|cb rest] eqn:Hw.
    + simpl. rewrite Hw. apply Hq.
    + destruct (invoke_frame cb (Fulfilled b) (with_pool (set_waiting rest) w))
        as (-> & _). simpl.
      intros ?. apply (Hq q). by right.
  - cbn [step]. rewrite shutdown_pool. simpl. apply not_elem_of_nil.
  - cbn [step]. destruct (closing w); apply Hq.
  - apply Hq.
Qed.

Lemma reachable_no_resolver created size events q :
  Resolve q ∉ waitingQueue (pool (run events (initialize created (new size)))).
Proof.
  assert (H0 : forall q, Resolve q ∉
            waitingQueue (pool (initialize created (new size)))).
  { intros q'. unfold initialize. rewrite initialize_from_queue. apply not_elem_of_nil. }
  revert H0. generalize (initialize created (new size)). clear.
  induction events as [|e events IH]; intros w H; [apply H|].
  simpl. apply IH. by apply step_no_resolver.
Qed.

(** C2.  In no run of the pool does the 60 s timer take anything out of
    [waitingQueue]: the timer callback searches the queue for [resolve],
    while the queue holds the wrapper around it.  In a pool of one whose
    browser is out, a second call parks; when its timer fires its promise is
    rejected with the timeout error and its callback is still queued.  The
    browser released next is handed to that callback, whose promise is
    already settled: the browser is neither available nor held by anyone. *)
Theorem timed_out_waiter_stays_queued :
  (forall created size events p,
     let w := run events (initialize created (new size)) in
     waitingQueue (pool (step w (TimerFired p))) = waitingQueue (pool w))
  /\ let w := run [Acquire; Acquire; TimerFired 1%nat]
                  (initialize (fun _ => Some 10%nat) (new 1)) in
     promises w !! 1%nat = Some (Rejected timeoutMessage)
     /\ waitingQueue (pool w) = [Notify 1]
     /\ let w' := step w (Release 10%nat) in
        promises w' !! 0%nat = Some (Fulfilled 10%nat)
        /\ promises w' !! 1%nat = Some (Rejected timeoutMessage)
        /\ browsers (pool w') = [10%nat]
        /\ availableBrowsers (pool w') = []
        /\ waitingQueue (pool w') = [].
Proof.
  split.
  - intros created size events p w. apply timer_leaves_queue.
    intros q. apply reachable_no_resolver.
  - vm_compute. split_and!; reflexivity.
Qed.
(** *** Parked calls are not in the middle of a creation *)

Lemma acquireBrowser_from_next fuel p rc w w' out :
  acquireBrowser_from fuel p rc w = Some (w', out) ->
  nextPromise w' = nextPromise w.
Proof.
  revert w. induction fuel as [|fuel IH]; intros w; [done|].
  simpl. destruct (isShuttingDown (pool w)); [by intros [= <- <-]|].
  destruct (pop (availableBrowsers (pool w))) as [[b rest]|].
  - destruct (isBrowserHealthy _ b); [by intros [= <- <-]|].
    intros H. apply IH in H. rewrite H. unfold removeBrowser.
    by destruct (probe _ b).
  - destruct (_ <? _); by intros [= <- <-].
Qed.

Lemma acquireBrowser_parks p rc w w' out :
  acquireBrowser p rc w = (w', out) ->
  nextPromise w' = nextPromise w
  /\ awaiting w' = awaiting w
  /\ (waitingQueue (pool w') = waitingQueue (pool w)
      \/ out = Parked /\ waitingQueue (pool w') = waitingQueue (pool w) ++ [Notify p]).
Proof.
  intros H. pose proof (acquireBrowser_eq p rc w) as E. rewrite H in E.
  split_and!.
  - by apply acquireBrowser_from_next in E.
  - by apply acquireBrowser_from_frame in E as (_ & _ & ? & _).
  - clear H. revert E. generalize (S (length (availableBrowsers (pool w)))).
    intros fuel. revert w. induction fuel as [|fuel IH]; intros w; [done|].
    simpl. destruct (isShuttingDown (pool w)); [intros [= <- <-]; by left|].
    destruct (pop (availableBrowsers (pool w))) as [[b rest]|].
    + destruct (isBrowserHealthy _ b); [intros [= <- <-]; by left|].
      intros H. apply IH in H.
      destruct (removeBrowser_frame b (with_pool (set_available rest) w))
        as (_ & _ & _ & _ & _ & E & _).
      by rewrite E in H.
    + destruct (_ <? _); intros [= <- <-]; [by left | by right].
Qed.

Lemma finish_parts p w out :
  nextPromise (finish p (w, out)) = nextPromise w
  /\ awaiting (finish p (w, out))
     = match out with
       | Suspended a => <[p := a]> (awaiting w)
       | _ => awaiting w
       end.
Proof.
  unfold finish. simpl. destruct out as [b|m|a|]; try done.
  - unfold settle. by destruct (promises w !! p).
  - unfold settle. by destruct (promises w !! p).
Qed.

Lemma reject_all_next (l : list Callback) x w :
  nextPromise (foldl (fun acc resolve => invoke resolve x acc) w l) = nextPromise w.
Proof.
  revert w. induction l as [|cb l IH]; intros w; simpl; [done|].
  rewrite IH. destruct cb as [p|p]; simpl; unfold settle;
    by match goal with |- context [promises ?v !! p] => destruct (promises v !! p) end.
Qed.

Lemma close_all_next (l : list Browser) w :
  nextPromise (foldl (fun acc b =>
                        match probe acc b with
                        | Connected => with_closeCalls (push b) acc
                        | Disconnected => acc
                        | ProbeThrows => acc
                        end) w l) = nextPromise w.
Proof.
  revert w. induction l as [|b l IH]; intros w; simpl; [done|].
  rewrite IH. by destruct (probe w b).
Qed.

Lemma shutdown_parts w :
  nextPromise (shutdown w) = nextPromise w /\ awaiting (shutdown w) = awaiting w.
Proof.
  unfold shutdown, closeBrowsers, rejectWaiting. cbv zeta. split.
  - change (nextPromise (with_closing S ?v)) with (nextPromise v).
    rewrite close_all_next.
    change (nextPromise (with_pool ?f ?v)) with (nextPromise v).
    by rewrite reject_all_next.
  - change (awaiting (with_closing S ?v)) with (awaiting v).
    match goal with |- awaiting (foldl ?f ?a ?l) = _ =>
      destruct (close_all_frame l a) as (_ & _ & -> & _) end.
    change (awaiting (with_pool ?f ?v)) with (awaiting v).
    match goal with |- awaiting (foldl ?f ?a ?l) = _ =>
      destruct (reject_all_frame l (Rejected shuttingDownMessage) a) as (_ & _ & ->) end.
    done.
Qed.

(** The shape of the three cases in which a call enters [acquireBrowser]. *)
Lemma enter_keeps_apart p rc w :
  parked_apart w ->
  (p < nextPromise w)%nat ->
  awaiting w !! p = None ->
  Notify p ∉ waitingQueue (pool w) ->
  parked_apart (finish p (acquireBrowser p rc w)).
Proof.
  intros [Hq Ha] Hp Hpa Hpq.
  destruct (acquireBrowser p rc w) as [w1 out] eqn:E.
  apply acquireBrowser_parks in E as (En & Ea & Eq).
  destruct (finish_parts p w1 out) as [Fn Fa].
  unfold parked_apart. rewrite finish_pool, Fn, Fa, En, Ea. simpl.
  destruct Eq as [Eq|[-> Eq]]; rewrite Eq.
  - split.
    + intros q Hin. destruct (Hq q Hin) as [? ?]. split; [|done].
      destruct out; try done.
      rewrite lookup_insert_ne; [done|]. intros Heq. subst q. done.
    + intros q. destruct out; try apply Ha.
      destruct (decide (p = q)) as [<-|Hne]; [done|].
      rewrite lookup_insert_ne by done. apply Ha.
  - split; [|apply Ha].
    intros q [Hin|[= ->]%list_elem_of_singleton]%elem_of_app; [by apply Hq | done].
Qed.

Lemma step_keeps_apart w e : parked_apart w -> parked_apart (step w e).
Proof.
  intros Hw. pose proof Hw as [Hq Ha].
  destruct e as [|p b|p m|p|p|b| | |b s]; cbn [step].
  - apply enter_keeps_apart.
    + split; simpl.
      * intros q Hin. destruct (Hq q Hin). split; [done | lia].
      * intros q Hin. pose proof (Ha q Hin). lia.
    + simpl. lia.
    + simpl. destruct (awaiting w !! nextPromise w) eqn:E; [|done].
      pose proof (Ha (nextPromise w) ltac:(by eexists)). lia.
    + simpl. intros Hin. destruct (Hq _ Hin). lia.
  - destruct (awaiting w !! p) as [[rc|ms rc]|] eqn:Hp; try done.
    unfold after_create. destruct (finish_parts p
      (with_pool (fun q => set_browsers (push b (browsers q)) q)
                 (with_awaiting (delete p) w)) (Returned b)) as [Fn Fa].
    unfold parked_apart. rewrite finish_pool, Fn, Fa. simpl. split.
    + intros q Hin. destruct (Hq q Hin). split; [|done].
      destruct (decide (p = q)) as [<-|Hne]; [apply lookup_delete_eq|].
      by rewrite lookup_delete_ne.
    + intros q [x Hx]. apply Ha. exists x.
      destruct (decide (p = q)) as [<-|Hne]; [by rewrite lookup_delete_eq in Hx|].
      by rewrite lookup_delete_ne in Hx.
  - destruct (awaiting w !! p) as [[rc|ms rc]|] eqn:Hp; try done.
    assert (Hpq : Notify p ∉ waitingQueue (pool w)).
    { intros Hin. destruct (Hq p Hin). congruence. }
    assert (Hlt : (p < nextPromise w)%nat) by (apply Ha; by eexists).
    unfold after_create.
    destruct (if rc <? maxRetries
              then (with_awaiting (delete p) w, Suspended (AwaitDelay 3000 (rc + 1)))
              else (with_awaiting (delete p) w,
                    acquire_catch rc (acquireFailedPrefix +:+ m)))
      as [w1 out] eqn:E.
    assert (E1 : w1 = with_awaiting (delete p) w)
      by (destruct (rc <? maxRetries); by injection E as <- _).
    subst w1. clear E.
    destruct (finish_parts p (with_awaiting (delete p) w) out) as [Fn Fa].
    unfold parked_apart. rewrite finish_pool, Fn, Fa. simpl. split.
    + intros q Hin. destruct (Hq q Hin). split; [|done].
      assert (p <> q) by (intros Heq; subst q; done).
      destruct out; rewrite ?lookup_insert_ne by done; by rewrite lookup_delete_ne.
    + intros q [x Hx].
      destruct (decide (p = q)) as [<-|Hne]; [done|]. apply Ha. exists x.
      destruct out; rewrite ?lookup_insert_ne in Hx by done;
        by rewrite lookup_delete_ne in Hx.
  - destruct (awaiting w !! p) as [[rc|ms rc]|] eqn:Hp; try done.
    assert (Hpq : Notify p ∉ waitingQueue (pool w)).
    { intros Hin. destruct (Hq p Hin). congruence. }
    assert (Hlt : (p < nextPromise w)%nat) by (apply Ha; by eexists).
    unfold after_delay. apply enter_keeps_apart; simpl; try done.
    + split; simpl.
      * intros q Hin. destruct (Hq q Hin). split; [|done].
        rewrite lookup_delete_ne; [done|]. intros Heq. subst q. done.
      * intros q [x Hx]. apply Ha. exists x.
        destruct (decide (p = q)) as [<-|Hne]; [by rewrite lookup_delete_eq in Hx|].
        by rewrite lookup_delete_ne in Hx.
    + apply lookup_delete_eq.
  - destruct (decide (p ∈ timers w)); [|done].
    unfold acquire_timeout, parked_apart.
    match goal with |- context [settle p ?x ?v] =>
      destruct (settle_frame p x v) as (-> & _ & -> & _);
      assert (En : nextPromise (settle p x v) = nextPromise w)
        by (unfold settle; destruct (promises v !! p); destruct (indexOf _ _); done);
      rewrite En end.
    destruct (indexOf (Resolve p) _) as [i|]; simpl; [|done].
    split; [|done]. intros q Hin. apply Hq.
    unfold JsArray.splice1 in Hin. apply elem_of_app in Hin as [Hin|Hin].
    + by apply (subseteq_take i) in Hin.
    + by apply (subseteq_drop (S i)) in Hin.
  - unfold releaseBrowser.
    assert (Hrm : parked_apart (removeBrowser b w)).
    { destruct (removeBrowser_frame b w) as (_ & _ & Ea & _ & _ & Eq & _).
      unfold parked_apart. rewrite Ea, Eq.
      replace (nextPromise (removeBrowser b w)) with (nextPromise w); [done|].
      unfold removeBrowser. by destruct (probe _ b). }
    destruct (isShuttingDown (pool w)); [done|].
    destruct (isBrowserHealthy w b); [|done].
    destruct (waitingQueue (pool w)) as [|cb rest] eqn:Hqueue.
    { unfold parked_apart. simpl. rewrite Hqueue. done. }
    destruct (invoke_frame cb (Fulfilled b) (with_pool (set_waiting rest) w))
      as (Ep & _ & Ea').
    unfold parked_apart. rewrite Ep, Ea'. simpl.
    replace (nextPromise (invoke cb (Fulfilled b) (with_pool (set_waiting rest) w)))
      with (nextPromise w).
    2:{ destruct cb as [q|q]; simpl; unfold settle;
          by match goal with |- context [promises ?v !! q] =>
               destruct (promises v !! q) end. }
    split; [|done]. intros q Hin. apply Hq. by right.
  - destruct (shutdown_parts w) as [En Ea'].
    unfold parked_apart. rewrite shutdown_pool, En, Ea'. simpl.
    split; [|done]. by intros q ?%elem_of_nil.
  - destruct (closing w); done.
  - done.
Qed.

Lemma reachable_apart created size events :
  parked_apart (run events (initialize created (new size))).
Proof.
  assert (H0 : parked_apart (initialize created (new size))).
  { unfold parked_apart, initialize. rewrite initialize_from_queue. simpl.
    assert (Hkeep : forall n i w,
              awaiting (initialize_from n created i w) = awaiting w).
    { induction n as [|n IH]; intros i w; [done|].
      simpl. rewrite IH. by destruct (created i). }
    rewrite Hkeep. simpl. split.
    - by intros p ?%elem_of_nil.
    - intros p [x Hx]. by rewrite lookup_empty in Hx. }
  revert H0. generalize (initialize created (new size)).
  induction events as [|e events IH]; intros w H; [apply H|].
  simpl. apply IH. by apply step_keeps_apart.
Qed.

(** The branches of [releaseBrowser] on a pool that is not shutting down.
    A healthy browser goes to the callback at the head of [waitingQueue] and
    is not put into [availableBrowsers]; with an empty queue it is appended
    to [availableBrowsers]; an unhealthy browser is taken out of [browsers]
    and [availableBrowsers] and nobody is notified.  Whenever a step of the
    pool fulfils the promise of a call that was pending and not in the middle
    of a creation, the browser passed [isBrowserHealthy] in the state in
    which the step ran. *)
Lemma releaseBrowser_branches (w : World) (b : Browser) :
  isShuttingDown (pool w) = false ->
  let w' := releaseBrowser b w in
  (isBrowserHealthy w b = true ->
   forall resolve rest, waitingQueue (pool w) = resolve :: rest ->
     waitingQueue (pool w') = rest
     /\ availableBrowsers (pool w') = availableBrowsers (pool w)
     /\ browsers (pool w') = browsers (pool w)
     /\ (forall p, resolve = Notify p -> promises w !! p = None ->
           promises w' !! p = Some (Fulfilled b)))
  /\ (isBrowserHealthy w b = true ->
      waitingQueue (pool w) = [] ->
        availableBrowsers (pool w') = availableBrowsers (pool w) ++ [b]
        /\ browsers (pool w') = browsers (pool w)
        /\ waitingQueue (pool w') = []
        /\ promises w' = promises w)
  /\ (isBrowserHealthy w b = false ->
        browsers (pool w') = removeFirst b (browsers (pool w))
        /\ availableBrowsers (pool w') = removeFirst b (availableBrowsers (pool w))
        /\ (NoDup (browsers (pool w)) -> b ∉ browsers (pool w'))
        /\ (NoDup (availableBrowsers (pool w)) -> b ∉ availableBrowsers (pool w'))
        /\ waitingQueue (pool w') = waitingQueue (pool w)
        /\ promises w' = promises w)
  /\ (forall e p b',
        awaiting w !! p = None ->
        promises w !! p = None ->
        promises (step w e) !! p = Some (Fulfilled b') ->
        isBrowserHealthy w b' = true)
  /\ (forall created size events e p b',
        let v := run events (initialize created (new size)) in
        Notify p ∈ waitingQueue (pool v) ->
        promises v !! p = None ->
        promises (step v e) !! p = Some (Fulfilled b') ->
        isBrowserHealthy v b' = true).
Proof.
  intros Hs w'. subst w'. unfold releaseBrowser. rewrite Hs.
  split; [|split; [|split; [|split]]].
  - intros Hh resolve rest Hq. rewrite Hh, Hq.
    destruct (invoke_frame resolve (Fulfilled b) (with_pool (set_waiting rest) w))
      as (-> & _). simpl. split_and!; try done.
    intros p -> Hp. simpl. unfold settle. simpl. rewrite Hp. simpl.
    by rewrite lookup_insert_eq.
  - intros Hh Hq. by rewrite Hh, Hq.
  - intros Hh. rewrite Hh.
    destruct (removeBrowser_frame b w) as (_ & -> & _ & _ & _ & -> & _ & -> & ->).
    split_and!; try done; apply removeFirst_NoDup.
  - apply step_delivers_healthy.
  - intros created size events e p b' Hin Hp Hstep.
    destruct (reachable_apart created size events) as [Hq _].
    destruct (Hq p Hin) as [Ha _].
    by apply (step_delivers_healthy _ e p b').
Qed.

(** A healthy browser released while the head of the queue belongs to a call
    that is already settled reaches nobody. *)
Lemma release_to_settled_call w b p rest :
  isShuttingDown (pool w) = false ->
  isBrowserHealthy w b = true ->
  waitingQueue (pool w) = Notify p :: rest ->
  is_Some (promises w !! p) ->
  promises (releaseBrowser b w) = promises w
  /\ waitingQueue (pool (releaseBrowser b w)) = rest
  /\ availableBrowsers (pool (releaseBrowser b w)) = availableBrowsers (pool w)
  /\ browsers (pool (releaseBrowser b w)) = browsers (pool w).
Proof.
  intros Hs Hh Hq [x Hx]. unfold releaseBrowser. rewrite Hs, Hh, Hq.
  simpl. unfold settle. simpl. rewrite Hx. done.
Qed.

(** C4.  [releaseBrowser] hands a healthy browser to the callback at the
    head of [waitingQueue], whoever it belongs to.  When that is the entry a
    timed-out call has left behind, its promise is already settled: no
    promise changes, every call that is still pending keeps waiting, and the
    browser is not put into [availableBrowsers] either.  In a pool of one
    whose browser is out, two further calls park and the timer of the first
    of them fires; the browser released next passes over the call that is
    still pending. *)
Theorem release_passes_over_a_pending_waiter :
  (forall w b p rest,
     isShuttingDown (pool w) = false ->
     isBrowserHealthy w b = true ->
     waitingQueue (pool w) = Notify p :: rest ->
     is_Some (promises w !! p) ->
     promises (releaseBrowser b w) = promises w
     /\ waitingQueue (pool (releaseBrowser b w)) = rest
     /\ availableBrowsers (pool (releaseBrowser b w)) = availableBrowsers (pool w)
     /\ browsers (pool (releaseBrowser b w)) = browsers (pool w))
  /\ let w := run [Acquire; Acquire; Acquire; TimerFired 1%nat]
                  (initialize (fun _ => Some 10%nat) (new 1)) in
     isShuttingDown (pool w) = false
     /\ isBrowserHealthy w 10%nat = true
     /\ waitingQueue (pool w) = [Notify 1; Notify 2]
     /\ promises w !! 1%nat = Some (Rejected timeoutMessage)
     /\ promises w !! 2%nat = None
     /\ let w' := step w (Release 10%nat) in
        promises w' !! 2%nat = None
        /\ promises w' = promises w
        /\ availableBrowsers (pool w') = []
        /\ browsers (pool w') = [10%nat]
        /\ waitingQueue (pool w') = [Notify 2].
Proof.
  split; [apply release_to_settled_call|].
  intros w.
  assert (Hs : isShuttingDown (pool w) = false) by (vm_compute; reflexivity).
  assert (Hh : isBrowserHealthy w 10%nat = true) by (vm_compute; reflexivity).
  assert (Hq : waitingQueue (pool w) = [Notify 1; Notify 2])
    by (vm_compute; reflexivity).
  assert (H1 : promises w !! 1%nat = Some (Rejected timeoutMessage))
    by (vm_compute; reflexivity).
  assert (H2 : promises w !! 2%nat = None) by (vm_compute; reflexivity).
  destruct (release_to_settled_call w 10%nat 1%nat [Notify 2] Hs Hh Hq)
    as (Hp & Hq' & Ha & Hb); [by rewrite H1|].
  split; [exact Hs|]. split; [exact Hh|]. split; [exact Hq|].
  split; [exact H1|]. split; [exact H2|].
  change (step w (Release 10%nat)) with (releaseBrowser 10%nat w). cbv zeta.
  rewrite Hp, Hq', Ha, Hb. split; [exact H2|]. split; [reflexivity|].
  split; vm_compute; [|split]; reflexivity.
Qed.

(** *** Creation retries *)

(** One [createBrowser()] call: it stops at the first launch that works
    among four, sleeping 2 s, 4 s, 8 s in between, or throws after four. *)
Lemma createBrowser_cases launch k :
  (exists i b,
      (i < 4)%nat /\ launch (k + i)%nat = inl b
      /\ createBrowser launch k
         = Some (inl b, take i [2000; 4000; 8000], S (k + i)))
  \/ (exists m,
        (forall j, (j < 4)%nat -> exists m', launch (k + j)%nat = inr m')
        /\ launch (k + 3)%nat = inr m
        /\ createBrowser launch k
           = Some (inr (createFailedPrefix +:+ m), [2000; 4000; 8000], (k + 4)%nat)).
Proof.
  unfold createBrowser. simpl.
  replace (k + 1)%nat with (S k) by lia.
  replace (k + 2)%nat with (S (S k)) by lia.
  replace (k + 3)%nat with (S (S (S k))) by lia.
  replace (k + 4)%nat with (S (S (S (S k)))) by lia.
  destruct (launch k) as [b0|m0] eqn:E0.
  { left. exists 0%nat, b0. rewrite Nat.add_0_r. split_and!; [lia|done|done]. }
  destruct (launch (S k)) as [b1|m1] eqn:E1.
  { left. exists 1%nat, b1. replace (k + 1)%nat with (S k) by lia.
    split_and!; [lia|done|done]. }
  destruct (launch (S (S k))) as [b2|m2] eqn:E2.
  { left. exists 2%nat, b2. replace (k + 2)%nat with (S (S k)) by lia.
    split_and!; [lia|done|done]. }
  destruct (launch (S (S (S k)))) as [b3|m3] eqn:E3.
  { left. exists 3%nat, b3. replace (k + 3)%nat with (S (S (S k))) by lia.
    split_and!; [lia|done|done]. }
  right. exists m3. split_and!; [|done|done].
  intros j Hj. destruct j as [|[|[|[|j]]]]; [| | | |lia].
  - rewrite Nat.add_0_r. eauto.
  - replace (k + 1)%nat with (S k) by lia. eauto.
  - replace (k + 2)%nat with (S (S k)) by lia. eauto.
  - replace (k + 3)%nat with (S (S (S k))) by lia. eauto.
Qed.

Lemma alone_create fuel launch p k zs w rc r ds k' :
  createBrowser launch k = Some (r, ds, k') ->
  acquire_alone_from (S fuel) launch p k zs (w, Suspended (AwaitCreate rc))
  = acquire_alone_from fuel launch p k' (zs ++ ds) (after_create rc r w).
Proof. intros H. cbn [acquire_alone_from snd fst]. by rewrite H. Qed.

Lemma alone_delay fuel launch p k zs w ms rc :
  acquire_alone_from (S fuel) launch p k zs (w, Suspended (AwaitDelay ms rc))
  = acquire_alone_from fuel launch p k (zs ++ [ms]) (after_delay p rc w).
Proof. reflexivity. Qed.

Lemma alone_returned fuel launch p k zs w b :
  acquire_alone_from (S fuel) launch p k zs (w, Returned b)
  = Some (mkObserved w (Returned b) zs k).
Proof. reflexivity. Qed.

Lemma alone_threw fuel launch p k zs w m :
  acquire_alone_from (S fuel) launch p k zs (w, Threw m)
  = Some (mkObserved w (Threw m) zs k).
Proof. reflexivity. Qed.

(** C6, the claim as written fails.  The first launch and all three retries
    of [createBrowser] fail and the fifth launch works: no error reaches the
    caller of [acquireBrowser], which waits 3 s, calls [createBrowser] again
    and gets the browser of a fifth launch. *)
Lemma acquire_makes_a_fifth_launch :
  let launch := fun k : nat => if (k <? 4)%nat then inr "spawn failed" else inl 5%nat in
  exists o,
    acquire_alone 6 launch 0%nat (initialize (fun _ => None) (new 1)) = Some o
    /\ outcome o = Returned 5%nat
    /\ launched o = 5%nat
    /\ slept o = [2000; 4000; 8000; 3000].
Proof. eexists. vm_compute. split_and!; reflexivity. Qed.

(** C6, amended.  A caller alone with a pool that has no browser at hand and
    room for one more.  Each [createBrowser()] call launches at most four
    times, with 2 s, 4 s and 8 s between launches, and throws exactly when all
    four fail.  [acquireBrowser] makes up to three such calls, 3 s apart: an
    error reaches its caller exactly when twelve launches in a row fail, after
    delays of 2, 4, 8, 3, 2, 4, 8, 3, 2, 4, 8 seconds; otherwise the caller
    gets a browser, which has been added to [browsers].  Two failures and then
    a success give the browser after delays of 2 s and 4 s. *)
Theorem creation_retries_in_rounds
    (launch : nat -> Browser + string) (p : nat) (w : World) (fuel : nat) :
  isShuttingDown (pool w) = false ->
  availableBrowsers (pool w) = [] ->
  Z.of_nat (length (browsers (pool w))) < poolSize (pool w) ->
  (6 <= fuel)%nat ->
  (forall k, exists r ds k',
      createBrowser launch k = Some (r, ds, k')
      /\ (k' <= k + 4)%nat
      /\ ds = take (k' - k - 1) [2000; 4000; 8000]
      /\ ((exists m, r = inr m) <->
          forall j, (j < 4)%nat -> exists m, launch (k + j)%nat = inr m))
  /\ (exists o,
        acquire_alone fuel launch p w = Some o
        /\ (launched o <= 12)%nat
        /\ ((exists m, outcome o = Threw m) <->
            forall j, (j < 12)%nat -> exists m, launch j = inr m)
        /\ ((exists m, outcome o = Threw m) ->
            slept o = [2000; 4000; 8000; 3000; 2000; 4000; 8000; 3000;
                       2000; 4000; 8000]
            /\ final o = w)
        /\ ((exists b, outcome o = Returned b
                       /\ browsers (pool (final o)) = browsers (pool w) ++ [b])
            \/ (exists m, outcome o = Threw m)))
  /\ (forall m0 m1 b,
        launch 0%nat = inr m0 -> launch 1%nat = inr m1 -> launch 2%nat = inl b ->
        exists o,
          acquire_alone fuel launch p w = Some o
          /\ outcome o = Returned b
          /\ slept o = [2000; 4000]
          /\ browsers (pool (final o)) = browsers (pool w) ++ [b]).
Proof.
  intros Hs Ha Hroom Hfuel.
  do 6 (destruct fuel as [|fuel]; [lia|]). clear Hfuel.
  assert (Henter : forall rc, acquireBrowser p rc w = (w, Suspended (AwaitCreate rc))).
  { intros rc. by apply acquireBrowser_room. }
  split_and!.
  - intros k. destruct (createBrowser_cases launch k)
      as [(i & b & Hi & Hl & ->)|(m & Hall & Hl & ->)].
    + eexists _, _, _. split_and!; [done|lia|f_equal; lia|].
      split.
      * intros [m [=]].
      * intros H. destruct (H i Hi) as [m Hm]. congruence.
    + eexists _, _, _. split_and!; [done|lia| |].
      * by replace (k + 4 - k - 1)%nat with 3%nat by lia.
      * split; [done | by eexists].
  - unfold acquire_alone. rewrite Henter.
    destruct (createBrowser_cases launch 0)
      as [(i & b & Hi & Hl & Hc)|(m & Hall0 & _ & Hc)];
      rewrite (alone_create _ _ _ _ _ _ _ _ _ _ Hc).
    { cbn [after_create]. rewrite alone_returned. eexists. split; [done|]. simpl.
      split_and!; [lia| | |left; by eexists].
      - split; [by intros [? [=]]|].
        intros H. destruct (H i ltac:(lia)) as [m Hm]. simpl in Hl. congruence.
      - by intros [? [=]]. }
    change (after_create 0 (inr (createFailedPrefix +:+ m)) w)
      with (w, Suspended (AwaitDelay 3000 1)).
    rewrite alone_delay. unfold after_delay. rewrite Henter.
    destruct (createBrowser_cases launch 4)
      as [(i & b & Hi & Hl & Hc')|(m' & Hall1 & _ & Hc')];
      rewrite (alone_create _ _ _ _ _ _ _ _ _ _ Hc').
    { cbn [after_create]. rewrite alone_returned. eexists. split; [done|]. simpl.
      split_and!; [lia| | |left; by eexists].
      - split; [by intros [? [=]]|].
        intros H. destruct (H (4 + i)%nat ltac:(lia)) as [? Hm]. congruence.
      - by intros [? [=]]. }
    change (after_create 1 (inr (createFailedPrefix +:+ m')) w)
      with (w, Suspended (AwaitDelay 3000 2)).
    rewrite alone_delay. unfold after_delay. rewrite Henter.
    destruct (createBrowser_cases launch 8)
      as [(i & b & Hi & Hl & Hc'')|(m'' & Hall2 & _ & Hc'')];
      rewrite (alone_create _ _ _ _ _ _ _ _ _ _ Hc'').
    { cbn [after_create]. rewrite alone_returned. eexists. split; [done|]. simpl.
      split_and!; [lia| | |left; by eexists].
      - split; [by intros [? [=]]|].
        intros H. destruct (H (8 + i)%nat ltac:(lia)) as [? Hm]. congruence.
      - by intros [? [=]]. }
    match goal with |- context [after_create 2 (inr ?x) w] =>
      change (after_create 2 (inr x) w)
        with (w, Threw (acquireFailedPrefix +:+ x)) end.
    rewrite alone_threw. eexists. split; [done|]. simpl.
    split_and!; [lia| |done|right; by eexists].
    split; [|by eexists]. intros _ j Hj.
    destruct (decide (j < 4)%nat) as [H4|H4]; [apply (Hall0 j H4)|].
    destruct (decide (j < 8)%nat) as [H8|H8].
    { destruct (Hall1 (j - 4)%nat ltac:(lia)) as [x Hx].
      exists x. by replace j with (4 + (j - 4))%nat by lia. }
    destruct (Hall2 (j - 8)%nat ltac:(lia)) as [x Hx].
    exists x. by replace j with (8 + (j - 8))%nat by lia.
  - intros m0 m1 b H0 H1 H2. unfold acquire_alone. rewrite Henter.
    assert (Hc : createBrowser launch 0 = Some (inl b, [2000; 4000], 3%nat)).
    { unfold createBrowser. simpl. by rewrite H0, H1, H2. }
    rewrite (alone_create _ _ _ _ _ _ _ _ _ _ Hc).
    cbn [after_create]. rewrite alone_returned. by eexists.
Qed.

(** An empty pool of capacity one and launches that fail twice. *)
Lemma creation_retries_in_rounds_witness :
  let launch := fun k : nat => if (k <? 2)%nat then inr "spawn failed" else inl 5%nat in
  let w := initialize (fun _ => None) (new 1) in
  exists o,
    acquire_alone 6 launch 0%nat w = Some o
    /\ outcome o = Returned 5%nat
    /\ slept o = [2000; 4000]
    /\ browsers (pool (final o)) = browsers (pool w) ++ [5%nat].
Proof.
  intros launch w.
  assert (Hs : isShuttingDown (pool w) = false) by reflexivity.
  assert (Ha : availableBrowsers (pool w) = []) by reflexivity.
  assert (Hr : Z.of_nat (length (browsers (pool w))) < poolSize (pool w))
    by (vm_compute; reflexivity).
  assert (Hf : (6 <= 6)%nat) by lia.
  destruct (creation_retries_in_rounds launch 0%nat w 6%nat Hs Ha Hr Hf)
    as (_ & _ & H).
  exact (H "spawn failed" "spawn failed" 5%nat eq_refl eq_refl eq_refl).
Defined.
End PoolFacts.

(** ** RequestQueue *)

Module QueueFacts.
Import JsArray JsArrayFacts RequestQueue.

Lemma processQueue_limit w :
  maxConcurrent (rq (processQueue w)) = maxConcurrent (rq w)
  /\ settled (processQueue w) = settled w
  /\ nextRequest (processQueue w) = nextRequest w.
Proof.
  unfold processQueue. destruct (_ || _); [done|].
  by destruct (queue (rq w)).
Qed.

Lemma processQueue_consistent w : consistent w -> consistent (processQueue w).
Proof.
  intros (Hrun & Hle & Hfifo & Hnd & Hin & Hset).
  unfold processQueue.
  destruct (Z.geb_spec (running (rq w)) (maxConcurrent (rq w))) as [Hge|Hlt];
    simpl; [done|].
  case_bool_decide; [done|].
  destruct (queue (rq w)) as [|t rest] eqn:Hq; [done|].
  assert (Hseq : NoDup (dispatched w ++ t :: rest)).
  { rewrite Hfifo. apply NoDup_seq. }
  apply NoDup_app in Hseq as (Hd & Hdisj & _).
  assert (Ht : t ∉ dispatched w).
  { intros Hin'. apply (Hdisj t Hin'). left. }
  assert (Ht' : t ∉ inFlight w).
  { intros Hin'. by apply Hin in Hin' as [? _]. }
  unfold consistent, push. simpl. split_and!.
  - rewrite length_app. simpl. lia.
  - lia.
  - by rewrite <- app_assoc.
  - apply NoDup_app. split_and!; [done| |apply NoDup_singleton].
    intros x Hx ->%list_elem_of_singleton. done.
  - intros x. rewrite !elem_of_app, !list_elem_of_singleton. intros [Hx| ->].
    + destruct (Hin x Hx). split; [by left | done].
    + split; [by right|].
      destruct (settled w !! t) eqn:E; [|done].
      exfalso. apply Ht, Hset. by eexists.
  - intros x Hx. rewrite elem_of_app. left. by apply Hset.
Qed.

Lemma step_consistent w e : consistent w -> consistent (step w e).
Proof.
  intros Hc. destruct e as [|t r]; cbn [step].
  - unfold addRequest. apply processQueue_consistent.
    destruct Hc as (Hrun & Hle & Hfifo & Hnd & Hin & Hset).
    unfold consistent, push. cbn -[seq]. split_and!; try done.
    by rewrite app_assoc, Hfifo, seq_S.
  - case_bool_decide as Ht; [|done].
    unfold handlerSettled. apply processQueue_consistent.
    destruct Hc as (Hrun & Hle & Hfifo & Hnd & Hin & Hset).
    pose proof (removeFirst_length_elem t (inFlight w) Ht) as Hlen.
    destruct (Hin t Ht) as [Htd Hts].
    unfold consistent. simpl. rewrite Hts. split_and!.
    + lia.
    + lia.
    + done.
    + by apply removeFirst_keeps_NoDup.
    + intros x Hx. apply removeFirst_elem in Hx as [Hx Hne]; [|done].
      destruct (Hin x Hx) as [? ?]. split; [done|].
      by rewrite lookup_insert_ne.
    + intros x. destruct (decide (t = x)) as [<-|Hne]; [done|].
      rewrite lookup_insert_ne by done. apply Hset.
Qed.

Lemma step_limit w e : maxConcurrent (rq (step w e)) = maxConcurrent (rq w).
Proof.
  destruct e as [|t r]; cbn [step].
  - unfold addRequest. by destruct (processQueue_limit
      (mkWorld (mkQueue (maxConcurrent (rq w)) (running (rq w))
                        (push (nextRequest w) (queue (rq w))))
               (dispatched w) (inFlight w) (settled w) (S (nextRequest w)))) as (-> & _).
  - case_bool_decide; [|done]. unfold handlerSettled.
    match goal with |- context [processQueue ?v] =>
      destruct (processQueue_limit v) as (-> & _) end.
    done.
Qed.

Lemma run_consistent events w :
  consistent w ->
  consistent (run events w)
  /\ maxConcurrent (rq (run events w)) = maxConcurrent (rq w).
Proof.
  revert w. induction events as [|e events IH]; intros w Hc; [done|].
  simpl. destruct (IH (step w e)) as [? ->]; [by apply step_consistent|].
  split; [done | apply step_limit].
Qed.

(** C3.  In every run of a queue built with a non-negative limit:
    [running] stays between 0 and [maxConcurrent] and counts the handlers in
    flight; the handlers called so far, followed by the queued ones, are the
    requests in the order they were added, so handlers are called in
    submission order and none is called twice; and when a handler in flight
    fails, its own promise is rejected with its error, no other promise
    changes, and the queue goes on exactly as if the handler had succeeded. *)
Theorem admission_is_bounded_and_fifo (limit : Z) (events : list Event) :
  0 <= limit ->
  let w := run events (new limit) in
  maxConcurrent (rq w) = limit
  /\ 0 <= running (rq w) <= limit
  /\ running (rq w) = Z.of_nat (length (inFlight w))
  /\ dispatched w ++ queue (rq w) = seq 0 (nextRequest w)
  /\ NoDup (dispatched w)
  /\ (forall t message,
        t ∈ inFlight w ->
        let w' := step w (HandlerSettled t (Error message)) in
        settled w' !! t = Some (Error message)
        /\ (forall t', t' <> t -> settled w' !! t' = settled w !! t')
        /\ (forall v,
              let w'' := step w (HandlerSettled t (Value v)) in
              rq w' = rq w'' /\ dispatched w' = dispatched w''
              /\ inFlight w' = inFlight w'')).
Proof.
  intros Hlimit w.
  assert (H0 : consistent (new limit)).
  { unfold consistent, new. simpl. split_and!; try done.
    - apply NoDup_nil_2.
    - intros t [x Hx]. by rewrite lookup_empty in Hx. }
  destruct (run_consistent events _ H0) as [Hc Hmax]. fold w in Hc, Hmax.
  simpl in Hmax. destruct Hc as (Hrun & Hle & Hfifo & Hnd & Hin & Hset).
  split_and!; try done; try lia.
  - assert (Hseq : NoDup (dispatched w ++ queue (rq w))).
    { rewrite Hfifo. apply NoDup_seq. }
    by apply NoDup_app in Hseq as (? & _).
  - intros t message Ht w'. subst w'. cbn [step].
    rewrite bool_decide_eq_true_2 by done.
    destruct (Hin t Ht) as [_ Hts].
    unfold handlerSettled. rewrite Hts. split_and!.
    + match goal with |- context [processQueue ?v] =>
        destruct (processQueue_limit v) as (_ & -> & _) end.
      simpl. by rewrite lookup_insert_eq.
    + intros t' Hne.
      match goal with |- context [processQueue ?v] =>
        destruct (processQueue_limit v) as (_ & -> & _) end.
      simpl. by rewrite lookup_insert_ne.
    + intros v. unfold processQueue. simpl.
      destruct (_ || _); [done|]. by destruct (queue (rq w)).
Qed.

(** A limit of two and three requests, the first of which fails. *)
Lemma admission_is_bounded_and_fifo_witness :
  let w := run [AddRequest; AddRequest; AddRequest] (new 2) in
  0 <= 2
  /\ 0 <= running (rq w) <= 2
  /\ settled (step w (HandlerSettled 0%nat (Error "boom"))) !! 0%nat
     = Some (Error "boom").
Proof.
  intros w.
  assert (H : 0 <= 2) by lia.
  destruct (admission_is_bounded_and_fifo 2 [AddRequest; AddRequest; AddRequest] H)
    as (_ & Hr & _ & _ & _ & Hf).
  split; [exact H|]. split; [exact Hr|].
  destruct (Hf 0%nat "boom"%string ltac:(vm_compute; left)) as (Hs & _).
  exact Hs.
Defined.

End QueueFacts.

(** ** SimpleCache *)

Module CacheFacts.
Import SimpleCache.

Lemma get_after_set {V : Type} (c : Cache V) (t0 now : Z) (key : string) (v : V) :
  now <= t0 + ttl c ->
  get now key (set t0 key v c) = (Some v, set t0 key v c).
Proof.
  intros Hlive. unfold get, set. simpl. rewrite lookup_insert_eq. simpl.
  destruct (Z.gtb_spec now (t0 + ttl c)); [lia | done].
Qed.

(** C5.  [get] returns a value exactly when the map holds an item for the
    key whose expiry is not behind the clock, and then it is the stored value;
    a value just [set] is returned unchanged by every [get] made no later than
    [ttl] after it; once the clock is past the expiry of the item, [get]
    returns nothing and deletes the item, leaving the other keys alone. *)
Theorem cache_returns_only_live_values {V : Type}
    (c : Cache V) (now : Z) (key : string) :
  (forall v, (get now key c).1 = Some v <->
             exists e, cache c !! key = Some (mkItem v e) /\ now <= e)
  /\ (forall v t0, now <= t0 + ttl c ->
        get now key (set t0 key v c) = (Some v, set t0 key v c))
  /\ (forall item, cache c !! key = Some item -> expiresAt item < now ->
        (get now key c).1 = None
        /\ cache (get now key c).2 !! key = None
        /\ (forall k, k <> key -> cache (get now key c).2 !! k = cache c !! k)).
Proof.
  split_and!.
  - intros v. unfold get. destruct (cache c !! key) as [[v' e]|] eqn:E; simpl.
    + destruct (Z.gtb_spec now e) as [Hgt|Hle]; simpl.
      * split; [done|]. intros (e' & [= -> ->] & ?). lia.
      * split.
        -- intros [= ->]. by exists e.
        -- by intros (e' & [= -> ->] & ?).
    + split; [done|]. by intros (e' & ? & ?).
  - intros v t0 Hlive. by apply get_after_set.
  - intros item Hitem Hexp. unfold get. rewrite Hitem.
    destruct (Z.gtb_spec now (expiresAt item)); [|lia]. simpl.
    split_and!; [done | apply lookup_delete_eq |].
    intros k Hk. by rewrite lookup_delete_ne.
Qed.

(** A ten-minute cache read one minute and eleven minutes after a write. *)
Lemma cache_returns_only_live_values_witness :
  let c := set 0 "k" "png bytes" (new 600000) in
  (get 60000 "k" c).1 = Some "png bytes"
  /\ (get 660000 "k" c).1 = None
  /\ cache (get 660000 "k" c).2 !! "k" = None.
Proof.
  intros c. split.
  - destruct (cache_returns_only_live_values (V := string) (new 600000) 60000 "k")
      as (_ & H & _).
    subst c. rewrite (H "png bytes" 0); [reflexivity | vm_compute; discriminate].
  - destruct (cache_returns_only_live_values c 660000 "k") as (_ & _ & H).
    destruct (H (mkItem "png bytes" 600000)) as (H1 & H2 & _);
      [vm_compute; reflexivity | simpl; lia | by split].
Defined.

End CacheFacts.

(** ** The cache key *)

Module KeyFacts.
Import Screenshot Scenarios.

(** C10.  The key is the hash of the five fields joined by "_", and a field
    may itself contain "_".  The two requests of [Scenarios] differ in [url]
    and in [width] and have the same string before hashing, hence the same
    key for any hash; so what was stored for the first is what a [get] for
    the second returns while it has not expired. *)
Theorem distinct_requests_share_a_key {V : Type} (md5 : string -> string) :
  url narrow_request <> url wide_request
  /\ width narrow_request <> width wide_request
  /\ fingerprint narrow_request = fingerprint wide_request
  /\ cacheKey md5 narrow_request = cacheKey md5 wide_request
  /\ forall (c : SimpleCache.Cache V) (rendered : V) (t now : Z),
       now <= t + SimpleCache.ttl c ->
       (cachedResult md5 now wide_request
          (cacheRendered md5 t narrow_request rendered c)).1
       = Some rendered.
Proof.
  split_and!; try done.
  intros c rendered t now Hlive. unfold cachedResult, cacheRendered, cacheKey.
  change (fingerprint wide_request) with (fingerprint narrow_request).
  by rewrite CacheFacts.get_after_set.
Qed.

(** With the identity in place of the hash and a ten-minute cache, read one
    minute after the write. *)
Lemma distinct_requests_share_a_key_witness :
  60000 <= 0 + SimpleCache.ttl (SimpleCache.new (V := string) 600000)
  /\ (cachedResult id 60000 wide_request
        (cacheRendered id 0 narrow_request "png bytes" (SimpleCache.new 600000))).1
     = Some "png bytes".
Proof.
  assert (Hlive : 60000 <= 0 + SimpleCache.ttl (SimpleCache.new (V := string) 600000))
    by (vm_compute; discriminate).
  split; [exact Hlive|].
  destruct (distinct_requests_share_a_key (V := string) id) as (_ & _ & _ & _ & Hc).
  exact (Hc (SimpleCache.new 600000) "png bytes"%string 0 60000 Hlive).
Defined.

End KeyFacts.

(** ** Page load *)

Module PageFacts.
Import PageLoad Scenarios.

Lemma announced_app (a b : list Action) :
  announced (a ++ b) = announced a ++ announced b.
Proof. apply omap_app. Qed.

Lemma scrolls_app (a b : list Action) :
  scrolls (a ++ b) = (scrolls a + scrolls b)%nat.
Proof. unfold scrolls. by rewrite omap_app, length_app. Qed.

(** A handler that returns makes the whole [try] return. *)
Lemma try_catch_contains {A} (m : Res A) (handler : string -> Res A) :
  (forall message, exists a tr, handler message = Val a tr) ->
  forall message tr, try_catch m handler <> Exc message tr.
Proof.
  intros Hh message tr. destruct m as [a t|m' t|t]; simpl; try done.
  destruct (Hh m') as (a & t' & ->). done.
Qed.

(** *** The helpers never throw and announce no step *)

Lemma dismiss_loop_quiet page selectors :
  exists tr, dismiss_loop page selectors = Val tt tr /\ announced tr = [].
Proof.
  induction selectors as [|s rest IH]; simpl; [by eexists|].
  destruct (cookie page s); try done. by eexists.
Qed.

(** The inner [catch] of the selector loop logs nothing. *)
Lemma dismiss_loop_silent page selectors :
  exists tr, dismiss_loop page selectors = Val tt tr /\ forall text, Log text ∉ tr.
Proof.
  induction selectors as [|s rest IH]; simpl.
  { exists []. split; [done|]. intros text. apply not_elem_of_nil. }
  destruct (cookie page s); try done.
  eexists. split; [done|]. intros text Hin.
  apply elem_of_cons in Hin as [?|Hin]; [done|].
  by apply list_elem_of_singleton in Hin.
Qed.

Lemma dismissCookieConsent_quiet page :
  exists tr, dismissCookieConsent page = Val tt tr /\ announced tr = [].
Proof.
  unfold dismissCookieConsent.
  destruct (dismiss_loop_quiet page cookieSelectors) as (tr & -> & ?).
  by exists tr.
Qed.

Lemma stability_loop_quiet page interval n i previous stable :
  exists tr,
    (stability_loop page interval n i previous stable = Val tt tr
     \/ exists m, stability_loop page interval n i previous stable = Exc m tr)
    /\ announced tr = []
    /\ (length tr <= 2 * n)%nat.
Proof.
  revert i previous stable. induction n as [|n IH]; intros i previous stable.
  { exists []. simpl. split_and!; [by left | done | lia]. }
  cbn [stability_loop].
  destruct (contentLength page i) as [z|m]; cbn [await bind after throw].
  2:{ exists []. split_and!; [right; by exists m | done | simpl; lia]. }
  destruct (bool_decide (Some z = previous) && (z >? 0)).
  - destruct (stable + 1 >=? 3).
    + exists [Log "DOM content stabilized"]. split_and!; [by left | done | simpl; lia].
    + destruct (IH (S i) (Some z) (stable + 1)) as (tr & [->|[m ->]] & Ha & Hl);
        exists (SleepFor interval :: tr); simpl;
        (split_and!; [eauto | done | simpl; lia]).
  - destruct (IH (S i) (Some z) 0) as (tr & [->|[m ->]] & Ha & Hl);
      exists (SleepFor interval :: tr); simpl;
      (split_and!; [eauto | done | simpl; lia]).
Qed.

(** [waitForContentStability] returns after at most eight samples. *)
Lemma waitForContentStability_quiet page timeout :
  exists tr,
    waitForContentStability page timeout = Val tt tr
    /\ announced tr = []
    /\ (length tr <= 17)%nat.
Proof.
  unfold waitForContentStability.
  destruct (stability_loop_quiet page (checkInterval timeout)
              maxChecks 0 None 0) as (tr & [->|[m ->]] & Ha & Hl).
  - exists tr. split_and!; [done | done | unfold maxChecks in Hl; lia].
  - eexists. simpl. split_and!; [done | |].
    + rewrite announced_app, Ha. done.
    + rewrite length_app. unfold maxChecks in Hl. simpl. lia.
Qed.

Lemma scroll_loop_quiet fuel sh vh cur :
  exists tr,
    (scroll_loop fuel sh vh cur = Val tt tr \/ scroll_loop fuel sh vh cur = Running tr)
    /\ announced tr = []
    /\ forall text, Log text ∉ tr.
Proof.
  assert (Hnil : forall text, Log text ∉ @nil Action)
    by (intros text; apply not_elem_of_nil).
  revert cur. induction fuel as [|fuel IH]; intros cur; cbn [scroll_loop].
  - destruct (PrimFloat.ltb _ _); exists []; split_and!; auto.
  - destruct (PrimFloat.ltb _ _); [|exists []; split_and!; auto].
    match goal with |- context [scroll_loop fuel sh vh ?next] =>
      destruct (IH next) as (tr & [-> | ->] & Ha & Hl) end;
      eexists; simpl; (split_and!; [eauto | done |]);
      intros text Hin;
      (apply elem_of_cons in Hin as [?|Hin]; [done|]);
      (apply elem_of_cons in Hin as [?|Hin]; [done|]); by apply (Hl text).
Qed.

Lemma scroll_loop_done fuel sh vh cur :
  (cur <? sh - vh)%float = false -> scroll_loop fuel sh vh cur = Val tt [].
Proof.
  intros H. destruct fuel; cbn [scroll_loop]; by rewrite H.
Qed.

(** [triggerLazyLoading] never throws; it is still running only while the
    scroll loop is. *)
Lemma triggerLazyLoading_quiet fuel page :
  exists tr,
    (triggerLazyLoading fuel page = Val tt tr
     \/ triggerLazyLoading fuel page = Running tr
        /\ body page = Resolves tt
        /\ scroll_loop fuel (scrollHeight page) (innerHeight page) 0 = Running tr)
    /\ announced tr = [].
Proof.
  unfold triggerLazyLoading. destruct (body page) as [[]|m].
  - destruct (scroll_loop_quiet fuel (scrollHeight page) (innerHeight page) 0)
      as (tr & [-> | ->] & Ha & _); eexists; simpl; (split; [eauto|]).
    + by rewrite announced_app, Ha.
    + done.
  - eexists. simpl. split; [eauto | done].
Qed.

Lemma waitForCriticalContent_quiet page :
  exists tr, waitForCriticalContent page = Val tt tr /\ announced tr = [].
Proof.
  unfold waitForCriticalContent.
  destruct (criticalContent page); simpl; by eexists.
Qed.

Lemma guarded_await_quiet (r : Reply unit) (text : string) :
  exists tr,
    try_catch (await r) (fun _ => emit (Log text)) = Val tt tr /\ announced tr = [].
Proof. destruct r as [[]|m]; simpl; by eexists. Qed.

(** *** [waitForPageLoad] *)

(** Once steps 1 and 2 have succeeded, every later step is entered whatever
    the earlier ones met; only the scroll loop can keep the function from
    reaching step 7. *)
Lemma waitForPageLoad_advances fuel page :
  domComplete page = Resolves tt ->
  mainContent page = Resolves tt ->
  (forall t6, triggerLazyLoading fuel page = Val tt t6 ->
     exists tr, waitForPageLoad fuel page = Val tt tr
                /\ announced tr = [1; 2; 3; 4; 5; 6; 7; 8; 9; 10]%nat)
  /\ (forall t6, triggerLazyLoading fuel page = Running t6 ->
        exists tr, waitForPageLoad fuel page = Running tr
                   /\ announced tr = [1; 2; 3; 4; 5; 6]%nat).
Proof.
  intros Hdom Hmain.
  destruct (dismissCookieConsent_quiet page) as (t3 & E3 & A3).
  destruct (guarded_await_quiet (networkIdle page) "Network not idle but proceeding...")
    as (t4 & E4 & A4).
  destruct (waitForContentStability_quiet page CONTENT_STABILITY_TIMEOUT)
    as (t5 & E5 & A5 & _).
  destruct (guarded_await_quiet (imagesLoaded page)
              "Some images may not load but proceeding") as (t7 & E7 & A7).
  destruct (guarded_await_quiet (iframesLoaded page)
              "Some iframes may not load but proceeding") as (t8 & E8 & A8).
  destruct (waitForCriticalContent_quiet page) as (t10 & E10 & A10).
  destruct (triggerLazyLoading_quiet fuel page) as (t6' & _ & A6).
  split; intros t6 E6; unfold waitForPageLoad;
    rewrite Hdom, Hmain, E3, E4, E5, E6, ?E7, ?E8, ?E10; simpl;
    (eexists; split; [reflexivity|]);
    assert (A6' : announced t6 = [])
      by (destruct (triggerLazyLoading_quiet fuel page) as (t & [E|[E _]] & A);
          rewrite E in E6; congruence);
    change (announced ?l) with (announced ([] ++ l));
    repeat (rewrite ?announced_app, ?A3, ?A4, ?A5, ?A6', ?A7, ?A8, ?A10; simpl);
    reflexivity.
Qed.

(** C7, the claim as written fails.  On a page whose [readyState] wait
    times out, step 1 is the only step announced: the outer handler logs the
    failure and the function returns without entering step 2 or any later
    step. *)
Lemma dom_timeout_skips_every_later_step :
  waitForPageLoad 0 slow_dom_page
  = Val tt [Log "Waiting for complete page load...";
            Banner 1;
            Log "Page load timeout for some parts but proceeding: Waiting failed: 18000ms exceeded"]
  /\ announced (trace_of (waitForPageLoad 0 slow_dom_page)) = [1%nat].
Proof. split; reflexivity. Qed.

(** The whole trace once steps 1 and 2 have succeeded. *)
Lemma waitForPageLoad_trace fuel page t3 t5 :
  domComplete page = Resolves tt ->
  mainContent page = Resolves tt ->
  dismissCookieConsent page = Val tt t3 ->
  waitForContentStability page CONTENT_STABILITY_TIMEOUT = Val tt t5 ->
  (forall t6,
     triggerLazyLoading fuel page = Val tt t6 ->
     waitForPageLoad fuel page
     = Val tt ([Log "Waiting for complete page load..."; Banner 1; Banner 2; Banner 3]
               ++ t3 ++ [Banner 4]
               ++ match networkIdle page with
                  | Resolves _ => []
                  | Throws _ => [Log "Network not idle but proceeding..."]
                  end
               ++ [Banner 5] ++ t5 ++ [Banner 6] ++ t6 ++ [Banner 7]
               ++ match imagesLoaded page with
                  | Resolves _ => []
                  | Throws _ => [Log "Some images may not load but proceeding"]
                  end
               ++ [Banner 8]
               ++ match iframesLoaded page with
                  | Resolves _ => []
                  | Throws _ => [Log "Some iframes may not load but proceeding"]
                  end
               ++ [Banner 9; Sleep 2000; Banner 10]
               ++ match criticalContent page with
                  | Resolves _ => [Log "Critical content detected"]
                  | Throws message =>
                      [Log ("Critical content check failed: " +:+ message)]
                  end
               ++ [Log "Page loaded completely!"]))
  /\ (forall t6,
        triggerLazyLoading fuel page = Running t6 ->
        waitForPageLoad fuel page
        = Running ([Log "Waiting for complete page load..."; Banner 1; Banner 2; Banner 3]
                   ++ t3 ++ [Banner 4]
                   ++ match networkIdle page with
                      | Resolves _ => []
                      | Throws _ => [Log "Network not idle but proceeding..."]
                      end
                   ++ [Banner 5] ++ t5 ++ [Banner 6] ++ t6)).
Proof.
  intros Hdom Hmain E3 E5.
  split; intros t6 E6; unfold waitForPageLoad, waitForCriticalContent;
    rewrite Hdom, Hmain, E3, E5, E6;
    destruct (networkIdle page) as [[]|m4];
    destruct (imagesLoaded page) as [[]|m7];
    destruct (iframesLoaded page) as [[]|m8];
    destruct (criticalContent page) as [[]|m10]; reflexivity.
Qed.

(** C7, amended.  [waitForPageLoad] never throws.  A failure of step 1 or
    of step 2 is caught by the outer handler, is logged, and ends the
    function without entering the steps that follow.  Once steps 1 and 2 have
    succeeded the trace is the one written out below.  Step 3 logs nothing:
    a selector whose lookup, visibility check or click fails is passed over
    in silence.  A failure of step 4, 7 or 8 leaves its one log line, a
    sample of step 5 that throws ends the sampling and leaves
    "Content stability check failed", a missing body in step 6 leaves
    "Lazy loading trigger failed", a failure of step 10 leaves
    "Critical content check failed"; step 9 is a pause of 2 s.  In each case
    the next step is entered, up to "Page loaded completely!" - unless the
    scroll loop of step 6 is still running, and then the function is in
    step 6 and has thrown nothing. *)
Theorem page_load_failures_never_escape (fuel : nat) (page : Page) :
  (forall message tr, waitForPageLoad fuel page <> Exc message tr)
  /\ (forall message,
        domComplete page = Throws message ->
        waitForPageLoad fuel page
        = Val tt [Log "Waiting for complete page load..."; Banner 1;
                  Log ("Page load timeout for some parts but proceeding: " +:+ message)])
  /\ (forall message,
        domComplete page = Resolves tt ->
        mainContent page = Throws message ->
        waitForPageLoad fuel page
        = Val tt [Log "Waiting for complete page load..."; Banner 1; Banner 2;
                  Log ("Page load timeout for some parts but proceeding: " +:+ message)])
  /\ (domComplete page = Resolves tt ->
      mainContent page = Resolves tt ->
      exists t3 t4 t5 t7 t8 t10,
        dismissCookieConsent page = Val tt t3
        /\ (forall text, Log text ∉ t3)
        /\ t4 = match networkIdle page with
                | Resolves _ => []
                | Throws _ => [Log "Network not idle but proceeding..."]
                end
        /\ waitForContentStability page CONTENT_STABILITY_TIMEOUT = Val tt t5
        /\ (forall message tr,
              stability_loop page (checkInterval CONTENT_STABILITY_TIMEOUT)
                maxChecks 0 None 0 = Exc message tr ->
              t5 = tr ++ [Log ("Content stability check failed: " +:+ message)])
        /\ t7 = match imagesLoaded page with
                | Resolves _ => []
                | Throws _ => [Log "Some images may not load but proceeding"]
                end
        /\ t8 = match iframesLoaded page with
                | Resolves _ => []
                | Throws _ => [Log "Some iframes may not load but proceeding"]
                end
        /\ t10 = match criticalContent page with
                 | Resolves _ => [Log "Critical content detected"]
                 | Throws message =>
                     [Log ("Critical content check failed: " +:+ message)]
                 end
        /\ (forall t6,
              triggerLazyLoading fuel page = Val tt t6 ->
              waitForPageLoad fuel page
              = Val tt ([Log "Waiting for complete page load...";
                         Banner 1; Banner 2; Banner 3]
                        ++ t3 ++ [Banner 4] ++ t4 ++ [Banner 5] ++ t5
                        ++ [Banner 6] ++ t6 ++ [Banner 7] ++ t7 ++ [Banner 8] ++ t8
                        ++ [Banner 9; Sleep 2000; Banner 10] ++ t10
                        ++ [Log "Page loaded completely!"]))
        /\ (forall t6,
              triggerLazyLoading fuel page = Running t6 ->
              waitForPageLoad fuel page
              = Running ([Log "Waiting for complete page load...";
                          Banner 1; Banner 2; Banner 3]
                         ++ t3 ++ [Banner 4] ++ t4 ++ [Banner 5] ++ t5
                         ++ [Banner 6] ++ t6)))
  /\ (forall message,
        body page = Throws message ->
        triggerLazyLoading fuel page
        = Val tt [Log ("Lazy loading trigger failed: " +:+ message)])
  /\ (exists t6,
        triggerLazyLoading fuel page = Val tt t6
        \/ triggerLazyLoading fuel page = Running t6
           /\ body page = Resolves tt
           /\ scroll_loop fuel (scrollHeight page) (innerHeight page) 0 = Running t6).
Proof.
  split_and!.
  - apply try_catch_contains. intros message. by eexists _, _.
  - intros message Hdom. unfold waitForPageLoad. by rewrite Hdom.
  - intros message Hdom Hmain. unfold waitForPageLoad. by rewrite Hdom, Hmain.
  - intros Hdom Hmain.
    assert (H3 : exists t3, dismissCookieConsent page = Val tt t3
                            /\ forall text, Log text ∉ t3).
    { unfold dismissCookieConsent.
      destruct (dismiss_loop_silent page cookieSelectors) as (t3 & -> & Hs).
      by exists t3. }
    destruct H3 as (t3 & E3 & Hs).
    destruct (waitForContentStability_quiet page CONTENT_STABILITY_TIMEOUT)
      as (t5 & E5 & _).
    destruct (waitForPageLoad_trace fuel page t3 t5 Hdom Hmain E3 E5) as [Hv Hr].
    eexists t3, _, t5, _, _, _.
    split; [exact E3|]. split; [exact Hs|]. split; [reflexivity|].
    split; [exact E5|]. split.
    { intros message tr Hexc. revert E5. unfold waitForContentStability.
      rewrite Hexc. simpl. by intros [= <-]. }
    split; [reflexivity|]. split; [reflexivity|]. split; [reflexivity|].
    split; [exact Hv | exact Hr].
  - intros message Hbody. unfold triggerLazyLoading. by rewrite Hbody.
  - destruct (triggerLazyLoading_quiet fuel page) as (t6 & H & _). by exists t6.
Qed.

(** The page on which every wait succeeds, with room for its three scroll
    steps: every step is entered and nothing is logged on the way. *)
Lemma page_load_failures_never_escape_witness :
  domComplete settled_page = Resolves tt
  /\ mainContent settled_page = Resolves tt
  /\ exists t3 t5 t6,
       triggerLazyLoading 3 settled_page = Val tt t6
       /\ waitForPageLoad 3 settled_page
          = Val tt ([Log "Waiting for complete page load...";
                     Banner 1; Banner 2; Banner 3]
                    ++ t3 ++ [Banner 4] ++ [] ++ [Banner 5] ++ t5
                    ++ [Banner 6] ++ t6 ++ [Banner 7] ++ [] ++ [Banner 8] ++ []
                    ++ [Banner 9; Sleep 2000; Banner 10]
                    ++ [Log "Critical content detected"]
                    ++ [Log "Page loaded completely!"]).
Proof.
  split; [reflexivity|]. split; [reflexivity|].
  destruct (page_load_failures_never_escape 3 settled_page)
    as (_ & _ & _ & H & _).
  destruct (H eq_refl eq_refl)
    as (t3 & t4 & t5 & t7 & t8 & t10 & _ & _ & -> & _ & _ & -> & -> & -> & Hv & _).
  eexists t3, t5, _. split; [|apply Hv]; vm_compute; reflexivity.
Defined.

(** *** The scroll loop on a viewport of height 0 *)

Lemma scroll_loop_stuck fuel :
  scroll_loop fuel 100 0 0 = Running (concat (replicate fuel [ScrollBy 0; Sleep 800])).
Proof.
  induction fuel as [|fuel IH]; [reflexivity|].
  cbn [scroll_loop]. change (0 <? 100 - 0)%float with true. cbv iota.
  change (0 * _)%float with 0%float.
  change (0 + 0)%float with 0%float. rewrite IH. reflexivity.
Qed.

Lemma scrolls_stuck fuel :
  scrolls (concat (replicate fuel [ScrollBy 0; Sleep 800])) = fuel.
Proof.
  induction fuel as [|fuel IH]; [reflexivity|].
  change (replicate (S fuel) [ScrollBy 0; Sleep 800])
    with ([ScrollBy 0; Sleep 800] :: replicate fuel [ScrollBy 0; Sleep 800]).
  cbn [concat]. rewrite scrolls_app, IH. reflexivity.
Qed.

(** C8.  On a page that reports a viewport height of 0 and a scroll height
    of 100, [scrollStep] is 0 and [currentPosition] never moves: however many
    iterations are allowed, the loop of [triggerLazyLoading] has scrolled that
    many times and is still running, and [waitForPageLoad] is still in
    step 6. *)
Theorem lazy_loading_never_ends_without_viewport (fuel : nat) :
  (exists tr, scroll_loop fuel (scrollHeight zero_viewport_page)
                (innerHeight zero_viewport_page) 0 = Running tr
              /\ scrolls tr = fuel)
  /\ (exists tr, triggerLazyLoading fuel zero_viewport_page = Running tr
                 /\ scrolls tr = fuel)
  /\ (exists tr, waitForPageLoad fuel zero_viewport_page = Running tr
                 /\ scrolls tr = fuel
                 /\ announced tr = [1; 2; 3; 4; 5; 6]%nat).
Proof.
  assert (Hlazy : triggerLazyLoading fuel zero_viewport_page
                  = Running (concat (replicate fuel [ScrollBy 0; Sleep 800]))).
  { unfold triggerLazyLoading.
    cbn [body zero_viewport_page scrollHeight innerHeight await bind after].
    by rewrite scroll_loop_stuck. }
  split_and!.
  - eexists. split; [apply scroll_loop_stuck | apply scrolls_stuck].
  - eexists. split; [apply Hlazy | apply scrolls_stuck].
  - destruct (waitForPageLoad_advances fuel zero_viewport_page eq_refl eq_refl)
      as [_ Hr].
    destruct (Hr _ Hlazy) as (tr & E & Ha).
    exists tr. split_and!; [done| |done].
    revert E. unfold waitForPageLoad. rewrite Hlazy.
    intros [= <-]. exact (scrolls_stuck fuel).
Qed.

End PageFacts.

(** ** BrowserPool, further properties *)

Module PoolMore.
Import JsArray JsArrayFacts BrowserPool PoolFacts.

Lemma pop_snoc {A} (l : list A) (x : A) : pop (l ++ [x]) = Some (x, l).
Proof.
  unfold pop. rewrite last_snoc. f_equal. f_equal.
  apply take_app_length'. rewrite length_app. simpl. lia.
Qed.

Lemma pop_Some {A} (l rest : list A) (x : A) :
  pop l = Some (x, rest) -> l = rest ++ [x].
Proof.
  unfold pop. destruct (last l) as [y|] eqn:E; [|done].
  apply last_Some in E as [l' ->]. intros [= <- <-].
  f_equal. symmetry. apply take_app_length'. rewrite length_app. simpl. lia.
Qed.

Lemma pop_None {A} (l : list A) : pop l = None -> l = [].
Proof.
  unfold pop. destruct (last l) eqn:E; [done|]. intros _. by apply last_None.
Qed.

Lemma removeFirst_other {A} `{EqDecision A} (x y : A) (l : list A) :
  y ∈ l -> y <> x -> y ∈ removeFirst x l.
Proof.
  induction l as [|z l IH]; [by intros ?%elem_of_nil|].
  rewrite removeFirst_cons. intros Hin Hne.
  destruct (decide (z = x)) as [->|Hzx].
  - apply elem_of_cons in Hin as [?|?]; [congruence | done].
  - apply elem_of_cons in Hin as [->|?]; [left | right; by apply IH].
Qed.

(** *** [initialize] *)

Lemma initialize_from_arrays n created i w :
  browsers (pool (initialize_from n created i w))
  = browsers (pool w) ++ omap created (seq i n)
  /\ availableBrowsers (pool (initialize_from n created i w))
     = availableBrowsers (pool w) ++ omap created (seq i n)
  /\ isShuttingDown (pool (initialize_from n created i w)) = isShuttingDown (pool w)
  /\ poolSize (pool (initialize_from n created i w)) = poolSize (pool w).
Proof.
  revert i w. induction n as [|n IH]; intros i w.
  { simpl. by rewrite !app_nil_r. }
  cbn [initialize_from seq omap list_omap].
  destruct (IH (S i) (match created i with
                      | Some browser =>
                        with_pool (fun q => set_available (push browser (availableBrowsers q))
                                              (set_browsers (push browser (browsers q)) q)) w
                      | None => w
                      end)) as (-> & -> & -> & ->).
  destruct (created i) as [b|]; simpl; unfold push; by rewrite <- ?app_assoc.
Qed.

Lemma created_count (created : nat -> option Browser) n i :
  (length (omap created (seq i n)) <= n)%nat
  /\ ((forall j, (i <= j < i + n)%nat -> is_Some (created j)) ->
      length (omap created (seq i n)) = n).
Proof.
  revert i. induction n as [|n IH]; intros i; [done|].
  cbn [seq omap list_omap]. destruct (IH (S i)) as [Hle Heq].
  destruct (created i) as [b|] eqn:E; simpl.
  - split; [lia|]. intros Hall. f_equal. apply Heq. intros j Hj. apply Hall. lia.
  - split; [lia|]. intros Hall. destruct (Hall i ltac:(lia)) as [x Hx]. congruence.
Qed.

(** X1.  After [initialize] on a freshly constructed pool, [browsers] and
    [availableBrowsers] are the same array: the browsers of the creations that
    succeeded, in creation order.  There are at most [poolSize] of them, none
    when [poolSize] is zero or negative, and the pool is not shutting down. *)
Theorem initialize_keeps_the_created_browsers
    (created : nat -> option Browser) (size : Z) :
  let w := initialize created (new size) in
  browsers (pool w) = omap created (seq 0 (Z.to_nat size))
  /\ availableBrowsers (pool w) = browsers (pool w)
  /\ Z.of_nat (length (browsers (pool w))) <= Z.max 0 size
  /\ (size <= 0 -> browsers (pool w) = [])
  /\ ((forall i, (i < Z.to_nat size)%nat -> is_Some (created i)) ->
      length (browsers (pool w)) = Z.to_nat size)
  /\ waitingQueue (pool w) = []
  /\ isShuttingDown (pool w) = false.
Proof.
  intros w. subst w. unfold initialize.
  destruct (initialize_from_arrays (Z.to_nat (poolSize (pool (new size))))
              created 0 (new size)) as (Hb & Ha & Hs & _).
  rewrite initialize_from_queue. rewrite Hb, Ha, Hs.
  change (poolSize (pool (new size))) with size.
  change (browsers (pool (new size))) with (@nil Browser).
  change (availableBrowsers (pool (new size))) with (@nil Browser).
  rewrite !app_nil_l.
  destruct (created_count created (Z.to_nat size) 0) as [Hle Heq].
  split_and!; try done.
  - lia.
  - intros Hneg. by replace (Z.to_nat size) with 0%nat by lia.
  - intros Hall. apply Heq. intros j Hj. apply Hall. lia.
Qed.

(** A pool of three whose second creation fails. *)
Lemma initialize_keeps_the_created_browsers_witness :
  let created := fun i : nat => if (i =? 1)%nat then None else Some (10 + i)%nat in
  browsers (pool (initialize created (new 3))) = [10; 12]%nat
  /\ 0 <= 0
  /\ browsers (pool (initialize created (new 0))) = [].
Proof.
  intros created.
  destruct (initialize_keeps_the_created_browsers created 3) as (H & _).
  destruct (initialize_keeps_the_created_browsers created 0) as (_ & _ & _ & H0 & _).
  split; [exact H|]. split; [lia | exact (H0 (Z.le_refl 0))].
Defined.


(** *** How [acquireBrowser] ends its first segment *)

Lemma acquireBrowser_from_ends fuel p rc w w' out :
  acquireBrowser_from fuel p rc w = Some (w', out) ->
  match out with
  | Returned b =>
      b ∈ availableBrowsers (pool w) /\ isBrowserHealthy w b = true
      /\ isShuttingDown (pool w) = false
      /\ waitingQueue (pool w') = waitingQueue (pool w) /\ timers w' = timers w
  | Threw m =>
      m = shuttingDownMessage /\ isShuttingDown (pool w) = true /\ w' = w
  | Suspended a =>
      a = AwaitCreate rc /\ availableBrowsers (pool w') = []
      /\ Z.of_nat (length (browsers (pool w'))) < poolSize (pool w)
      /\ isShuttingDown (pool w) = false
      /\ waitingQueue (pool w') = waitingQueue (pool w) /\ timers w' = timers w
  | Parked =>
      availableBrowsers (pool w') = []
      /\ poolSize (pool w) <= Z.of_nat (length (browsers (pool w')))
      /\ isShuttingDown (pool w) = false
      /\ waitingQueue (pool w') = waitingQueue (pool w) ++ [Notify p]
      /\ timers w' = timers w ∪ {[p]}
  end
  /\ browsers (pool w') ⊆ browsers (pool w)
  /\ (length (browsers (pool w')) <= length (browsers (pool w)))%nat
  /\ availableBrowsers (pool w') ⊆ availableBrowsers (pool w)
  /\ (forall x, x ∈ availableBrowsers (pool w) ->
        x ∈ availableBrowsers (pool w') \/ out = Returned x
        \/ isBrowserHealthy w x = false).
Proof.
  revert w. induction fuel as [|fuel IH]; intros w; [done|].
  simpl. destruct (isShuttingDown (pool w)) eqn:Hs.
  { intros [= <- <-]. split_and!; try done. intros x Hx. by left. }
  destruct (pop (availableBrowsers (pool w))) as [[b rest]|] eqn:Hpop.
  - apply pop_Some in Hpop.
    destruct (isBrowserHealthy _ b) eqn:Hh.
    + intros [= <- <-]. simpl. rewrite Hpop. split_and!; try done.
      * rewrite elem_of_app, list_elem_of_singleton. by right.
      * intros x Hx. apply elem_of_app. by left.
      * intros x [Hx| ->%list_elem_of_singleton]%elem_of_app; [by left | right; by left].
    + intros H. apply IH in H as (Hout & Hb & Hl & Ha & Hx).
      destruct (removeBrowser_frame b (with_pool (set_available rest) w))
        as (E1 & _ & _ & E4 & E5 & E6 & E7 & E8 & E9).
      rewrite E5, E6, E7, E4, ?E9 in Hout. rewrite E8 in Hb, Hl. rewrite E9 in Ha, Hx.
      simpl in *. rewrite Hs in Hout.
      assert (Hhealth : forall x, isBrowserHealthy
                          (removeBrowser b (with_pool (set_available rest) w)) x
                        = isBrowserHealthy w x).
      { intros x. apply isBrowserHealthy_probes. by rewrite E1. }
      split_and!.
      * destruct out as [b'|m|a|]; [|by destruct Hout as (_ & ? & _)|done|done].
        destruct Hout as (Hin & Hh' & ? & ? & ?). rewrite Hhealth in Hh'.
        split_and!; try done. rewrite Hpop. apply elem_of_app. left.
        by apply (removeFirst_subseteq b rest).
      * intros x Hx'. by apply (removeFirst_subseteq b (browsers (pool w))), Hb.
      * pose proof (removeFirst_length b (browsers (pool w))). lia.
      * intros x Hx'. rewrite Hpop. apply elem_of_app. left.
        by apply (removeFirst_subseteq b rest), Ha.
      * intros x. rewrite Hpop.
        destruct (decide (x = b)) as [->|Hne].
        { intros _. right. right. rewrite <- Hh. by apply isBrowserHealthy_probes. }
        intros [Hin|Hin%list_elem_of_singleton]%elem_of_app; [|done].
        destruct (Hx x (removeFirst_other b x rest Hin Hne)) as [?|[?|Hu]];
          [by left | right; by left | right; right; by rewrite <- Hhealth].
  - apply pop_None in Hpop.
    destruct (Z.ltb_spec (Z.of_nat (length (browsers (pool w)))) (poolSize (pool w)));
      intros [= <- <-]; simpl; rewrite Hpop; split_and!; try done;
      intros x Hx; by left.
Qed.

(** X2.  The first segment of [acquireBrowser] on a pool that is not
    shutting down ends in one of three ways.  It returns a browser, which was
    in [availableBrowsers] and is healthy.  It starts a creation, and then
    [availableBrowsers] is empty and [browsers] is shorter than [poolSize].
    It parks the call at the tail of [waitingQueue] with its timer armed, and
    then [availableBrowsers] is empty and [browsers] has reached [poolSize].
    It never adds to [browsers] or [availableBrowsers], and every browser it
    took out of [availableBrowsers], apart from the one returned, was
    unhealthy. *)
Theorem acquire_takes_parks_or_creates
    (p : nat) (retryCount : Z) (w w' : World) (out : Outcome) :
  isShuttingDown (pool w) = false ->
  acquireBrowser p retryCount w = (w', out) ->
  match out with
  | Returned b =>
      b ∈ availableBrowsers (pool w) /\ isBrowserHealthy w b = true
      /\ waitingQueue (pool w') = waitingQueue (pool w)
  | Threw m => False
  | Suspended a =>
      a = AwaitCreate retryCount /\ availableBrowsers (pool w') = []
      /\ Z.of_nat (length (browsers (pool w'))) < poolSize (pool w)
      /\ waitingQueue (pool w') = waitingQueue (pool w)
  | Parked =>
      availableBrowsers (pool w') = []
      /\ poolSize (pool w) <= Z.of_nat (length (browsers (pool w')))
      /\ waitingQueue (pool w') = waitingQueue (pool w) ++ [Notify p]
      /\ p ∈ timers w'
  end
  /\ browsers (pool w') ⊆ browsers (pool w)
  /\ availableBrowsers (pool w') ⊆ availableBrowsers (pool w)
  /\ (forall x, x ∈ availableBrowsers (pool w) ->
        x ∈ availableBrowsers (pool w') \/ out = Returned x
        \/ isBrowserHealthy w x = false).
Proof.
  intros Hs H. pose proof (acquireBrowser_eq p retryCount w) as E. rewrite H in E.
  apply acquireBrowser_from_ends in E as (Hout & Hb & _ & Ha & Hx).
  split_and!; try done.
  destruct out as [b|m|a|].
  - by destruct Hout as (? & ? & _ & ? & _).
  - destruct Hout as (_ & ? & _). congruence.
  - by destruct Hout as (? & ? & ? & _ & ? & _).
  - destruct Hout as (? & ? & _ & ? & Ht). split_and!; try done.
    rewrite Ht. apply elem_of_union. right. by apply elem_of_singleton.
Qed.

(** A pool of two whose browsers are both available, the one on top having
    lost its connection. *)
Lemma acquire_takes_parks_or_creates_witness :
  let w := step (initialize (fun i => Some (10 + i)%nat) (new 2))
                (SetProbe 11%nat Disconnected) in
  isShuttingDown (pool w) = false
  /\ (acquireBrowser 0%nat 0 w).2 = Returned 10%nat
  /\ browsers (pool (acquireBrowser 0%nat 0 w).1) ⊆ browsers (pool w).
Proof.
  intros w.
  assert (Hs : isShuttingDown (pool w) = false) by reflexivity.
  split; [exact Hs|]. split; [vm_compute; reflexivity|].
  destruct (acquireBrowser 0%nat 0 w) as [w' out] eqn:E.
  destruct (acquire_takes_parks_or_creates 0%nat 0 w w' out Hs E) as (_ & Hb & _).
  exact Hb.
Defined.


(** *** Release followed by acquire *)

(** X3.  On a pool that is not shutting down and has nobody waiting, a
    healthy browser that is released is the one the next [acquireBrowser]
    call returns, and the pool is then exactly as it was before the release:
    the available browsers are handed out last in, first out. *)
Theorem release_then_acquire_returns_it
    (w : World) (b : Browser) (p : nat) (retryCount : Z) :
  isShuttingDown (pool w) = false ->
  isBrowserHealthy w b = true ->
  waitingQueue (pool w) = [] ->
  acquireBrowser p retryCount (releaseBrowser b w) = (w, Returned b).
Proof.
  destruct w as [[size bs av wq sd] pr tm aw pb cc cl np]. simpl.
  intros -> Hh ->. unfold releaseBrowser. simpl. rewrite Hh.
  unfold acquireBrowser. cbn [acquireBrowser_from pool availableBrowsers
    isShuttingDown with_pool set_available].
  unfold push. rewrite pop_snoc.
  match goal with |- context [isBrowserHealthy ?v b] =>
    replace (isBrowserHealthy v b) with true
      by (symmetry; rewrite <- Hh; by apply isBrowserHealthy_probes) end.
  done.
Qed.

(** A pool of one: the browser is taken, given back and taken again. *)
Lemma release_then_acquire_returns_it_witness :
  let w := step (initialize (fun _ => Some 10%nat) (new 1)) Acquire in
  isShuttingDown (pool w) = false
  /\ isBrowserHealthy w 10%nat = true
  /\ waitingQueue (pool w) = []
  /\ acquireBrowser 1%nat 0 (releaseBrowser 10%nat w) = (w, Returned 10%nat).
Proof.
  intros w.
  assert (H1 : isShuttingDown (pool w) = false) by reflexivity.
  assert (H2 : isBrowserHealthy w 10%nat = true) by reflexivity.
  assert (H3 : waitingQueue (pool w) = []) by reflexivity.
  split; [exact H1|]. split; [exact H2|]. split; [exact H3|].
  exact (release_then_acquire_returns_it w 10%nat 1%nat 0 H1 H2 H3).
Defined.

(** *** A promise is settled once *)

Lemma reject_all_keeps (l : list Callback) x w p0 y :
  promises w !! p0 = Some y ->
  promises (foldl (fun acc resolve => invoke resolve x acc) w l) !! p0 = Some y.
Proof.
  revert w. induction l as [|cb l IH]; intros w H; simpl; [done|].
  apply IH. by apply invoke_keeps.
Qed.

Lemma shutdown_promises w :
  promises (shutdown w)
  = promises (foldl (fun acc resolve => invoke resolve (Rejected shuttingDownMessage) acc)
                    (with_pool (set_shutting true) w) (waitingQueue (pool w))).
Proof.
  unfold shutdown, closeBrowsers, rejectWaiting. cbv zeta.
  change (promises (with_closing S ?v)) with (promises v).
  match goal with |- promises (foldl ?f ?a ?l) = _ =>
    destruct (close_all_frame l a) as (_ & _ & _ & ->) end.
  done.
Qed.

Lemma step_keeps_settled w e p x :
  promises w !! p = Some x -> promises (step w e) !! p = Some x.
Proof.
  intros Hp. destruct e as [|q b|q m|q|q|b| | |b s]; cbn [step].
  - destruct (acquireBrowser (nextPromise w) 0 (fresh_promise w)) as [w1 out] eqn:E.
    apply acquireBrowser_frame in E as (_ & E2 & _).
    unfold finish. simpl. destruct out; try (apply settle_keeps); simpl; by rewrite E2.
  - destruct (awaiting w !! q) as [[rc|ms rc]|]; try done.
    unfold finish. simpl. by apply settle_keeps.
  - destruct (awaiting w !! q) as [[rc|ms rc]|]; try done.
    unfold after_create, acquire_catch, finish.
    destruct (rc <? maxRetries); simpl; [done|]. by apply settle_keeps.
  - destruct (awaiting w !! q) as [[rc|ms rc]|]; try done.
    unfold after_delay.
    destruct (acquireBrowser q rc (with_awaiting (delete q) w)) as [w1 out] eqn:E.
    apply acquireBrowser_frame in E as (_ & E2 & _).
    unfold finish. simpl. destruct out; try (apply settle_keeps); simpl; by rewrite E2.
  - destruct (decide (q ∈ timers w)); [|done].
    unfold acquire_timeout. apply settle_keeps. by destruct (indexOf _ _).
  - unfold releaseBrowser.
    destruct (removeBrowser_frame b w) as (_ & E & _).
    destruct (isShuttingDown (pool w)); [by rewrite E|].
    destruct (isBrowserHealthy w b); [|by rewrite E].
    destruct (waitingQueue (pool w)); [done|]. by apply invoke_keeps.
  - rewrite shutdown_promises. by apply reject_all_keeps.
  - by destruct (closing w).
  - done.
Qed.

Lemma run_keeps_settled events w p x :
  promises w !! p = Some x -> promises (run events w) !! p = Some x.
Proof.
  revert w. induction events as [|e events IH]; intros w H; [done|].
  simpl. apply IH. by apply step_keeps_settled.
Qed.

(** *** [shutdown] and the parked calls *)

Lemma invoke_settles cb p x w :
  cb = Notify p \/ cb = Resolve p ->
  promises w !! p = None ->
  promises (invoke cb x w) !! p = Some x.
Proof.
  intros [Hcb|Hcb] Hp; subst cb; simpl; unfold settle; simpl; rewrite Hp; simpl;
    by rewrite lookup_insert_eq.
Qed.

Lemma reject_all_rejects (l : list Callback) x w p :
  Notify p ∈ l ->
  promises w !! p = None ->
  promises (foldl (fun acc resolve => invoke resolve x acc) w l) !! p = Some x.
Proof.
  revert w. induction l as [|cb l IH]; intros w Hin Hp; [by apply elem_of_nil in Hin|].
  simpl. apply elem_of_cons in Hin as [<-|Hin].
  - apply reject_all_keeps. apply invoke_settles; [by left | done].
  - destruct (promises (invoke cb x w) !! p) as [y|] eqn:E.
    + apply reject_all_keeps. by rewrite (invoke_lookup cb x w p y Hp E) in E.
    + by apply IH.
Qed.

Lemma invoke_timers cb x w :
  timers (invoke cb x w)
  = match cb with Notify p => timers w ∖ {[p]} | Resolve _ => timers w end.
Proof.
  destruct cb as [p|p]; simpl.
  - by destruct (settle_frame p x w) as (_ & _ & _ & ->).
  - by destruct (settle_frame p x (with_timers (fun t => t ∖ {[p]}) w))
      as (_ & _ & _ & ->).
Qed.

Lemma reject_all_timers (l : list Callback) x w q :
  q ∈ timers (foldl (fun acc resolve => invoke resolve x acc) w l) ->
  q ∈ timers w /\ Notify q ∉ l.
Proof.
  revert w. induction l as [|cb l IH]; intros w H; simpl in H.
  { split; [done | apply not_elem_of_nil]. }
  apply IH in H as [Hq Hl]. rewrite invoke_timers in Hq.
  destruct cb as [p|p].
  - split; [done|]. apply not_elem_of_cons. by split.
  - apply elem_of_difference in Hq as [Hq Hne]. split; [done|].
    apply not_elem_of_cons. split; [|done].
    intros [= ->]. apply Hne. by apply elem_of_singleton.
Qed.

Lemma close_all_timers (l : list Browser) w :
  timers (foldl (fun acc b =>
                   match probe acc b with
                   | Connected => with_closeCalls (push b) acc
                   | Disconnected => acc
                   | ProbeThrows => acc
                   end) w l) = timers w.
Proof.
  revert w. induction l as [|b l IH]; intros w; simpl; [done|].
  rewrite IH. by destruct (probe w b).
Qed.

Lemma shutdown_timers w q :
  q ∈ timers (shutdown w) -> q ∈ timers w /\ Notify q ∉ waitingQueue (pool w).
Proof.
  unfold shutdown, closeBrowsers, rejectWaiting. cbv zeta.
  change (timers (with_closing S ?v)) with (timers v).
  rewrite close_all_timers.
  change (timers (with_pool ?f ?v)) with (timers v).
  intros H. by apply reject_all_timers in H.
Qed.

(** X5.  [shutdown] rejects every call that is parked in [waitingQueue] and
    still pending with "Browser pool is shutting down", disarms its timer and
    empties the queue; the timer firing later changes nothing, and the call
    stays rejected whatever happens afterwards. *)
Theorem shutdown_rejects_every_parked_call
    (w : World) (p : nat) (events : list Event) :
  Notify p ∈ waitingQueue (pool w) ->
  promises w !! p = None ->
  promises (shutdown w) !! p = Some (Rejected shuttingDownMessage)
  /\ waitingQueue (pool (shutdown w)) = []
  /\ (p ∉ timers (shutdown w))
  /\ step (shutdown w) (TimerFired p) = shutdown w
  /\ promises (run events (shutdown w)) !! p = Some (Rejected shuttingDownMessage).
Proof.
  intros Hin Hp.
  assert (Hrej : promises (shutdown w) !! p = Some (Rejected shuttingDownMessage)).
  { rewrite shutdown_promises. by apply reject_all_rejects. }
  assert (Ht : p ∉ timers (shutdown w)).
  { intros H. by apply shutdown_timers in H as [_ H]. }
  split_and!; try done.
  - by rewrite shutdown_pool.
  - cbn [step]. by destruct (decide (p ∈ timers (shutdown w))).
  - by apply run_keeps_settled.
Qed.


(** A pool of one whose browser is out while a second call is parked. *)
Lemma shutdown_rejects_every_parked_call_witness :
  let w := run [Acquire; Acquire] (initialize (fun _ => Some 10%nat) (new 1)) in
  Notify 1 ∈ waitingQueue (pool w)
  /\ promises w !! 1%nat = None
  /\ promises (run [Release 10%nat; Acquire] (shutdown w)) !! 1%nat
     = Some (Rejected shuttingDownMessage).
Proof.
  intros w.
  assert (Hin : Notify 1 ∈ waitingQueue (pool w)) by (vm_compute; left).
  assert (Hp : promises w !! 1%nat = None) by (vm_compute; reflexivity).
  split; [exact Hin|]. split; [exact Hp|].
  destruct (shutdown_rejects_every_parked_call w 1%nat [Release 10%nat; Acquire] Hin Hp)
    as (_ & _ & _ & _ & H).
  exact H.
Defined.

(** *** [shutdown] and the browsers *)

Lemma close_all_calls (l : list Browser) w b :
  b ∈ closeCalls (foldl (fun acc b =>
                           match probe acc b with
                           | Connected => with_closeCalls (push b) acc
                           | Disconnected => acc
                           | ProbeThrows => acc
                           end) w l)
  <-> b ∈ closeCalls w \/ (b ∈ l /\ probe w b = Connected).
Proof.
  revert w. induction l as [|c l IH]; intros w; simpl.
  { split; [by left | intros [?|[?%elem_of_nil _]]; done]. }
  rewrite IH. clear IH. rewrite elem_of_cons.
  destruct (probe w c) eqn:Hc.
  - change (probe (with_closeCalls (push c) w) b) with (probe w b).
    change (closeCalls (with_closeCalls (push c) w)) with (closeCalls w ++ [c]).
    rewrite elem_of_app, list_elem_of_singleton. split.
    + intros [[?| ->]|[? ?]]; [by left | right; split; [by left | done] |
                               right; split; [by right | done]].
    + intros [?|[[-> | ?] ?]]; [left; by left | left; by right | by right].
  - split.
    + intros [?|[? ?]]; [by left | right; split; [by right | done]].
    + intros [?|[[-> | ?] ?]]; [by left | congruence | by right].
  - split.
    + intros [?|[? ?]]; [by left | right; split; [by right | done]].
    + intros [?|[[-> | ?] ?]]; [by left | congruence | by right].
Qed.

Lemma shutdown_closing w : closing (shutdown w) = S (closing w).
Proof.
  unfold shutdown, closeBrowsers, rejectWaiting. cbv zeta.
  change (closing (with_closing S ?v)) with (S (closing v)). f_equal.
  assert (Hclose : forall l a,
    closing (foldl (fun acc b =>
                      match probe acc b with
                      | Connected => with_closeCalls (push b) acc
                      | Disconnected => acc
                      | ProbeThrows => acc
                      end) a l) = closing a).
  { induction l as [|b l IH]; intros a; simpl; [done|].
    rewrite IH. by destruct (probe a b). }
  assert (Hrej : forall l a,
    closing (foldl (fun acc resolve =>
                      invoke resolve (Rejected shuttingDownMessage) acc) a l)
    = closing a).
  { induction l as [|cb l IH]; intros a; simpl; [done|].
    rewrite IH. destruct cb as [q|q]; simpl; unfold settle;
      by match goal with |- context [promises ?v !! q] =>
           destruct (promises v !! q) end. }
  rewrite Hclose. change (closing (with_pool ?f ?v)) with (closing v).
  by rewrite Hrej.
Qed.

(** X6.  [shutdown] calls [close()] on exactly the browsers of the pool that
    report connected, in use or not, and on no other; the browsers stay
    listed while the closes are awaited, and once they have settled
    [browsers], [availableBrowsers] and [waitingQueue] are empty and the pool
    is marked as shutting down. *)
Theorem shutdown_closes_the_connected_browsers (w : World) :
  (forall b, b ∈ closeCalls (shutdown w) <->
             b ∈ closeCalls w
             \/ (b ∈ browsers (pool w) /\ probe w b = Connected))
  /\ browsers (pool (shutdown w)) = browsers (pool w)
  /\ closing (shutdown w) = S (closing w)
  /\ pool (step (shutdown w) ShutdownClosed)
     = mkPool (poolSize (pool w)) [] [] [] true.
Proof.
  split_and!.
  - intros b. unfold shutdown, closeBrowsers, rejectWaiting. cbv zeta.
    change (closeCalls (with_closing S ?v)) with (closeCalls v).
    rewrite close_all_calls.
    change (browsers (pool (with_pool (set_waiting []) ?v))) with (browsers (pool v)).
    change (closeCalls (with_pool ?f ?v)) with (closeCalls v).
    change (probe (with_pool ?f ?v) b) with (probe v b).
    assert (Hfold : forall l a,
      let a' := foldl (fun acc resolve =>
                         invoke resolve (Rejected shuttingDownMessage) acc) a l in
      closeCalls a' = closeCalls a /\ probes a' = probes a /\ pool a' = pool a).
    { induction l as [|cb l IH]; intros a; simpl; [done|].
      destruct (IH (invoke cb (Rejected shuttingDownMessage) a)) as (-> & -> & ->).
      destruct (invoke_frame cb (Rejected shuttingDownMessage) a) as (-> & -> & _).
      split; [|done]. destruct cb as [q|q]; simpl; unfold settle;
        by match goal with |- context [promises ?v !! q] =>
             destruct (promises v !! q) end. }
    match goal with |- context [foldl ?f ?a ?l] =>
      destruct (Hfold l a) as (Hc & Hp & Hq) end.
    unfold probe. rewrite Hc, Hp, Hq. done.
  - by rewrite shutdown_pool.
  - apply shutdown_closing.
  - cbn [step]. rewrite shutdown_closing.
    unfold shutdown_finish.
    change (pool (with_closing Nat.pred (with_pool ?f ?v))) with (f (pool v)).
    by rewrite shutdown_pool.
Qed.


(** *** The timer of a call that was served *)



(** *** What can add a browser *)

(** X8.  The pool gains a browser only when a creation succeeds, and a
    browser becomes available only through a release: every other event
    leaves [browsers], respectively [availableBrowsers], with no browser it
    did not hold before.  A successful creation adds exactly the new browser
    at the end of [browsers] and makes nothing available. *)
Theorem only_creation_adds_a_browser (w : World) (e : Event) :
  ((forall p b, e <> Created p b) ->
     browsers (pool (step w e)) ⊆ browsers (pool w))
  /\ ((forall b, e <> Release b) ->
        availableBrowsers (pool (step w e)) ⊆ availableBrowsers (pool w))
  /\ (forall p b retryCount,
        e = Created p b -> awaiting w !! p = Some (AwaitCreate retryCount) ->
        browsers (pool (step w e)) = browsers (pool w) ++ [b])
  /\ (forall b, e = Release b ->
        browsers (pool (step w e)) ⊆ browsers (pool w)
        /\ availableBrowsers (pool (step w e)) ⊆ availableBrowsers (pool w) ++ [b]).
Proof.
  assert (Hacq : forall p rc v,
            browsers (pool (finish p (acquireBrowser p rc v))) ⊆ browsers (pool v)
            /\ availableBrowsers (pool (finish p (acquireBrowser p rc v)))
               ⊆ availableBrowsers (pool v)).
  { intros p rc v. rewrite finish_pool.
    pose proof (acquireBrowser_eq p rc v) as E.
    destruct (acquireBrowser p rc v) as [v1 out].
    apply acquireBrowser_from_ends in E as (_ & Hb & _ & Ha & _). done. }
  assert (Hrel : forall b,
            browsers (pool (releaseBrowser b w)) ⊆ browsers (pool w)
            /\ availableBrowsers (pool (releaseBrowser b w))
               ⊆ availableBrowsers (pool w) ++ [b]).
  { intros b. unfold releaseBrowser.
    destruct (removeBrowser_frame b w) as (_ & _ & _ & _ & _ & _ & _ & Eb & Ea).
    assert (Hrm : browsers (pool (removeBrowser b w)) ⊆ browsers (pool w)
                  /\ availableBrowsers (pool (removeBrowser b w))
                     ⊆ availableBrowsers (pool w) ++ [b]).
    { rewrite Eb, Ea. split; [apply removeFirst_subseteq|].
      intros x Hx. apply elem_of_app. left. by apply (removeFirst_subseteq b). }
    destruct (isShuttingDown (pool w)); [done|].
    destruct (isBrowserHealthy w b); [|done].
    destruct (waitingQueue (pool w)) as [|cb rest].
    - simpl. done.
    - destruct (invoke_frame cb (Fulfilled b) (with_pool (set_waiting rest) w))
        as (-> & _). simpl. split; [done|].
      intros x Hx. apply elem_of_app. by left. }
  split_and!.
  - intros Hne. destruct e as [|p b|p m|p|p|b| | |b s]; cbn [step].
    + exact (proj1 (Hacq (nextPromise w) 0 (fresh_promise w))).
    + by destruct (Hne p b).
    + destruct (awaiting w !! p) as [[rc|ms rc]|]; try done.
      rewrite finish_pool. unfold after_create. by destruct (rc <? maxRetries).
    + destruct (awaiting w !! p) as [[rc|ms rc]|]; try done.
      unfold after_delay. exact (proj1 (Hacq p rc (with_awaiting (delete p) w))).
    + destruct (decide (p ∈ timers w)); [|done]. unfold acquire_timeout.
      match goal with |- context [settle p ?x ?v] =>
        destruct (settle_frame p x v) as (-> & _) end.
      by destruct (indexOf _ _).
    + apply (proj1 (Hrel b)).
    + by rewrite shutdown_pool.
    + destruct (closing w); [done|]. simpl. apply list_subseteq_nil.
    + done.
  - intros Hne. destruct e as [|p b|p m|p|p|b| | |b s]; cbn [step].
    + exact (proj2 (Hacq (nextPromise w) 0 (fresh_promise w))).
    + destruct (awaiting w !! p) as [[rc|ms rc]|]; try done.
      by rewrite finish_pool.
    + destruct (awaiting w !! p) as [[rc|ms rc]|]; try done.
      rewrite finish_pool. unfold after_create. by destruct (rc <? maxRetries).
    + destruct (awaiting w !! p) as [[rc|ms rc]|]; try done.
      unfold after_delay. exact (proj2 (Hacq p rc (with_awaiting (delete p) w))).
    + destruct (decide (p ∈ timers w)); [|done]. unfold acquire_timeout.
      match goal with |- context [settle p ?x ?v] =>
        destruct (settle_frame p x v) as (-> & _) end.
      by destruct (indexOf _ _).
    + by destruct (Hne b).
    + by rewrite shutdown_pool.
    + destruct (closing w); [done|]. simpl. apply list_subseteq_nil.
    + done.
  - intros p b rc -> Hp. cbn [step]. rewrite Hp. by rewrite finish_pool.
  - intros b ->. apply Hrel.
Qed.

(** A pool of two with one browser: a caller starts a creation and it
    succeeds. *)
Lemma only_creation_adds_a_browser_witness :
  let w := step (initialize (fun i => if (i =? 0)%nat then Some 10%nat else None) (new 2))
                Acquire in
  let w' := step w Acquire in
  awaiting w' !! 1%nat = Some (AwaitCreate 0)
  /\ browsers (pool (step w' (Created 1%nat 11%nat))) = browsers (pool w') ++ [11%nat]
  /\ browsers (pool (step w' Shutdown)) ⊆ browsers (pool w').
Proof.
  intros w w'.
  assert (Ha : awaiting w' !! 1%nat = Some (AwaitCreate 0)) by (vm_compute; reflexivity).
  split; [exact Ha|].
  destruct (only_creation_adds_a_browser w' (Created 1%nat 11%nat)) as (_ & _ & H & _).
  destruct (only_creation_adds_a_browser w' Shutdown) as (H' & _).
  split; [exact (H 1%nat 11%nat 0 eq_refl Ha) | apply H'; discriminate].
Defined.


(** *** A caller alone with the pool *)

Lemma total_backoff (i : nat) :
  0 <= foldr Z.add 0 (take i [2000; 4000; 8000]) <= 14000.
Proof. destruct i as [|[|[|[|i]]]]; vm_compute; split; discriminate. Qed.

Lemma alone_parked fuel launch p k zs w :
  acquire_alone_from (S fuel) launch p k zs (w, Parked)
  = Some (mkObserved w Parked zs k).
Proof. reflexivity. Qed.

(** From the moment a creation is started in a pool with room. *)
Lemma alone_rounds launch p w fuel :
  isShuttingDown (pool w) = false ->
  availableBrowsers (pool w) = [] ->
  Z.of_nat (length (browsers (pool w))) < poolSize (pool w) ->
  (6 <= fuel)%nat ->
  exists o,
    acquire_alone_from fuel launch p 0 [] (w, Suspended (AwaitCreate 0)) = Some o
    /\ ((exists b, outcome o = Returned b
                   /\ browsers (pool (final o)) = browsers (pool w) ++ [b])
        \/ (exists m, outcome o = Threw m /\ final o = w))
    /\ (1 <= launched o <= 12)%nat
    /\ 0 <= Reading.total (slept o) <= 48000.
Proof.
  intros Hs Ha Hroom Hfuel.
  do 6 (destruct fuel as [|fuel]; [lia|]). clear Hfuel.
  assert (Henter : forall rc, acquireBrowser p rc w = (w, Suspended (AwaitCreate rc))).
  { intros rc. by apply acquireBrowser_room. }
  destruct (createBrowser_cases launch 0)
    as [(i & b & Hi & Hl & Hc)|(m & _ & _ & Hc)];
    rewrite (alone_create _ _ _ _ _ _ _ _ _ _ Hc).
  { cbn [after_create]. rewrite alone_returned. eexists. split; [done|]. simpl.
    pose proof (total_backoff i). unfold Reading.total. simpl.
    split_and!; [left; by eexists | lia | lia | lia | lia]. }
  change (after_create 0 (inr (createFailedPrefix +:+ m)) w)
    with (w, Suspended (AwaitDelay 3000 1)).
  rewrite alone_delay. unfold after_delay. rewrite Henter.
  destruct (createBrowser_cases launch 4)
    as [(i & b & Hi & Hl & Hc')|(m' & _ & _ & Hc')];
    rewrite (alone_create _ _ _ _ _ _ _ _ _ _ Hc').
  { cbn [after_create]. rewrite alone_returned. eexists. split; [done|]. simpl.
    pose proof (total_backoff i). unfold Reading.total. simpl.
    split_and!; [left; by eexists | lia | lia | lia | lia]. }
  change (after_create 1 (inr (createFailedPrefix +:+ m')) w)
    with (w, Suspended (AwaitDelay 3000 2)).
  rewrite alone_delay. unfold after_delay. rewrite Henter.
  destruct (createBrowser_cases launch 8)
    as [(i & b & Hi & Hl & Hc'')|(m'' & _ & _ & Hc'')];
    rewrite (alone_create _ _ _ _ _ _ _ _ _ _ Hc'').
  { cbn [after_create]. rewrite alone_returned. eexists. split; [done|]. simpl.
    pose proof (total_backoff i). unfold Reading.total. simpl.
    split_and!; [left; by eexists | lia | lia | lia | lia]. }
  match goal with |- context [after_create 2 (inr ?x) w] =>
    change (after_create 2 (inr x) w)
      with (w, Threw (acquireFailedPrefix +:+ x)) end.
  rewrite alone_threw. eexists. split; [done|]. simpl.
  split_and!; [right; by eexists | lia | lia | done | done].
Qed.

(** X9.  A call of [acquireBrowser()] that is alone with the pool, whatever
    state the pool is in, never stays suspended: it returns a browser, throws,
    or is parked in the waiting queue.  It launches at most twelve times and
    sleeps at most 48 seconds in all between launches; a parked call has
    launched nothing.  It leaves [browsers] no longer than the larger of
    [poolSize] and its length before the call. *)
Theorem lone_caller_settles_within_capacity
    (launch : nat -> Browser + string) (p : nat) (w : World) (fuel : nat) :
  (6 <= fuel)%nat ->
  exists o,
    acquire_alone fuel launch p w = Some o
    /\ match outcome o with Suspended _ => False | _ => True end
    /\ (launched o <= 12)%nat
    /\ 0 <= Reading.total (slept o) <= 48000
    /\ Z.of_nat (length (browsers (pool (final o))))
       <= Z.max (Z.of_nat (length (browsers (pool w)))) (poolSize (pool w))
    /\ (outcome o = Parked -> launched o = 0%nat /\ slept o = []).
Proof.
  intros Hfuel. unfold acquire_alone.
  pose proof (acquireBrowser_eq p 0 w) as E.
  destruct (acquireBrowser p 0 w) as [w1 out] eqn:Hacq.
  pose proof (acquireBrowser_frame _ _ _ _ _ Hacq) as (_ & _ & _ & Hflag & Hsize & _).
  apply acquireBrowser_from_ends in E as (Hout & _ & Hlen & _).
  destruct fuel as [|fuel']; [lia|].
  destruct out as [b|m|a|].
  - rewrite alone_returned. eexists. split; [done|]. simpl.
    split_and!; try done; lia.
  - rewrite alone_threw. eexists. split; [done|]. simpl.
    split_and!; try done; lia.
  - destruct Hout as (-> & Hav & Hroom & Hs & _).
    destruct (alone_rounds launch p w1 (S fuel')) as (o & -> & Hres & Hl & Ht).
    + by rewrite Hflag.
    + done.
    + by rewrite Hsize.
    + done.
    + exists o. split; [done|].
      destruct Hres as [(b & Ho & Hb)|(m & Ho & Hf)]; rewrite Ho.
      * split_and!; try done; try lia.
        rewrite Hb, length_app. simpl. lia.
      * split_and!; try done; try lia. rewrite Hf. lia.
  - rewrite alone_parked. eexists. split; [done|]. simpl.
    split_and!; try done; lia.
Qed.

(** A full pool of one whose browser has lost its connection, and launches
    that fail five times before one works. *)
Lemma lone_caller_settles_within_capacity_witness :
  let w := step (initialize (fun _ => Some 10%nat) (new 1))
                (SetProbe 10%nat Disconnected) in
  let launch := fun k : nat => if (k <? 5)%nat then inr "spawn failed" else inl 11%nat in
  (6 <= 6)%nat
  /\ exists o, acquire_alone 6 launch 0%nat w = Some o
               /\ Z.of_nat (length (browsers (pool (final o))))
                  <= Z.max (Z.of_nat (length (browsers (pool w)))) (poolSize (pool w)).
Proof.
  intros w launch.
  assert (H : (6 <= 6)%nat) by lia.
  split; [exact H|].
  destruct (lone_caller_settles_within_capacity launch 0%nat w 6 H)
    as (o & Ho & _ & _ & _ & Hb & _).
  exists o. split; [exact Ho | exact Hb].
Defined.

End PoolMore.

(** ** RequestQueue, further properties *)

Module QueueMore.
Import JsArray JsArrayFacts RequestQueue QueueFacts Ledger.

Lemma processQueue_accounted w :
  dispatched w ++ queue (rq w) = seq 0 (nextRequest w) ->
  NoDup (inFlight w) ->
  (forall t, t ∈ inFlight w -> t ∈ dispatched w /\ settled w !! t = None) ->
  (forall t, is_Some (settled w !! t) -> t ∈ dispatched w) ->
  (forall t, t ∈ dispatched w -> t ∈ inFlight w \/ is_Some (settled w !! t)) ->
  ((length (queue (rq w)) <= 1)%nat \/ maxConcurrent (rq w) <= running (rq w) + 1) ->
  accounted (processQueue w).
Proof.
  intros Hfifo Hnd Hin Hset Hall Hbusy. unfold processQueue.
  destruct (Z.geb_spec (running (rq w)) (maxConcurrent (rq w))) as [Hge|Hlt]; simpl.
  { unfold accounted. split_and!; try done; try (intros _; lia). }
  case_bool_decide as Hempty.
  { unfold accounted. split_and!; try done;
      try (intros Hq; destruct (queue (rq w)); done). }
  destruct (queue (rq w)) as [|t rest] eqn:Hq; [done|].
  assert (Hseq : NoDup (dispatched w ++ t :: rest)).
  { rewrite Hfifo. apply NoDup_seq. }
  apply NoDup_app in Hseq as (Hd & Hdisj & _).
  assert (Ht : t ∉ dispatched w).
  { intros Hin'. apply (Hdisj t Hin'). left. }
  assert (Ht' : t ∉ inFlight w).
  { intros Hin'. by apply Hin in Hin' as [? _]. }
  unfold accounted, push. simpl. split_and!.
  - by rewrite <- app_assoc.
  - apply NoDup_app. split_and!; [done| |apply NoDup_singleton].
    intros x Hx ->%list_elem_of_singleton. done.
  - intros x. rewrite !elem_of_app, !list_elem_of_singleton. intros [Hx| ->].
    + destruct (Hin x Hx). split; [by left | done].
    + split; [by right|].
      destruct (settled w !! t) eqn:E; [|done].
      exfalso. apply Ht, Hset. by eexists.
  - intros x Hx. rewrite elem_of_app. left. by apply Hset.
  - intros x. rewrite !elem_of_app, !list_elem_of_singleton. intros [Hx| ->].
    + destruct (Hall x Hx) as [?|?]; [left; by left | by right].
    + left. by right.
  - intros Hrest. destruct Hbusy as [Hlen|Hmax]; [|lia].
    destruct rest; [done | simpl in Hlen; lia].
Qed.

Lemma step_accounted w e : accounted w -> accounted (step w e).
Proof.
  intros (Hfifo & Hnd & Hin & Hset & Hall & Hbusy).
  destruct e as [|t r]; cbn [step].
  - unfold addRequest. apply processQueue_accounted; cbn -[seq]; try done.
    + unfold push. by rewrite app_assoc, Hfifo, seq_S.
    + destruct (queue (rq w)) as [|t rest]; [left; simpl; lia|].
      right. specialize (Hbusy ltac:(done)). lia.
  - case_bool_decide as Ht; [|by unfold accounted].
    unfold handlerSettled. destruct (Hin t Ht) as [Htd Hts]. rewrite Hts.
    apply processQueue_accounted; simpl; try done.
    + by apply removeFirst_keeps_NoDup.
    + intros x Hx. apply removeFirst_elem in Hx as [Hx Hne]; [|done].
      destruct (Hin x Hx) as [? ?]. split; [done|].
      by rewrite lookup_insert_ne.
    + intros x. destruct (decide (t = x)) as [<-|Hne]; [done|].
      rewrite lookup_insert_ne by done. apply Hset.
    + intros x Hx. destruct (decide (t = x)) as [<-|Hne].
      * right. rewrite lookup_insert_eq. by eexists.
      * destruct (Hall x Hx) as [Hf|Hs].
        -- left. apply removeFirst_elem; [done|]. split; [done | congruence].
        -- right. by rewrite lookup_insert_ne.
    + destruct (queue (rq w)) as [|t' rest]; [left; simpl; lia|].
      right. specialize (Hbusy ltac:(done)). lia.
Qed.

Lemma run_accounted events limit : accounted (run events (new limit)).
Proof.
  assert (H0 : accounted (new limit)).
  { unfold accounted, new. simpl. split_and!; try done.
    - apply NoDup_nil_2.
    - intros t [x Hx]. by rewrite lookup_empty in Hx.
    - by intros t ?%elem_of_nil. }
  revert H0. generalize (new limit).
  induction events as [|e events IH]; intros w H; [done|].
  simpl. apply IH. by apply step_accounted.
Qed.

Lemma run_limit events w :
  maxConcurrent (rq (run events w)) = maxConcurrent (rq w).
Proof.
  revert w. induction events as [|e events IH]; intros w; [done|].
  simpl. rewrite IH. apply step_limit.
Qed.

(** X10.  The queue is work conserving: in every run, for any limit, a
    request is waiting only while [running] has reached [maxConcurrent].
    In the words of [getStats()]: whenever it reports [queued > 0] it reports
    [running >= maxConcurrent]; and with a positive limit, [running = 0]
    comes with [queued = 0]. *)
Theorem requests_wait_only_when_all_slots_are_taken
    (limit : Z) (events : list Event) :
  let w := run events (new limit) in
  let stats := Stats.queueStats w in
  Stats.maxConcurrent stats = limit
  /\ ((0 < Stats.queued stats)%nat -> limit <= Stats.running stats)
  /\ (0 < limit -> Stats.running stats = 0 -> Stats.queued stats = 0%nat)
  /\ (queue (rq w) <> [] -> limit <= running (rq w)).
Proof.
  intros w stats.
  destruct (run_accounted events limit) as (_ & _ & _ & _ & _ & Hbusy).
  pose proof (run_limit events (new limit)) as Hmax. simpl in Hmax.
  fold w in Hbusy, Hmax. subst stats. unfold Stats.queueStats. simpl.
  rewrite Hmax in *.
  assert (Hq : (0 < length (queue (rq w)))%nat -> limit <= running (rq w)).
  { intros Hlen. apply Hbusy. intros E. rewrite E in Hlen. simpl in Hlen. lia. }
  split_and!; try done.
  intros Hpos Hrun. destruct (queue (rq w)) as [|t rest] eqn:E; [done|].
  simpl in Hq. specialize (Hq ltac:(lia)). lia.
Qed.

(** X11.  No request is lost or held twice: in every run, each request
    added so far is in exactly one place - waiting in [queue], in flight with
    its promise pending, or settled - and a number not yet handed out is in
    none of them. *)
Theorem every_request_is_accounted_for
    (limit : Z) (events : list Event) (t : nat) :
  let w := run events (new limit) in
  ((t < nextRequest w)%nat ->
     ((t ∈ queue (rq w)) /\ (t ∉ inFlight w) /\ settled w !! t = None)
     \/ ((t ∉ queue (rq w)) /\ (t ∈ inFlight w) /\ settled w !! t = None)
     \/ ((t ∉ queue (rq w)) /\ (t ∉ inFlight w) /\ is_Some (settled w !! t)))
  /\ ((nextRequest w <= t)%nat ->
        (t ∉ queue (rq w)) /\ (t ∉ inFlight w) /\ settled w !! t = None).
Proof.
  intros w.
  destruct (run_accounted events limit) as (Hfifo & Hnd & Hin & Hset & Hall & _).
  fold w in Hfifo, Hnd, Hin, Hset, Hall.
  assert (Hseq : NoDup (dispatched w ++ queue (rq w))).
  { rewrite Hfifo. apply NoDup_seq. }
  apply NoDup_app in Hseq as (_ & Hdisj & _).
  assert (Hmem : forall x, x ∈ dispatched w \/ x ∈ queue (rq w)
                           <-> (x < nextRequest w)%nat).
  { intros x. rewrite <- elem_of_app, Hfifo, elem_of_seq. lia. }
  split.
  - intros Hlt. apply Hmem in Hlt as [Hd|Hq].
    + assert (Hnq : t ∉ queue (rq w)) by (by apply Hdisj).
      destruct (Hall t Hd) as [Hf|Hs].
      * right. left. destruct (Hin t Hf). done.
      * right. right. split_and!; try done.
        intros Hf. destruct (Hin t Hf) as [_ E]. rewrite E in Hs. by destruct Hs.
    + assert (Hnd' : t ∉ dispatched w).
      { intros Hd. by apply (Hdisj t Hd). }
      left. split_and!; try done.
      * intros Hf. by destruct (Hin t Hf).
      * destruct (settled w !! t) eqn:E; [|done].
        exfalso. apply Hnd', Hset. by eexists.
  - intros Hge.
    assert (Hnq : t ∉ queue (rq w)).
    { intros Hq. assert (t < nextRequest w)%nat by (apply Hmem; by right). lia. }
    assert (Hndp : t ∉ dispatched w).
    { intros Hd. assert (t < nextRequest w)%nat by (apply Hmem; by left). lia. }
    split_and!; try done.
    + intros Hf. by destruct (Hin t Hf).
    + destruct (settled w !! t) eqn:E; [|done].
      exfalso. apply Hndp, Hset. by eexists.
Qed.

(** X12.  With [maxConcurrent] zero or negative no handler is ever called:
    every request stays in [queue], in arrival order, and no promise is ever
    settled. *)
Theorem nonpositive_limit_starves_the_queue (limit : Z) (events : list Event) :
  limit <= 0 ->
  let w := run events (new limit) in
  dispatched w = []
  /\ inFlight w = []
  /\ running (rq w) = 0
  /\ queue (rq w) = seq 0 (nextRequest w)
  /\ settled w = ∅.
Proof.
  intros Hlimit w. subst w.
  assert (Hgen : forall v,
    maxConcurrent (rq v) <= 0 -> dispatched v = [] -> inFlight v = [] ->
    running (rq v) = 0 -> queue (rq v) = seq 0 (nextRequest v) -> settled v = ∅ ->
    let v' := run events v in
    dispatched v' = [] /\ inFlight v' = [] /\ running (rq v') = 0
    /\ queue (rq v') = seq 0 (nextRequest v') /\ settled v' = ∅).
  { induction events as [|e events IH]; intros v Hm Hd Hf Hr Hq Hs; [done|].
    simpl. destruct e as [|t r]; cbn [step].
    - unfold addRequest, processQueue. cbn -[seq]. rewrite Hr.
      destruct (Z.geb_spec 0 (maxConcurrent (rq v))); [|lia]. simpl.
      apply IH; cbn -[seq]; try done.
      unfold push. by rewrite Hq, seq_S.
    - rewrite Hf. rewrite bool_decide_eq_false_2 by apply not_elem_of_nil.
      by apply IH. }
  by apply Hgen.
Qed.

(** Three requests into a queue with no slot. *)
Lemma nonpositive_limit_starves_the_queue_witness :
  0 <= 0
  /\ queue (rq (run [AddRequest; AddRequest; AddRequest] (new 0))) = [0; 1; 2]%nat
  /\ dispatched (run [AddRequest; AddRequest; AddRequest] (new 0)) = [].
Proof.
  assert (H : 0 <= 0) by lia.
  destruct (nonpositive_limit_starves_the_queue 0 [AddRequest; AddRequest; AddRequest] H)
    as (Hd & _ & _ & Hq & _).
  split; [exact H|]. split; [exact Hq | exact Hd].
Defined.

End QueueMore.

(** ** SimpleCache, further properties *)

Module CacheMore.
Import SimpleCache.

Lemma size_lookup {V : Type} (c : Cache V) (now : Z) (k : string) (item : Item V) :
  cache (size now c).2 !! k = Some item
  <-> cache c !! k = Some item /\ now <= expiresAt item.
Proof.
  unfold size. simpl. rewrite map_lookup_filter_Some. simpl. split.
  - intros [? ?]. split; [done | lia].
  - intros [? ?]. split; [done | lia].
Qed.

(** X13.  [size()] removes exactly the expired items and returns the number
    of those that are left; it never reports more than the map held, it does
    not change what any [get] made at the same time returns, and a second
    [size()] at the same time changes nothing. *)
Theorem size_sweeps_the_expired_items {V : Type} (c : Cache V) (now : Z) :
  let r := size now c in
  (forall k item, cache r.2 !! k = Some item <->
                  cache c !! k = Some item /\ now <= expiresAt item)
  /\ r.1 = base.size (cache r.2)
  /\ (r.1 <= base.size (cache c))%nat
  /\ ttl r.2 = ttl c
  /\ (forall k, (get now k r.2).1 = (get now k c).1)
  /\ size now r.2 = r.
Proof.
  intros r. subst r. split_and!.
  - intros k item. apply size_lookup.
  - done.
  - unfold size. simpl. apply map_subseteq_size, map_filter_subseteq.
  - done.
  - intros k. unfold get.
    destruct (cache c !! k) as [item|] eqn:E.
    + destruct (Z.gtb_spec now (expiresAt item)) as [Hexp|Hlive].
      * destruct (cache (size now c).2 !! k) as [item'|] eqn:E'; [|done].
        apply size_lookup in E' as [E' ?]. rewrite E in E'. injection E' as <-. lia.
      * assert (E' : cache (size now c).2 !! k = Some item)
          by (apply size_lookup; split; [done | lia]).
        rewrite E'. by destruct (Z.gtb_spec now (expiresAt item)); [lia|].
    + destruct (cache (size now c).2 !! k) as [item'|] eqn:E'; [|done].
      apply size_lookup in E' as [E' ?]. congruence.
  - unfold size. simpl.
    assert (Hid : filter (fun kv : string * Item V => ¬ now > expiresAt kv.2)
                         (filter (fun kv : string * Item V => ¬ now > expiresAt kv.2)
                                 (cache c))
                  = filter (fun kv : string * Item V => ¬ now > expiresAt kv.2)
                           (cache c)).
    { apply map_filter_id. intros k item Hk.
      by apply map_lookup_filter_Some in Hk as [_ H]. }
    by rewrite Hid.
Qed.

(** X14.  [set] replaces whatever was stored under its key, value and expiry
    alike, and touches no other key; after [clear()] every [get] misses and
    [size()] is 0. *)
Theorem set_replaces_only_its_key {V : Type}
    (c : Cache V) (t1 t2 now : Z) (k k' : string) (v1 v2 : V) :
  set t2 k v2 (set t1 k v1 c) = set t2 k v2 c
  /\ (k' <> k -> (get now k' (set t1 k v1 c)).1 = (get now k' c).1)
  /\ (get now k' (clear c)).1 = None
  /\ (size now (clear c)).1 = 0%nat
  /\ ttl (set t1 k v1 c) = ttl c
  /\ ttl (clear c) = ttl c.
Proof.
  split; [|split; [|split; [|split; [|split]]]].
  - unfold set. simpl. by rewrite insert_insert_eq.
  - intros Hne. unfold get, set. simpl. rewrite lookup_insert_ne by done.
    by destruct (cache c !! k') as [item|]; [destruct (now >? expiresAt item)|].
  - done.
  - unfold size, clear. simpl. by rewrite map_filter_empty, map_size_empty.
  - done.
  - done.
Qed.

(** X15.  A value stored at time [t] is returned by [get] exactly while the
    clock has not passed [t + ttl], that instant included; afterwards [get]
    misses and the key is gone.  So with a [ttl] of 0 a value can only be read
    in the millisecond it was stored, and with a negative [ttl] never. *)
Theorem value_is_served_until_its_expiry {V : Type}
    (c : Cache V) (t now : Z) (k : string) (v : V) :
  let r := get now k (set t k v c) in
  (r.1 = Some v <-> now <= t + ttl c)
  /\ (r.1 = None <-> t + ttl c < now)
  /\ (t + ttl c < now -> cache r.2 !! k = None)
  /\ (ttl c = 0 -> (get t k (set t k v c)).1 = Some v)
  /\ (ttl c < 0 -> t <= now -> r.1 = None).
Proof.
  intros r. subst r.
  assert (Hget : get now k (set t k v c)
                 = if now >? t + ttl c
                   then (None, mkCache (delete k (<[k := mkItem v (t + ttl c)]> (cache c)))
                                       (ttl c))
                   else (Some v, set t k v c)).
  { unfold get, set. simpl. by rewrite lookup_insert_eq. }
  rewrite Hget.
  destruct (Z.gtb_spec now (t + ttl c)) as [Hexp|Hlive]; simpl.
  - split_and!.
    + split; [done | lia].
    + done.
    + intros _. apply lookup_delete_eq.
    + intros Hz. unfold get, set. simpl. rewrite lookup_insert_eq. simpl.
      by destruct (Z.gtb_spec t (t + ttl c)); [lia|].
    + done.
  - split_and!.
    + done.
    + split; [done | lia].
    + lia.
    + intros Hz. unfold get, set. simpl. rewrite lookup_insert_eq. simpl.
      by destruct (Z.gtb_spec t (t + ttl c)); [lia|].
    + lia.
Qed.

End CacheMore.

(** ** MemoryMonitor *)

Module MemoryFacts.
Import MemoryMonitor.

(** X16.  The check at the top of the route runs a collection only when
    [global.gc] exists, the heap is above the threshold and more than 30 s
    have passed since [lastGC]; it then records the time, and for the next
    30 s [shouldGC()] is false whatever the heap usage.  A monitor is also
    silent for the first 30 s after its construction.  Without [global.gc]
    nothing is recorded, so the check keeps asking for a collection on every
    later request while the heap stays above the threshold. *)
Theorem collection_is_debounced
    (m : Monitor) (gc : bool) (heapUsed now now' : Z) :
  let r := checkMemory gc heapUsed now now' m in
  (r.2 = true <->
     gc = true /\ threshold m < heapUsed /\ lastGC m + 30000 < now)
  /\ (r.2 = true ->
        lastGC r.1 = now'
        /\ forall h t, t <= now' + 30000 -> shouldGC h t r.1 = false)
  /\ (r.2 = false -> r.1 = m)
  /\ threshold r.1 = threshold m
  /\ (gc = false -> shouldGC heapUsed now m = true ->
        forall h t, threshold m < h -> now <= t -> shouldGC h t r.1 = true)
  /\ (forall limit t0 h t, t <= t0 + 30000 -> shouldGC h t (new limit t0) = false).
Proof.
  intros r. subst r. unfold checkMemory, shouldGC, forceGC.
  destruct (Z.gtb_spec heapUsed (threshold m)) as [Hh|Hh];
    destruct (Z.gtb_spec (now - lastGC m) 30000) as [Ht|Ht];
    destruct gc; simpl; split_and!; try done;
    try (split; [done | intros (? & ? & ?); (done || lia)]);
    try (split; [intros _; split_and!; (done || lia) | done]).
  all: try (intros _; split; [done|]; intros h t Hle;
            destruct (Z.gtb_spec (t - now') 30000); [lia | apply andb_false_r]).
  all: try (intros limit t0 h t Hle; simpl;
            destruct (Z.gtb_spec (t - t0) 30000); [lia | apply andb_false_r]).
  all: try (intros _ _ h t Hgt Hle;
            destruct (Z.gtb_spec h (threshold m)); [|lia];
            destruct (Z.gtb_spec (t - lastGC m) 30000); [done | lia]).
Qed.

End MemoryFacts.

(** ** Page load, further properties *)

Module PageMore.
Import PageLoad PageFacts Reading.

(** *** [dismissCookieConsent] *)

Lemma dismiss_loop_first page (pre post : list string) (s : string) :
  (forall x, x ∈ pre -> cookie page x <> Clickable) ->
  cookie page s = Clickable ->
  dismiss_loop page (pre ++ s :: post) = Val tt [Click s; Sleep 500].
Proof.
  intros Hpre Hs. induction pre as [|x pre IH]; simpl.
  - by rewrite Hs.
  - assert (Hx : cookie page x <> Clickable) by (apply Hpre; left).
    assert (IH' : dismiss_loop page (pre ++ s :: post) = Val tt [Click s; Sleep 500]).
    { apply IH. intros y Hy. apply Hpre. by right. }
    by destruct (cookie page x).
Qed.

Lemma dismiss_loop_none page (selectors : list string) :
  (forall x, x ∈ selectors -> cookie page x <> Clickable) ->
  dismiss_loop page selectors = Val tt [].
Proof.
  induction selectors as [|x l IH]; intros H; simpl; [done|].
  assert (Hx : cookie page x <> Clickable) by (apply H; left).
  assert (IH' : dismiss_loop page l = Val tt []).
  { apply IH. intros y Hy. apply H. by right. }
  by destruct (cookie page x).
Qed.

Lemma dismiss_loop_clicks page (selectors : list string) :
  exists tr,
    dismiss_loop page selectors = Val tt tr
    /\ (length (clicks tr) <= 1)%nat
    /\ (forall s, s ∈ clicks tr -> s ∈ selectors /\ cookie page s = Clickable)
    /\ sleep_total tr = 500 * Z.of_nat (length (clicks tr)).
Proof.
  induction selectors as [|x l IH]; simpl.
  { exists []. split_and!; try done.
    - simpl. lia.
    - intros s Hs. by apply elem_of_nil in Hs. }
  destruct IH as (tr & E & Hlen & Hin & Hsl).
  assert (Hskip : exists tr',
            dismiss_loop page l = Val tt tr'
            /\ (length (clicks tr') <= 1)%nat
            /\ (forall s, s ∈ clicks tr' -> s ∈ x :: l /\ cookie page s = Clickable)
            /\ sleep_total tr' = 500 * Z.of_nat (length (clicks tr'))).
  { exists tr. split_and!; try done.
    intros s Hs. destruct (Hin s Hs). split; [by right | done]. }
  destruct (cookie page x) eqn:Hx; try done.
  exists [Click x; Sleep 500]. split_and!; try done.
  intros s ->%list_elem_of_singleton. split; [left | done].
Qed.

(** X17.  [dismissCookieConsent] never throws and clicks at most one
    element: the first selector of the list, in list order, that yields a
    visible, clickable element - selectors whose lookup, visibility check or
    click throws are skipped like absent ones - followed by a 500 ms pause.
    With no such selector it does nothing. *)
Theorem cookie_consent_clicks_the_first_clickable (page : Page) :
  (forall pre s post,
     cookieSelectors = pre ++ s :: post ->
     (forall x, x ∈ pre -> cookie page x <> Clickable) ->
     cookie page s = Clickable ->
     dismissCookieConsent page = Val tt [Click s; Sleep 500])
  /\ ((forall x, x ∈ cookieSelectors -> cookie page x <> Clickable) ->
      dismissCookieConsent page = Val tt [])
  /\ (exists tr,
        dismissCookieConsent page = Val tt tr
        /\ (length (clicks tr) <= 1)%nat
        /\ (forall s, s ∈ clicks tr -> s ∈ cookieSelectors /\ cookie page s = Clickable)
        /\ sleep_total tr = 500 * Z.of_nat (length (clicks tr))).
Proof.
  unfold dismissCookieConsent. split_and!.
  - intros pre s post -> Hpre Hs. by rewrite dismiss_loop_first.
  - intros Hnone. by rewrite dismiss_loop_none.
  - destruct (dismiss_loop_clicks page cookieSelectors) as (tr & -> & H).
    by exists tr.
Qed.

(** *** [waitForContentStability] *)

Lemma trace_of_after {A} (pre : list Action) (r : Res A) :
  trace_of (after pre r) = pre ++ trace_of r.
Proof. by destruct r. Qed.

Lemma after_nil {A} (r : Res A) : after [] r = r.
Proof. by destruct r. Qed.

Lemma sleep_total_app (a b : list Action) :
  sleep_total (a ++ b) = sleep_total a + sleep_total b.
Proof.
  induction a as [|x a IH]; simpl; [lia|]. destruct x; lia.
Qed.

(** The message is logged only at the end of four equal positive samples in
    a row.  While the loop runs, [previousContent] is the sample before the
    current one and [stableCount + 1] samples up to it are equal. *)
Lemma stability_loop_log page ci n i prev sc :
  0 <= sc <= 2 ->
  (forall c, prev = Some c ->
     exists base, i = (base + S (Z.to_nat sc))%nat
       /\ (forall d, (d <= Z.to_nat sc)%nat ->
             contentLength page (base + d) = Resolves c)
       /\ (0 < sc -> 0 < c)) ->
  Log "DOM content stabilized" ∈ trace_of (stability_loop page ci n i prev sc) ->
  exists base c,
    0 < c /\ (base + 3 < i + n)%nat
    /\ (forall j, (i <= j <= base + 3)%nat -> exists v, contentLength page j = Resolves v)
    /\ forall d, (d <= 3)%nat -> contentLength page (base + d) = Resolves c.
Proof.
  revert i prev sc. induction n as [|n IH]; intros i prev sc Hsc Hinv Hlog.
  { simpl in Hlog. by apply elem_of_nil in Hlog. }
  cbn [stability_loop] in Hlog.
  destruct (contentLength page i) as [v|m] eqn:Ei; cbn [await bind throw] in Hlog.
  2:{ simpl in Hlog. by apply elem_of_nil in Hlog. }
  rewrite after_nil in Hlog.
  destruct (bool_decide (Some v = prev) && (v >? 0)) eqn:Ec.
  - apply andb_true_iff in Ec as [Hp Hv].
    apply bool_decide_eq_true in Hp. apply Z.gtb_lt in Hv.
    destruct (Hinv v (eq_sym Hp)) as (base & Hi & Hrun & _).
    destruct (sc + 1 >=? 3) eqn:E3.
    + apply Z.geb_le in E3. exists base, v.
      split; [done|]. split; [lia|]. split.
      * intros j Hj. exists v. by replace j with i by lia.
      * intros d Hd. destruct (decide (d = 3%nat)) as [->|Hne].
        -- rewrite <- Ei. f_equal. lia.
        -- apply Hrun. lia.
    + assert (Hlt : sc + 1 < 3) by (rewrite Z.geb_leb in E3; apply Z.leb_gt in E3; lia).
      cbn [emit bind] in Hlog. rewrite trace_of_after in Hlog.
      apply elem_of_cons in Hlog as [Hlog|Hlog]; [done|].
      destruct (IH (S i) (Some v) (sc + 1)) as (base' & c & Hc & Hb & Hres & Hfour);
        [lia | | done |].
      { intros c' [= <-]. exists base. split; [lia|]. split; [|done].
        intros d Hd. destruct (decide (d = S (Z.to_nat sc))) as [->|Hne].
        - rewrite <- Ei. f_equal. lia.
        - apply Hrun. lia. }
      exists base', c. split; [done|]. split; [lia|]. split; [|done].
      intros j Hj. destruct (decide (j = i)) as [->|Hne]; [by exists v|].
      apply Hres. lia.
  - cbn [emit bind] in Hlog. rewrite trace_of_after in Hlog.
    apply elem_of_cons in Hlog as [Hlog|Hlog]; [done|].
    destruct (IH (S i) (Some v) 0) as (base' & c & Hc & Hb & Hres & Hfour);
      [lia | | done |].
    { intros c' [= <-]. exists i. split; [simpl; lia|]. split; [|lia].
      intros d Hd. rewrite <- Ei. f_equal. simpl in Hd. lia. }
    exists base', c. split; [done|]. split; [lia|]. split; [|done].
    intros j Hj. destruct (decide (j = i)) as [->|Hne]; [by exists v|].
    apply Hres. lia.
Qed.

(** Four equal positive samples in a row, with every sample up to them
    delivered, make the loop log the message and stop. *)
Lemma stability_loop_finds page ci n i prev sc base c :
  0 < c -> 0 <= sc ->
  (base + 3 < i + n)%nat ->
  (forall j, (i <= j <= base + 3)%nat -> exists v, contentLength page j = Resolves v) ->
  (forall d, (d <= 3)%nat -> contentLength page (base + d) = Resolves c) ->
  ((i <= base)%nat
   \/ exists k, i = (base + 1 + k)%nat /\ (k <= 2)%nat /\ prev = Some c
                /\ Z.of_nat k <= sc) ->
  exists tr,
    stability_loop page ci n i prev sc = Val tt tr
    /\ Log "DOM content stabilized" ∈ tr.
Proof.
  intros Hc. revert i prev sc.
  induction n as [|n IH]; intros i prev sc Hsc Hb Hres Hfour Hpos.
  { exfalso. destruct Hpos as [?|(k & ? & ? & _)]; lia. }
  assert (Hi : (i <= base + 3)%nat) by (destruct Hpos as [?|(k & ? & ? & _)]; lia).
  destruct (Hres i ltac:(lia)) as [v Ei].
  cbn [stability_loop]. rewrite Ei. cbn [await bind]. rewrite after_nil.
  assert (Hgo : forall sc', 0 <= sc' ->
            ((S i <= base)%nat
             \/ exists k, S i = (base + 1 + k)%nat /\ (k <= 2)%nat /\ Some v = Some c
                          /\ Z.of_nat k <= sc') ->
            exists tr,
              (emit (SleepFor ci) ;;; stability_loop page ci n (S i) (Some v) sc') = Val tt tr
              /\ Log "DOM content stabilized" ∈ tr).
  { intros sc' Hsc' Hwhere.
    destruct (IH (S i) (Some v) sc') as (tr & E & Hin); [done | lia | | done | done |].
    { intros j Hj. apply Hres. lia. }
    cbn [emit bind]. rewrite E. eexists. split; [done|]. simpl.
    apply elem_of_cons. by right. }
  assert (Hfirst : (i <= base)%nat -> forall sc', 0 <= sc' ->
            (S i <= base)%nat
            \/ exists k, S i = (base + 1 + k)%nat /\ (k <= 2)%nat /\ Some v = Some c
                         /\ Z.of_nat k <= sc').
  { intros Hle sc' Hsc'. destruct (decide (i = base)) as [->|Hne]; [|left; lia].
    right. exists 0%nat. split; [lia|]. split; [lia|]. split; [|lia].
    specialize (Hfour 0%nat ltac:(lia)).
    replace (base + 0)%nat with base in Hfour by lia. congruence. }
  destruct (bool_decide (Some v = prev) && (v >? 0)) eqn:Ec.
  - destruct (sc + 1 >=? 3) eqn:E3.
    { eexists. split; [done|]. apply list_elem_of_singleton. done. }
    rewrite Z.geb_leb in E3. apply Z.leb_gt in E3.
    apply Hgo; [lia|].
    destruct Hpos as [Hle|(k & -> & Hk & Hp & Hle)]; [apply Hfirst; [done|lia]|].
    right. exists (S k). split; [lia|]. split; [lia|]. split; [|lia].
    specialize (Hfour (1 + k)%nat ltac:(lia)).
    replace (base + (1 + k))%nat with (base + 1 + k)%nat in Hfour by lia. congruence.
  - destruct Hpos as [Hle|(k & -> & Hk & Hp & Hle)].
    + apply Hgo; [lia|]. apply Hfirst; [done|lia].
    + exfalso.
      specialize (Hfour (1 + k)%nat ltac:(lia)).
      replace (base + (1 + k))%nat with (base + 1 + k)%nat in Hfour by lia.
      assert (v = c) as -> by congruence.
      apply andb_false_iff in Ec as [Ec|Ec].
      * apply bool_decide_eq_false in Ec. by rewrite Hp in Ec.
      * rewrite Z.gtb_ltb in Ec. apply Z.ltb_ge in Ec. lia.
Qed.

(** X18.  [waitForContentStability] never throws, and it logs "DOM content
    stabilized" exactly when, among its at most eight samples of the content
    length, four in a row are equal and positive and every sample up to the
    last of them was delivered: the first sample is compared with the empty
    string, so three equal samples are never enough. *)
Theorem stabilization_takes_four_equal_samples (page : Page) (timeout : Z) :
  exists tr,
    waitForContentStability page timeout = Val tt tr
    /\ (Log "DOM content stabilized" ∈ tr
        <-> exists base c,
              0 < c /\ (base + 3 < maxChecks)%nat
              /\ (forall j, (j <= base + 3)%nat ->
                    exists v, contentLength page j = Resolves v)
              /\ forall d, (d <= 3)%nat -> contentLength page (base + d) = Resolves c).
Proof.
  unfold waitForContentStability.
  set (ci := checkInterval timeout).
  assert (Hfwd : Log "DOM content stabilized"
                   ∈ trace_of (stability_loop page ci maxChecks 0 None 0) ->
                 exists base c,
                   0 < c /\ (base + 3 < maxChecks)%nat
                   /\ (forall j, (j <= base + 3)%nat ->
                         exists v, contentLength page j = Resolves v)
                   /\ forall d, (d <= 3)%nat ->
                        contentLength page (base + d) = Resolves c).
  { intros Hin.
    destruct (stability_loop_log page ci maxChecks 0 None 0)
      as (base & c & Hc & Hb & Hres & Hfour); [lia | done | done |].
    exists base, c. split; [done|]. split; [lia|]. split; [|done].
    intros j Hj. apply Hres. lia. }
  assert (Hbwd : (exists base c,
                   0 < c /\ (base + 3 < maxChecks)%nat
                   /\ (forall j, (j <= base + 3)%nat ->
                         exists v, contentLength page j = Resolves v)
                   /\ forall d, (d <= 3)%nat ->
                        contentLength page (base + d) = Resolves c) ->
                 exists tr,
                   stability_loop page ci maxChecks 0 None 0 = Val tt tr
                   /\ Log "DOM content stabilized" ∈ tr).
  { intros (base & c & Hc & Hb & Hres & Hfour).
    apply (stability_loop_finds page ci maxChecks 0 None 0 base c);
      [done | lia | lia | | done | left; lia].
    intros j Hj. apply Hres. lia. }
  destruct (stability_loop_quiet page ci maxChecks 0 None 0)
    as (tr & [E|[m E]] & _ & _).
  - exists tr. rewrite E in *. simpl in Hfwd. split; [done|]. split; [done|].
    intros H. destruct (Hbwd H) as (tr' & [= <-] & Hin). done.
  - rewrite E in *. simpl in Hfwd. eexists. split; [done|]. split.
    + intros Hin. apply Hfwd. simpl in Hin.
      apply elem_of_app in Hin as [Hin|Hin]; [done|].
      apply list_elem_of_singleton in Hin. done.
    + intros H. by destruct (Hbwd H) as (tr' & ? & _).
Qed.










(** *** [triggerLazyLoading] *)

#[local] Set Warnings "-inexact-float".

(** [k] passes of the loop: the position is below the bound before each of
    them and not below it after the last. *)
Lemma scroll_loop_steps sh vh (k : nat) :
  forall cur fuel,
    (k <= fuel)%nat ->
    (forall j, (j < k)%nat ->
       (position (vh * 0.8) cur j <? sh - vh)%float = true) ->
    (position (vh * 0.8) cur k <? sh - vh)%float = false ->
    scroll_loop fuel sh vh cur
    = Val tt (concat (replicate k [ScrollBy (vh * 0.8)%float; Sleep 800])).
Proof.
  induction k as [|k IH]; intros cur fuel Hf Hbelow Hpast.
  - by rewrite scroll_loop_done.
  - destruct fuel as [|fuel]; [lia|]. cbn [scroll_loop].
    rewrite (Hbelow 0%nat ltac:(lia) : (cur <? sh - vh)%float = true).
    rewrite (IH _ fuel); [done | lia | | done].
    intros j Hj. apply (Hbelow (S j)). lia.
Qed.

(** The loop is still running after [fuel] passes when the position stayed
    below the bound that long. *)
Lemma scroll_loop_runs sh vh (fuel : nat) :
  forall cur,
    (forall j, (j <= fuel)%nat ->
       (position (vh * 0.8) cur j <? sh - vh)%float = true) ->
    scroll_loop fuel sh vh cur
    = Running (concat (replicate fuel [ScrollBy (vh * 0.8)%float; Sleep 800])).
Proof.
  induction fuel as [|fuel IH]; intros cur Hbelow; cbn [scroll_loop];
    rewrite (Hbelow 0%nat ltac:(lia) : (cur <? sh - vh)%float = true); [done|].
  rewrite IH; [done|]. intros j Hj. apply (Hbelow (S j)). lia.
Qed.

#[local] Set Warnings "+inexact-float".

(** X20.  On a page with a body [triggerLazyLoading] scrolls by
    [innerHeight * 0.8] and waits 800 ms, once for every pass in which
    [currentPosition] - the sum of the steps so far, added up in doubles as
    the page does - is below [scrollHeight - innerHeight]; at the first
    position that is not below it, it scrolls to the top, waits one second
    and returns.  While the positions stay below the bound it keeps
    scrolling.  On a page of 9984 px behind 768 px this takes 16 steps, one
    more than the quotient of the heights suggests. *)
Theorem lazy_loading_scrolls_while_below_the_bottom
    (fuel : nat) (page : Page) (k : nat) :
  body page = Resolves tt ->
  (forall j, (j < k)%nat ->
     (position (scrollStep page) 0 j <? bottom page)%float = true) ->
  ((position (scrollStep page) 0 k <? bottom page)%float = false ->
   (k <= fuel)%nat ->
   triggerLazyLoading fuel page
   = Val tt (concat (replicate k [ScrollBy (scrollStep page); Sleep 800])
             ++ [ScrollTop; Sleep 1000]))
  /\ ((position (scrollStep page) 0 k <? bottom page)%float = true ->
      k = fuel ->
      triggerLazyLoading fuel page
      = Running (concat (replicate fuel [ScrollBy (scrollStep page); Sleep 800]))).
Proof.
  intros Hbody Hbelow. unfold triggerLazyLoading. rewrite Hbody.
  cbn [await bind]. rewrite after_nil.
  unfold scrollStep, bottom in *. split.
  - intros Hpast Hf. by rewrite (scroll_loop_steps _ _ k 0%float fuel Hf Hbelow Hpast).
  - intros Hk <-. rewrite (scroll_loop_runs _ _ k 0%float); [done|].
    intros j Hj. destruct (decide (j = k)) as [->|Hne]; [done|].
    apply Hbelow. lia.
Qed.

(** The tall page: fifteen steps of 614.4 px add up to a little less than
    9216 px in doubles, so a sixteenth follows. *)
Lemma lazy_loading_scrolls_while_below_the_bottom_witness :
  body tall_page = Resolves tt
  /\ (position (scrollStep tall_page) 0 15 <? bottom tall_page)%float = true
  /\ (position (scrollStep tall_page) 0 16 <? bottom tall_page)%float = false
  /\ triggerLazyLoading 16 tall_page
     = Val tt (concat (replicate 16 [ScrollBy (scrollStep tall_page); Sleep 800])
               ++ [ScrollTop; Sleep 1000]).
Proof.
  assert (Hbelow : forall j, (j < 16)%nat ->
            (position (scrollStep tall_page) 0 j <? bottom tall_page)%float = true).
  { intros j Hj.
    do 16 (destruct j as [|j]; [vm_compute; reflexivity|]). lia. }
  assert (Hpast : (position (scrollStep tall_page) 0 16 <? bottom tall_page)%float
                  = false) by (vm_compute; reflexivity).
  split; [reflexivity|]. split; [apply Hbelow; lia|]. split; [exact Hpast|].
  apply (proj1 (lazy_loading_scrolls_while_below_the_bottom 16 tall_page 16
                  eq_refl Hbelow)); [exact Hpast | lia].
Defined.

End PageMore.

(** ** The text behind the cache key *)

Module KeyMore.
Import Screenshot Reading.

Lemma append_nil (b : string) : EmptyString +:+ b = b.
Proof. reflexivity. Qed.

Lemma append_cons (x : Ascii.ascii) (a b : string) :
  String x a +:+ b = String x (a +:+ b).
Proof. reflexivity. Qed.

Lemma append_assoc (a b c : string) : a +:+ (b +:+ c) = (a +:+ b) +:+ c.
Proof.
  induction a as [|x a IH]; [done|]. rewrite !append_cons. f_equal. exact IH.
Qed.

Lemma has_underscore_append (s t : string) :
  has_underscore (s +:+ String underscore t) = true.
Proof.
  induction s as [|x s IH].
  - rewrite append_nil. done.
  - rewrite append_cons. simpl. rewrite IH. apply orb_true_r.
Qed.

(** What follows the last separator of a string is determined by it. *)
Lemma last_field_inj (s1 s2 t1 t2 : string) :
  has_underscore t1 = false -> has_underscore t2 = false ->
  (s1 +:+ separator) +:+ t1 = (s2 +:+ separator) +:+ t2 ->
  s1 = s2 /\ t1 = t2.
Proof.
  intros H1 H2. rewrite <- !append_assoc.
  change (separator +:+ t1) with (String underscore t1).
  change (separator +:+ t2) with (String underscore t2).
  revert s2. induction s1 as [|a s1 IH]; intros [|b s2] E;
    rewrite ?append_cons, ?append_nil in E.
  - by injection E as ->.
  - injection E as _ ->. by rewrite has_underscore_append in H1.
  - injection E as _ <-. by rewrite has_underscore_append in H2.
  - injection E as -> E. by destruct (IH s2 E) as [-> ->].
Qed.

Lemma fingerprint_joined (q : Query) :
  fingerprint q
  = ((((((((url q +:+ separator) +:+ orElse (width q) "1920") +:+ separator)
          +:+ orElse (height q) "1080") +:+ separator)
        +:+ fullPageFlag (fullPage q)) +:+ separator)
     +:+ orElse (type q) "png").
Proof.
  rewrite <- !append_assoc. reflexivity.
Qed.

Lemma fullPageFlag_plain (x : option string) :
  has_underscore (fullPageFlag x) = false.
Proof. unfold fullPageFlag. by destruct (bool_decide _). Qed.

(** X21.  When the width, height and type that go into the key hold no
    "_", the hashed text determines the request: two requests have the same
    text exactly when they agree on the url, on the width, height and type
    after defaulting, and on whether [fullPage] is "false".  The url itself
    may hold any number of "_". *)
Theorem key_text_determines_plain_requests (q1 q2 : Query) :
  plain_fields q1 = true ->
  plain_fields q2 = true ->
  fingerprint q1 = fingerprint q2
  <-> url q1 = url q2
      /\ orElse (width q1) "1920" = orElse (width q2) "1920"
      /\ orElse (height q1) "1080" = orElse (height q2) "1080"
      /\ fullPageFlag (fullPage q1) = fullPageFlag (fullPage q2)
      /\ orElse (type q1) "png" = orElse (type q2) "png".
Proof.
  unfold plain_fields. intros H1 H2.
  apply negb_true_iff, orb_false_iff in H1 as [H1 Ht1].
  apply orb_false_iff in H1 as [Hw1 Hh1].
  apply negb_true_iff, orb_false_iff in H2 as [H2 Ht2].
  apply orb_false_iff in H2 as [Hw2 Hh2].
  split.
  - rewrite !fingerprint_joined. intros E.
    apply last_field_inj in E as [E Ht]; [|done|done].
    apply last_field_inj in E as [E Hf]; [|apply fullPageFlag_plain..].
    apply last_field_inj in E as [E Hh]; [|done|done].
    apply last_field_inj in E as [E Hw]; [|done|done].
    done.
  - intros (Hu & Hw & Hh & Hf & Ht). unfold fingerprint.
    by rewrite Hu, Hw, Hh, Hf, Ht.
Qed.

(** Two requests for the same page, one with the defaults written out. *)
Lemma key_text_determines_plain_requests_witness :
  plain_fields (mkQuery "https://example.com/a_b" None None None None) = true
  /\ plain_fields (mkQuery "https://example.com/a_b" (Some "1920") (Some EmptyString)
                     (Some "true") (Some "png")) = true
  /\ fingerprint (mkQuery "https://example.com/a_b" None None None None)
     = fingerprint (mkQuery "https://example.com/a_b" (Some "1920") (Some EmptyString)
                      (Some "true") (Some "png")).
Proof.
  assert (H1 : plain_fields (mkQuery "https://example.com/a_b" None None None None)
               = true) by reflexivity.
  assert (H2 : plain_fields (mkQuery "https://example.com/a_b" (Some "1920") (Some EmptyString)
                               (Some "true") (Some "png")) = true) by reflexivity.
  split; [exact H1|]. split; [exact H2|].
  apply (proj2 (key_text_determines_plain_requests _ _ H1 H2)).
  repeat split.
Defined.

End KeyMore.

(** ** The idle timer *)

Module IdleFacts.
Import IdleTimer.

Section Config.
Variable IDLE : Z.

Lemma scheduleCleanup_single s :
  single s ->
  pending (scheduleCleanup IDLE s)
  = {[nextTimer s := now s + NodeTimers.appliedZ IDLE]}
  /\ idleTimeout (scheduleCleanup IDLE s) = Some (nextTimer s)
  /\ now (scheduleCleanup IDLE s) = now s
  /\ lastActivity (scheduleCleanup IDLE s) = lastActivity s
  /\ cleanups (scheduleCleanup IDLE s) = cleanups s.
Proof.
  intros [He|(h & due & Hh & Hp)]; unfold scheduleCleanup.
  - destruct (idleTimeout s); simpl; rewrite He, ?delete_empty;
      by rewrite insert_empty.
  - rewrite Hh. simpl. rewrite Hp, delete_singleton_eq. by rewrite insert_empty.
Qed.

Lemma cancelCleanup_single s :
  single s ->
  pending (cancelCleanup s) = ∅
  /\ now (cancelCleanup s) = now s
  /\ lastActivity (cancelCleanup s) = lastActivity s
  /\ nextTimer (cancelCleanup s) = nextTimer s
  /\ cleanups (cancelCleanup s) = cleanups s.
Proof.
  intros [He|(h & due & Hh & Hp)]; unfold cancelCleanup.
  - destruct (idleTimeout s); simpl; by rewrite ?He, ?delete_empty.
  - rewrite Hh. simpl. by rewrite Hp, delete_singleton_eq.
Qed.

Lemma timerFires_cases h s :
  single s ->
  timerFires IDLE h s = s
  \/ exists due,
       pending s = {[h := due]} /\ due <= now s
       /\ pending (timerFires IDLE h s) = ∅
       /\ idleTimeout (timerFires IDLE h s) = idleTimeout s
       /\ now (timerFires IDLE h s) = now s
       /\ lastActivity (timerFires IDLE h s) = lastActivity s
       /\ (cleanups (timerFires IDLE h s) = cleanups s
           \/ cleanups (timerFires IDLE h s) = now s :: cleanups s
              /\ lastActivity s + IDLE <= now s).
Proof.
  intros Hs. unfold timerFires.
  destruct (pending s !! h) as [due|] eqn:E; [|by left].
  destruct (Z.leb_spec due (now s)) as [Hdue|]; [|by left].
  right. exists due.
  assert (Hp : pending s = {[h := due]}).
  { destruct Hs as [He|(h' & due' & _ & Hp)]; [by rewrite He in E|].
    rewrite Hp in E. apply lookup_singleton_Some in E as [-> ->]. done. }
  split; [done|]. split; [done|].
  unfold cleanupCallback. simpl.
  destruct (Z.geb_spec (now s - lastActivity s) IDLE) as [Hidle|Hbusy]; simpl;
    rewrite Hp, delete_singleton_eq; split_and!; try done.
  - right. split; [done | lia].
  - by left.
Qed.

Lemma step_single s e : single s -> single (step IDLE s e).
Proof.
  intros Hs. destruct e as [ms| | | | |h]; cbn [step].
  - exact Hs.
  - exact Hs.
  - unfold requestEnds.
    assert (Hc : single (cancelCleanup s))
      by (left; apply (cancelCleanup_single s Hs)).
    destruct (scheduleCleanup_single _ Hc) as (Hp & Hh & _). right. eauto.
  - destruct (scheduleCleanup_single _ Hs) as (Hp & Hh & _). right. eauto.
  - left. apply (cancelCleanup_single s Hs).
  - destruct (timerFires_cases h s Hs) as [->|(due & _ & _ & Hp & _)]; [done|].
    by left.
Qed.

Lemma run_single events s : single s -> single (run IDLE events s).
Proof.
  revert s. induction events as [|e events IH]; intros s Hs; [done|].
  simpl. apply IH, step_single, Hs.
Qed.

Lemma step_since T s e : single s -> since T s -> since T (step IDLE s e).
Proof.
  intros Hs [HT Hl]. unfold since. destruct e as [ms| | | | |h]; cbn [step].
  - simpl. lia.
  - simpl. lia.
  - unfold requestEnds.
    destruct (cancelCleanup_single s Hs) as (Hp & Hn & Ha & _).
    assert (Hc : single (cancelCleanup s)) by (by left).
    destruct (scheduleCleanup_single _ Hc) as (_ & _ & -> & -> & _). lia.
  - destruct (scheduleCleanup_single _ Hs) as (_ & _ & -> & -> & _). lia.
  - destruct (cancelCleanup_single s Hs) as (_ & -> & -> & _). lia.
  - destruct (timerFires_cases h s Hs) as [->|(due & _ & _ & _ & _ & -> & -> & _)];
      lia.
Qed.

Lemma step_armed_after T s e :
  single s -> armed_after IDLE T s -> armed_after IDLE T (step IDLE s e).
Proof.
  intros Hs [HT Hd]. unfold armed_after. destruct e as [ms| | | | |h]; cbn [step].
  - simpl. split; [lia | done].
  - done.
  - unfold requestEnds.
    destruct (cancelCleanup_single s Hs) as (Hp & Hn & Ha & Hx & _).
    assert (Hc : single (cancelCleanup s)) by (by left).
    destruct (scheduleCleanup_single _ Hc) as (-> & _ & -> & _).
    split; [lia|]. intros h due [_ <-]%lookup_singleton_Some. lia.
  - destruct (scheduleCleanup_single _ Hs) as (-> & _ & -> & _).
    split; [lia|]. intros h due [_ <-]%lookup_singleton_Some. lia.
  - destruct (cancelCleanup_single s Hs) as (-> & -> & _).
    split; [lia|]. intros h due H. by rewrite lookup_empty in H.
  - destruct (timerFires_cases h s Hs) as [->|(due & _ & _ & -> & _ & -> & _)];
      [done|].
    split; [lia|]. intros h' due' H. by rewrite lookup_empty in H.
Qed.

Lemma run_keeps T events s :
  single s ->
  (since T s -> since T (run IDLE events s))
  /\ (armed_after IDLE T s -> armed_after IDLE T (run IDLE events s)).
Proof.
  revert s. induction events as [|e events IH]; intros s Hs; [done|].
  simpl. destruct (IH (step IDLE s e) (step_single s e Hs)) as [H1 H2].
  split; intros H; [apply H1, step_since | apply H2, step_armed_after]; done.
Qed.

Lemma mark_starts s e :
  single s -> lastActivity s <= now s -> marks e = true ->
  (e = Begin -> since (now s) (step IDLE s e))
  /\ (e <> Begin -> armed_after IDLE (now s) (step IDLE s e)).
Proof.
  intros Hs Hl He. destruct e as [ms| | | | |h]; try discriminate He; cbn [step].
  - split; [|intros H; exfalso; by apply H]. intros _. unfold since. simpl. lia.
  - split; [done|]. intros _. unfold requestEnds.
    destruct (cancelCleanup_single s Hs) as (Hp & Hn & _).
    assert (Hc : single (cancelCleanup s)) by (by left).
    destruct (scheduleCleanup_single _ Hc) as (Hq & _ & Hn' & _).
    unfold armed_after. rewrite Hq, Hn', Hn.
    split; [lia|]. intros h due [_ <-]%lookup_singleton_Some. lia.
  - split; [done|]. intros _.
    destruct (scheduleCleanup_single _ Hs) as (Hq & _ & Hn' & _).
    unfold armed_after. rewrite Hq, Hn'.
    split; [lia|]. intros h due [_ <-]%lookup_singleton_Some. done.
Qed.

Lemma appliedZ_in_range (after : Z) :
  1 <= after <= NodeTimers.TIMEOUT_MAX -> NodeTimers.appliedZ after = after.
Proof.
  intros [H1 H2]. unfold NodeTimers.appliedZ.
  apply Z.leb_le in H1, H2. by rewrite H1, H2.
Qed.

(** X22.  In every run of the idle timer - requests beginning and ending,
    [scheduleCleanup] and [cancelCleanup] called on their own, timers firing,
    time passing - at most one cleanup timer is pending, the one held in
    [idleTimeout].  A timer callback begins the cleanup only when at least
    [IDLE_TIMEOUT] has passed since every earlier start of a request, and
    only when the delay that Node applies to the timer has passed since
    every earlier call that set it: that delay is [IDLE_TIMEOUT] when it
    lies between 1 and [TIMEOUT_MAX], and 1 ms otherwise. *)
Theorem cleanup_waits_for_an_idle_period (t0 : Z) (pre post : list Event)
    (e : Event) (h : nat) :
  let s1 := run IDLE pre (blank t0) in
  let s2 := run IDLE post (step IDLE s1 e) in
  (size (pending s2) <= 1)%nat
  /\ (forall h' due, pending s2 !! h' = Some due -> idleTimeout s2 = Some h')
  /\ (marks e = true ->
      cleanups (step IDLE s2 (Fire h)) <> cleanups s2 ->
      cleanups (step IDLE s2 (Fire h)) = now s2 :: cleanups s2
      /\ lastActivity s2 + IDLE <= now s2
      /\ (e = Begin -> now s1 + IDLE <= now s2)
      /\ (e <> Begin -> now s1 + NodeTimers.appliedZ IDLE <= now s2)
      /\ (1 <= IDLE <= NodeTimers.TIMEOUT_MAX -> now s1 + IDLE <= now s2)).
Proof.
  intros s1 s2.
  assert (H0 : single (blank t0)) by (by left).
  assert (Hs1 : single s1) by (apply run_single, H0).
  assert (Hs2 : single s2) by (apply run_single, step_single, Hs1).
  split; [|split].
  - destruct Hs2 as [->|(h' & due & _ & ->)].
    + by rewrite map_size_empty; lia.
    + rewrite map_size_singleton. lia.
  - intros h' due Hl. destruct Hs2 as [He|(h2 & due2 & Hh & Hp)].
    + by rewrite He in Hl.
    + rewrite Hp in Hl. by apply lookup_singleton_Some in Hl as [<- _].
  - intros He Hgrow. simpl in Hgrow |- *.
    assert (Hl1 : since t0 s1).
    { apply (run_keeps t0 pre (blank t0) H0). unfold since. simpl. lia. }
    destruct (timerFires_cases h s2 Hs2)
      as [Hsame|(due & Hp & Hdue & _ & _ & _ & _ & [Hc|[Hc Hidle]])].
    { by rewrite Hsame in Hgrow. }
    { by rewrite Hc in Hgrow. }
    destruct (mark_starts s1 e Hs1 (proj2 Hl1) He) as [Hb Ha].
    assert (Hbegin : e = Begin -> now s1 + IDLE <= now s2).
    { intros Heq. specialize (Hb Heq).
      apply (run_keeps (now s1) post _ (step_single s1 e Hs1)) in Hb.
      fold s2 in Hb. destruct Hb. lia. }
    assert (Harmed : e <> Begin -> now s1 + NodeTimers.appliedZ IDLE <= now s2).
    { intros Hne. specialize (Ha Hne).
      apply (run_keeps (now s1) post _ (step_single s1 e Hs1)) in Ha.
      fold s2 in Ha. destruct Ha as [_ Ha].
      specialize (Ha h due). rewrite Hp, lookup_singleton_eq in Ha.
      specialize (Ha eq_refl). lia. }
    split; [done|]. split; [lia|]. split; [done|]. split; [done|].
    intros Hrange.
    assert (Hcase : e = Begin \/ e <> Begin) by (destruct e; auto; by right).
    destruct Hcase as [Heq|Hne]; [by apply Hbegin|].
    rewrite <- (appliedZ_in_range IDLE Hrange). by apply Harmed.
Qed.

End Config.
End IdleFacts.
